(** * DNS manager: label parser, registrar client and reconciliation engine

    A shallow embedding of the server part of [src/frontend/src/App.js]
    (everything after the React component): the Traefik label parser
    [extractTraefikHosts], the Simply.com client [SimplyAPI], the engine
    ([createDNSRecordsForContainer], [scheduleRecordDeletion],
    [monitorContainers]) and the two HTTP handlers [GET /api/health] and
    [POST /api/sync].

    JavaScript strings are sequences of code units; they are modelled by
    [string], a sequence of [ascii] characters.  The parser only ever
    compares characters with the ASCII characters of its patterns, so the
    width of a code unit plays no role. *)

From Stdlib Require Import String Ascii List Bool Arith ZArith Lia DecimalString.
Import ListNotations.
Local Open Scope string_scope.
Local Open Scope list_scope.

(** ** JavaScript strings and arrays *)

Module JS.

(** [s.startsWith(p)] *)
Definition startsWith (s p : string) : bool := String.prefix p s.

(** [s.includes(sub)]: [sub] occurs at some position of [s]. *)
Fixpoint includes (s sub : string) : bool :=
  match s with
  | EmptyString => String.prefix sub EmptyString
  | String _ s' => String.prefix sub s || includes s' sub
  end.

(** [s.split(sep)] for a one-character separator: never empty, the empty
    string splits to one empty piece. *)
Fixpoint split (sep : ascii) (s : string) : list string :=
  match s with
  | EmptyString => [EmptyString]
  | String c s' =>
      if Ascii.eqb c sep then EmptyString :: split sep s'
      else match split sep s' with
           | piece :: rest => String c piece :: rest
           | [] => [String c EmptyString]
           end
  end.

(** [parts.join(sep)] *)
Definition join (sep : string) (parts : list string) : string :=
  String.concat sep parts.

(** [a.slice(0, -n)]: all but the last [n] elements. *)
Definition slice_but_last {A} (n : nat) (a : list A) : list A :=
  firstn (List.length a - n) a.

(** [a.slice(-n)]: the last [n] elements (all of them when fewer). *)
Definition slice_last {A} (n : nat) (a : list A) : list A :=
  skipn (List.length a - n) a.

(** [s.replace(re, '')] for the global pattern whose class holds the
    single quote and the double quote (character 34): every occurrence
    of either is dropped; a backtick is kept. *)
Fixpoint strip_quotes (s : string) : string :=
  match s with
  | EmptyString => EmptyString
  | String c s' =>
      if Ascii.eqb c "'"%char || Ascii.eqb c "034"%char
      then strip_quotes s'
      else String c (strip_quotes s')
  end.

(** [new Set()] of strings in insertion order; [add] ignores a member. *)
Definition Set_has (x : string) (s : list string) : bool :=
  existsb (String.eqb x) s.

Definition Set_add (x : string) (s : list string) : list string :=
  if Set_has x s then s else s ++ [x].

(** [[...new Set(a)]] *)
Definition Set_of (a : list string) : list string :=
  fold_left (fun s x => Set_add x s) a [].

(** Truthiness of a string, and the operators [a && b] and [a || b] on
    strings, which return one of their operands. *)
Definition truthy (s : string) : bool :=
  match s with EmptyString => false | String _ _ => true end.

Definition and_ (a b : string) : string := if truthy a then b else a.

Definition or_ (a b : string) : string := if truthy a then a else b.

(** [x === s] for a string literal [s] and a property [x] that may be
    [undefined]. *)
Definition strict_eq (x : option string) (s : string) : bool :=
  match x with
  | Some v => String.eqb v s
  | None => false
  end.

(** A number inside a template literal: an integer below 10^21 in absolute
    value, which is printed with all its digits. *)
Definition Z_to_string (z : Z) : string := NilZero.string_of_int (Z.to_int z).

(** Numbers are doubles.  [to_double z] is the double nearest to the integer
    [z], ties going to the even mantissa: [z] itself below [2^53] in
    absolute value, and above it [z] rounded to 53 significant bits.  (Past
    the largest double the result is [Infinity], which has no integer here;
    the only use of a product below treats it like any large number.) *)
Definition to_double (z : Z) : Z :=
  let a := Z.abs z in
  if (a <? 2 ^ 53)%Z then z
  else
    let e := (Z.log2 a - 52)%Z in
    let q := (a / 2 ^ e)%Z in
    let r := (a mod 2 ^ e)%Z in
    let half := (2 ^ (e - 1))%Z in
    let q' := if (r <? half)%Z then q
              else if (half <? r)%Z then (q + 1)%Z
              else if Z.even q then q else (q + 1)%Z in
    (Z.sgn z * (q' * 2 ^ e))%Z.

(** [a * b] for two numbers that hold integers. *)
Definition times (a b : Z) : Z := to_double (a * b).

End JS.

(** ** Label parser *)

(** A container's label map, in the order of [Object.entries]. *)
Definition Labels := list (string * string).

(** [labels[key]]: [None] stands for [undefined]. *)
Fixpoint label (labels : Labels) (key : string) : option string :=
  match labels with
  | [] => None
  | (k, v) :: rest => if String.eqb k key then Some v else label rest key
  end.

(** [labels || {}] *)
Definition labels_or_empty (labels : option Labels) : Labels :=
  match labels with
  | Some l => l
  | None => []
  end.

(** The two regular expressions of [extractTraefikHosts] have one shape: a
    literal, the group [([^c]+)] and a literal that starts with [c].  The
    group is greedy, and no shorter run can be followed by [c], so at a
    given position the only candidate for the group is the longest run of
    characters other than [c]. *)
Record HostRegex := {
  re_open : string;
  re_stop : ascii;
  re_close : string
}.

(** [/Host\(`([^`]+)`\)/] *)
Definition reBacktick : HostRegex :=
  {| re_open := "Host(`"; re_stop := "`"%char; re_close := "`)" |}.

(** [/Host\(([^)]+)\)/] *)
Definition reParen : HostRegex :=
  {| re_open := "Host("; re_stop := ")"%char; re_close := ")" |}.

(** What is left of [s] after the literal [p], when [s] starts with it. *)
Fixpoint strip_prefix (p s : string) : option string :=
  match p, s with
  | EmptyString, _ => Some s
  | String a p', String b s' => if Ascii.eqb a b then strip_prefix p' s' else None
  | String _ _, EmptyString => None
  end.

(** The longest run of characters other than [c], and the rest. *)
Fixpoint span_not (c : ascii) (s : string) : string * string :=
  match s with
  | EmptyString => (EmptyString, EmptyString)
  | String a s' =>
      if Ascii.eqb a c then (EmptyString, s)
      else let (run, rest) := span_not c s' in (String a run, rest)
  end.

(** A match of [re] that starts at the first character of [s]: the text of
    group 1 and what follows the match. *)
Definition match_at (re : HostRegex) (s : string) : option (string * string) :=
  match strip_prefix (re_open re) s with
  | None => None
  | Some r =>
      let (group, r') := span_not (re_stop re) r in
      match group with
      | EmptyString => None
      | String _ _ =>
          match strip_prefix (re_close re) r' with
          | None => None
          | Some r'' => Some (group, r'')
          end
      end
  end.

(** The matched text of a match whose group 1 is [group]. *)
Definition matched_text (re : HostRegex) (group : string) : string :=
  re_open re ++ group ++ re_close re.

(** [s.match(re)] without the [g] flag: the leftmost match, as the pair of
    the matched text (index 0) and group 1 (index 1); [None] is [null]. *)
Fixpoint exec (re : HostRegex) (s : string) : option (string * string) :=
  match match_at re s with
  | Some (group, _) => Some (matched_text re group, group)
  | None =>
      match s with
      | EmptyString => None
      | String _ s' => exec re s'
      end
  end.

(** [s.match(re)] with the [g] flag: the matched texts of the successive
    matches, each search resuming where the previous match ended ([skip]
    counts the characters of the last match still to be passed).  The empty
    list is [null]. *)
Fixpoint match_all_from (re : HostRegex) (skip : nat) (s : string) : list string :=
  match s with
  | EmptyString => []
  | String _ s' =>
      match skip with
      | S k => match_all_from re k s'
      | O =>
          match match_at re s with
          | Some (group, _) =>
              let m := matched_text re group in
              m :: match_all_from re (String.length m - 1) s'
          | None => match_all_from re 0 s'
          end
      end
  end.

Definition match_all (re : HostRegex) (s : string) : list string :=
  match_all_from re 0 s.

(** [match.match(re)[1]]; reading index 1 of [null] would raise, which does
    not happen for a [match] produced by [match_all re]. *)
Definition group1 (re : HostRegex) (m : string) : string :=
  match exec re m with
  | Some (_, group) => group
  | None => EmptyString
  end.

(** The hosts pushed for one router rule [value]: first the backtick
    matches, then the matches of the second pattern with quotes removed. *)
Definition hosts_of_rule (value : string) : list string :=
  map (group1 reBacktick) (match_all reBacktick value)
  ++ map (fun m => JS.strip_quotes (group1 reParen m)) (match_all reParen value).

Definition is_router_rule (key : string) : bool :=
  JS.includes key "traefik.http.routers" && JS.includes key ".rule".

(** [extractTraefikHosts(labels)].  The source also declares an array
    [patterns] that it never reads. *)
Definition extractTraefikHosts (labels : Labels) : list string :=
  JS.Set_of
    (flat_map (fun kv => if is_router_rule (fst kv) then hosts_of_rule (snd kv) else [])
       labels).



(** ** Configuration and engine state *)

(** [config], read from the process environment when the module loads. *)
Record Config := {
  accountName : string;
  apiKey : string;
  deleteDelay : Z;
  pollInterval : Z;
  port : Z;
  targetDomain : string
}.

(** A value of [managedRecords]. *)
Record ManagedRecord := {
  recordId : string;
  hostname : string;
  domain : string;
  subdomain : string;
  containerId : string
}.

(** [record.containerId], for use where a local variable has that name. *)
Definition record_containerId (record : ManagedRecord) : string :=
  containerId record.

(** A JavaScript [Map] with string keys, as its entries in insertion order. *)
Definition JSMap (V : Type) := list (string * V).

Definition Map_get {V} (k : string) (m : JSMap V) : option V :=
  match find (fun kv => String.eqb (fst kv) k) m with
  | Some kv => Some (snd kv)
  | None => None
  end.

Definition Map_has {V} (k : string) (m : JSMap V) : bool :=
  existsb (fun kv => String.eqb (fst kv) k) m.

(** [m.set(k, v)]: a present key keeps its place and takes the new value, a
    new key goes to the end. *)
Fixpoint Map_set {V} (k : string) (v : V) (m : JSMap V) : JSMap V :=
  match m with
  | [] => [(k, v)]
  | (k', v') :: rest =>
      if String.eqb k' k then (k, v) :: rest else (k', v') :: Map_set k v rest
  end.

Definition Map_delete {V} (k : string) (m : JSMap V) : JSMap V :=
  filter (fun kv => negb (String.eqb (fst kv) k)) m.

Definition Map_keys {V} (m : JSMap V) : list string := map fst m.

(** A timer armed with [setTimeout] and not yet fired or cleared: its handle,
    the delay in milliseconds after which the runtime fires it, and the
    [containerId] its callback closes over (the only callback ever armed is
    the one of [scheduleRecordDeletion]). *)
Record Timer := {
  handle : nat;
  delay : Z;
  owner : string
}.

(** The mutable state of the process: the two module-level maps and the timers
    of the runtime.  [nextTimer] is the handle the next [setTimeout] returns. *)
Record Heap := {
  managedRecords : JSMap ManagedRecord;
  deletePendingRecords : JSMap nat;
  timers : list Timer;
  nextTimer : nat
}.

Definition initial : Heap :=
  {| managedRecords := []; deletePendingRecords := []; timers := []; nextTimer := 0 |}.

Definition with_managedRecords (f : JSMap ManagedRecord -> JSMap ManagedRecord) (h : Heap) : Heap :=
  {| managedRecords := f (managedRecords h);
     deletePendingRecords := deletePendingRecords h;
     timers := timers h;
     nextTimer := nextTimer h |}.

Definition with_deletePendingRecords (f : JSMap nat -> JSMap nat) (h : Heap) : Heap :=
  {| managedRecords := managedRecords h;
     deletePendingRecords := f (deletePendingRecords h);
     timers := timers h;
     nextTimer := nextTimer h |}.

(** The delay that the runtime gives a timer asked for with [ms]
    milliseconds: Node keeps a delay from 1 to [TIMEOUT_MAX] = 2^31 - 1 and
    replaces every other one by 1. *)
Definition TIMEOUT_MAX : Z := 2147483647.

Definition timeout_after (ms : Z) : Z :=
  if ((1 <=? ms) && (ms <=? TIMEOUT_MAX))%Z then ms else 1%Z.

(** [setTimeout(callback, ms)] where [callback] is the deletion callback of
    [cid]; the handle returned is [nextTimer h]. *)
Definition arm (ms : Z) (cid : string) (h : Heap) : Heap :=
  {| managedRecords := managedRecords h;
     deletePendingRecords := deletePendingRecords h;
     timers := timers h
               ++ [{| handle := nextTimer h; delay := timeout_after ms; owner := cid |}];
     nextTimer := S (nextTimer h) |}.

(** [clearTimeout(t)]: nothing happens when [t] has fired or was cleared. *)
Definition disarm (t : nat) (h : Heap) : Heap :=
  {| managedRecords := managedRecords h;
     deletePendingRecords := deletePendingRecords h;
     timers := filter (fun x => negb (Nat.eqb (handle x) t)) (timers h);
     nextTimer := nextTimer h |}.

(** ** The outside world *)

(** The outcome of a promise: resolved with a value, or rejected with an
    [Error] of which the code only ever reads [message]. *)
Inductive Result (A : Type) : Type :=
| Resolved (a : A)
| Rejected (message : string).
Arguments Resolved {A} a.
Arguments Rejected {A} message.

(** An element of [docker.listContainers({all: true})]. *)
Record ContainerInfo := {
  info_Id : string;
  info_State : string
}.

(** The answer of [container.inspect()]: [Id] and [Config.Labels], which may
    be [null]. *)
Record InspectInfo := {
  Id : string;
  Config_Labels : option Labels
}.

Inductive Level := INFO | WARN | ERROR.

(** The body of an HTTP answer of the two handlers modelled. *)
Inductive Body :=
| HealthBody (status timestamp : string) (pollInterval deleteDelay : Z) (hasCredentials : bool)
| SyncBody (message timestamp : string)
| ErrorBody (error : string).

(** What the process does that can be seen from outside, in order: lines
    logged (the message, without the data object), HTTP answers sent, and
    requests to the registrar together with the outcome delivered. *)
Inductive Event :=
| EvLog (level : Level) (msg : string)
| EvResponse (status : Z) (body : Body)
| EvCreate (domain name target : string) (ttl : Z) (r : Result string)
| EvDelete (domain recordId : string) (r : Result unit).

(** The answers of the container runtime and of the registrar, for a run in
    which nothing else is in flight.  The registrar may answer a request in
    the light of everything that happened before it. *)
Record Outside := {
  docker_listContainers : Result (list ContainerInfo);
  docker_inspect : string -> Result InspectInfo;
  registrar_post : list Event -> string -> string -> string -> Z -> Result string;
  registrar_delete : list Event -> string -> string -> Result unit
}.

(** ** Asynchronous programs *)

(** An [async] function body: it returns, throws, reads or updates the heap,
    logs or answers an HTTP request, or awaits one of the four I/O promises
    of this file: [docker.listContainers({all: true})],
    [container.inspect()], the [axios.post] of [createCNAMERecord] and the
    [axios.delete] of [deleteRecord].  The process has one thread: between
    two of these awaits nothing else runs, and at each of them anything may.
    Awaiting an [async] function of this file is running its body in place:
    once the body has nothing left to wait for, the caller goes on in the
    same turn of the event loop. *)
Inductive Prog (A : Type) : Type :=
| Ret (a : A)
| Throw (message : string)
| Get (k : Heap -> Prog A)
| Modify (f : Heap -> Heap) (k : Prog A)
| Emit (e : Event) (k : Prog A)
| AwaitList (k : Result (list ContainerInfo) -> Prog A)
| AwaitInspect (id : string) (k : Result InspectInfo -> Prog A)
| AwaitPost (domain name target : string) (ttl : Z) (k : Result string -> Prog A)
| AwaitDelete (domain recordId : string) (k : Result unit -> Prog A).
Arguments Ret {A} a.
Arguments Throw {A} message.
Arguments Get {A} k.
Arguments Modify {A} f k.
Arguments Emit {A} e k.
Arguments AwaitList {A} k.
Arguments AwaitInspect {A} id k.
Arguments AwaitPost {A} domain name target ttl k.
Arguments AwaitDelete {A} domain recordId k.

Fixpoint bind {A B} (p : Prog A) (f : A -> Prog B) : Prog B :=
  match p with
  | Ret a => f a
  | Throw e => Throw e
  | Get k => Get (fun h => bind (k h) f)
  | Modify g k => Modify g (bind k f)
  | Emit e k => Emit e (bind k f)
  | AwaitList k => AwaitList (fun r => bind (k r) f)
  | AwaitInspect id k => AwaitInspect id (fun r => bind (k r) f)
  | AwaitPost d n t ttl k => AwaitPost d n t ttl (fun r => bind (k r) f)
  | AwaitDelete d i k => AwaitDelete d i (fun r => bind (k r) f)
  end.

(** [try { p } catch (error) { handler(error.message) }] *)
Fixpoint try_catch {A} (p : Prog A) (handler : string -> Prog A) : Prog A :=
  match p with
  | Ret a => Ret a
  | Throw e => handler e
  | Get k => Get (fun h => try_catch (k h) handler)
  | Modify g k => Modify g (try_catch k handler)
  | Emit e k => Emit e (try_catch k handler)
  | AwaitList k => AwaitList (fun r => try_catch (k r) handler)
  | AwaitInspect id k => AwaitInspect id (fun r => try_catch (k r) handler)
  | AwaitPost d n t ttl k => AwaitPost d n t ttl (fun r => try_catch (k r) handler)
  | AwaitDelete d i k => AwaitDelete d i (fun r => try_catch (k r) handler)
  end.

Declare Scope prog_scope.
Delimit Scope prog_scope with prog.
Bind Scope prog_scope with Prog.
Notation "x <- p ;; q" := (bind p (fun x => q))
  (at level 61, p at next level, right associativity) : prog_scope.
Notation "p ;; q" := (bind p (fun _ => q))
  (at level 61, right associativity) : prog_scope.
Local Open Scope prog_scope.

(** [for (const x of xs) { body }] *)
Fixpoint for_each {X} (xs : list X) (body : X -> Prog unit) : Prog unit :=
  match xs with
  | [] => Ret tt
  | x :: rest => body x ;; for_each rest body
  end.

(** A [for ... of] loop that updates a local variable [acc]. *)
Fixpoint for_each_with {X S} (xs : list X) (acc : S) (body : S -> X -> Prog S) : Prog S :=
  match xs with
  | [] => Ret acc
  | x :: rest => acc' <- body acc x ;; for_each_with rest acc' body
  end.

(** [await promise]: the value it resolves with, or its rejection thrown. *)
Definition settle {A} (r : Result A) : Prog A :=
  match r with
  | Resolved a => Ret a
  | Rejected e => Throw e
  end.

Definition get : Prog Heap := Get (fun h => Ret h).
Definition modify (f : Heap -> Heap) : Prog unit := Modify f (Ret tt).

Definition log_info (msg : string) : Prog unit := Emit (EvLog INFO msg) (Ret tt).
Definition log_warn (msg : string) : Prog unit := Emit (EvLog WARN msg) (Ret tt).
Definition log_error (msg : string) : Prog unit := Emit (EvLog ERROR msg) (Ret tt).

(** [res.status(status).json(body)] *)
Definition respond (status : Z) (body : Body) : Prog unit :=
  Emit (EvResponse status body) (Ret tt).

Definition setTimeout (ms : Z) (cid : string) : Prog nat :=
  Get (fun h => Modify (arm ms cid) (Ret (nextTimer h))).

(** [clearTimeout(t)]; [None] is [undefined], for which nothing happens. *)
Definition clearTimeout (t : option nat) : Prog unit :=
  match t with
  | Some x => modify (disarm x)
  | None => Ret tt
  end.

(** ** Registrar client *)

Module SimplyAPI.

(** [createCNAMERecord(domain, name, target, ttl)]: the POST, whose promise
    resolves with the id of the record created ([response.data.record[0].id]);
    a response without that field raises inside the same [try] and is covered
    by a rejection. *)
Definition createCNAMERecord (domain name target : string) (ttl : Z) : Prog string :=
  try_catch
    (id <- AwaitPost domain name target ttl settle ;;
     log_info ("Created CNAME record: " ++ name ++ "." ++ domain ++ " -> " ++ target) ;;
     Ret id)
    (fun error =>
       log_error ("Failed to create CNAME record: " ++ name ++ "." ++ domain) ;;
       Throw error).

(** [deleteRecord(domain, recordId)] *)
Definition deleteRecord (domain recordId : string) : Prog bool :=
  try_catch
    (AwaitDelete domain recordId settle ;;
     log_info "Deleted DNS record" ;;
     Ret true)
    (fun error =>
       log_error "Failed to delete DNS record" ;;
       Throw error).

End SimplyAPI.

(** ** Reconciliation engine *)

Section Engine.

Variable config : Config.

(** The body of the loop over [hosts] in [createDNSRecordsForContainer]. *)
Definition createDNSRecordForHost (containerId host : string) : Prog unit :=
  let parts := JS.split "."%char host in
  if Nat.ltb (List.length parts) 2 then
    log_warn ("Invalid hostname format: " ++ host)
  else
    let subdomain := JS.join "." (JS.slice_but_last 2 parts) in
    let domain := JS.join "." (JS.slice_last 2 parts) in
    if negb (JS.truthy subdomain) then
      log_warn ("No subdomain found for host: " ++ host)
    else
      try_catch
        (recordId <- SimplyAPI.createCNAMERecord domain subdomain
                       (JS.or_ (targetDomain config) host) 3600 ;;
         let recordKey := (containerId ++ "-" ++ host)%string in
         modify (with_managedRecords
                   (Map_set recordKey
                      {| recordId := recordId;
                         hostname := host;
                         domain := domain;
                         subdomain := subdomain;
                         containerId := containerId |})) ;;
         log_info "DNS record created for container")
        (fun error => log_error ("Failed to create DNS record for " ++ host)).

(** [createDNSRecordsForContainer(container)], where [container] is
    [docker.getContainer(id)]. *)
Definition createDNSRecordsForContainer (id : string) : Prog unit :=
  try_catch
    (containerInfo <- AwaitInspect id settle ;;
     let labels := labels_or_empty (Config_Labels containerInfo) in
     let containerId := String.substring 0 12 (Id containerInfo) in
     if negb (JS.strict_eq (label labels "traefik.enable") "true") then
       Ret tt
     else
       let hosts := extractTraefikHosts labels in
       if Nat.eqb (List.length hosts) 0 then
         log_warn ("No valid hosts found in Traefik labels for container " ++ containerId)
       else
         for_each hosts (createDNSRecordForHost containerId))
    (fun error => log_error "Error processing container for DNS creation").

(** The body of the loop over [recordsToDelete] in the callback below. *)
Definition deleteManagedRecord (kr : string * ManagedRecord) : Prog unit :=
  let key := fst kr in
  let record := snd kr in
  try_catch
    (SimplyAPI.deleteRecord (domain record) (recordId record) ;;
     modify (with_managedRecords (Map_delete key)) ;;
     log_info "DNS record deleted for stopped container")
    (fun error => log_error "Failed to delete DNS record for stopped container").

(** The callback that [scheduleRecordDeletion(containerId)] hands to
    [setTimeout]. *)
Definition deletionCallback (containerId : string) : Prog unit :=
  try_catch
    (h <- get ;;
     let recordsToDelete :=
       filter (fun kr => String.eqb (record_containerId (snd kr)) containerId)
         (managedRecords h) in
     for_each recordsToDelete deleteManagedRecord ;;
     modify (with_deletePendingRecords (Map_delete containerId)))
    (fun error => log_error "Error during scheduled record deletion").

(** [scheduleRecordDeletion(containerId)] *)
Definition scheduleRecordDeletion (containerId : string) : Prog unit :=
  h <- get ;;
  (if Map_has containerId (deletePendingRecords h)
   then clearTimeout (Map_get containerId (deletePendingRecords h))
   else Ret tt) ;;
  timer <- setTimeout (JS.times (deleteDelay config) 1000) containerId ;;
  modify (with_deletePendingRecords (Map_set containerId timer)) ;;
  log_info ("Scheduled DNS record deletion in "
            ++ JS.Z_to_string (deleteDelay config) ++ " seconds").

(** The body of the first loop of [monitorContainers]; the local set
    [runningContainerIds] is passed along. *)
Definition monitorContainer (runningContainerIds : list string) (containerInfo : ContainerInfo)
  : Prog (list string) :=
  if String.eqb (info_State containerInfo) "running" then
    let containerId := String.substring 0 12 (info_Id containerInfo) in
    let runningContainerIds := JS.Set_add containerId runningContainerIds in
    h <- get ;;
    let hasRecords :=
      existsb (fun key => JS.startsWith key containerId) (Map_keys (managedRecords h)) in
    (if negb hasRecords
     then createDNSRecordsForContainer (info_Id containerInfo)
     else Ret tt) ;;
    h <- get ;;
    (if Map_has containerId (deletePendingRecords h) then
       clearTimeout (Map_get containerId (deletePendingRecords h)) ;;
       modify (with_deletePendingRecords (Map_delete containerId)) ;;
       log_info "Cancelled scheduled deletion for restarted container"
     else Ret tt) ;;
    Ret runningContainerIds
  else Ret runningContainerIds.

(** The body of the second loop of [monitorContainers]. *)
Definition scheduleIfStopped (runningContainerIds : list string) (kr : string * ManagedRecord)
  : Prog unit :=
  let record := snd kr in
  h <- get ;;
  if negb (JS.Set_has (containerId record) runningContainerIds)
     && negb (Map_has (containerId record) (deletePendingRecords h))
  then scheduleRecordDeletion (containerId record)
  else Ret tt.

(** [monitorContainers()]: one tick. *)
Definition monitorContainers : Prog unit :=
  try_catch
    (containers <- AwaitList settle ;;
     runningContainerIds <- for_each_with containers [] monitorContainer ;;
     h <- get ;;
     for_each (managedRecords h) (scheduleIfStopped runningContainerIds))
    (fun error => log_error "Error monitoring containers").

(** The handler of [GET /api/health]; [now] is [new Date().toISOString()]. *)
Definition api_health (now : string) : Prog unit :=
  respond 200
    (HealthBody "healthy" now (pollInterval config) (deleteDelay config)
       (JS.truthy (JS.and_ (accountName config) (apiKey config)))).

(** The handler of [POST /api/sync]; [now] is the time read once the tick
    has returned. *)
Definition api_sync (now : string) : Prog unit :=
  try_catch
    (log_info "Manual sync triggered" ;;
     monitorContainers ;;
     respond 200 (SyncBody "Sync completed" now))
    (fun error =>
       log_error "Manual sync failed" ;;
       respond 500 (ErrorBody error)).

End Engine.

(** ** Running one program to its end *)

(** The heap, and what has been seen of the process so far, oldest first. *)
Record World := {
  heap : Heap;
  trace : list Event
}.

Definition on_heap (f : Heap -> Heap) (w : World) : World :=
  {| heap := f (heap w); trace := trace w |}.

(** The event [e] happens. *)
Definition observe (e : Event) (w : World) : World :=
  {| heap := heap w; trace := trace w ++ [e] |}.

(** [run out p w]: [p] runs from [w] with every promise it awaits settled by
    [out] before anything else happens; the result is how the promise of [p]
    settles, and the world it leaves. *)
Fixpoint run {A} (out : Outside) (p : Prog A) (w : World) : Result A * World :=
  match p with
  | Ret a => (Resolved a, w)
  | Throw e => (Rejected e, w)
  | Get k => run out (k (heap w)) w
  | Modify f k => run out k (on_heap f w)
  | Emit e k => run out k (observe e w)
  | AwaitList k => run out (k (docker_listContainers out)) w
  | AwaitInspect id k => run out (k (docker_inspect out id)) w
  | AwaitPost d n t ttl k =>
      let r := registrar_post out (trace w) d n t ttl in
      run out (k r) (observe (EvCreate d n t ttl r) w)
  | AwaitDelete d i k =>
      let r := registrar_delete out (trace w) d i in
      run out (k r) (observe (EvDelete d i r) w)
  end.

(** The heap that [p] leaves when it runs from the heap [h], and the events
    of that run. *)
Definition exec_from {A} (out : Outside) (p : Prog A) (h : Heap) : World :=
  snd (run out p {| heap := h; trace := [] |}).

Definition is_create (e : Event) : bool :=
  match e with EvCreate _ _ _ _ _ => true | _ => false end.

Definition is_delete (e : Event) : bool :=
  match e with EvDelete _ _ _ => true | _ => false end.

Definition is_response (e : Event) : bool :=
  match e with EvResponse _ _ => true | _ => false end.

(** The requests for record creation, those for deletion, and the HTTP
    answers in a trace. *)
Definition creates (tr : list Event) : list Event := filter is_create tr.
Definition deletes (tr : list Event) : list Event := filter is_delete tr.
Definition responses (tr : list Event) : list Event := filter is_response tr.

(** A request for record creation that the registrar turned down. *)
Definition is_failed_create (e : Event) : bool :=
  match e with EvCreate _ _ _ _ (Rejected _) => true | _ => false end.

(** ** Interleaved execution *)

(** A reply to the promise a suspended task awaits. *)
Inductive Reply :=
| ReplyList (r : Result (list ContainerInfo))
| ReplyInspect (r : Result InspectInfo)
| ReplyPost (r : Result string)
| ReplyDelete (r : Result unit).

(** What the event loop can do next: start a tick (the interval timer, or
    the initial sync), serve a request, run the callback of an armed timer,
    or resume the [i]-th suspended task with the reply to its promise. *)
Inductive Action :=
| Tick
| SyncRequest (now : string)
| HealthRequest (now : string)
| Fire (t : nat)
| Resume (i : nat) (r : Reply).

(** The process between two turns of the event loop: heap, trace, and the
    tasks suspended at an [await]. *)
Record Process := {
  p_heap : Heap;
  p_trace : list Event;
  p_tasks : list (Prog unit)
}.

Definition boot : Process :=
  {| p_heap := initial; p_trace := []; p_tasks := [] |}.

(** One turn: [p] runs until it ends or reaches an [await]; [None] when it
    has ended (a rejection nobody handles ends the task as well). *)
Fixpoint advance (p : Prog unit) (w : World) : World * option (Prog unit) :=
  match p with
  | Ret _ => (w, None)
  | Throw _ => (w, None)
  | Get k => advance (k (heap w)) w
  | Modify f k => advance k (on_heap f w)
  | Emit e k => advance k (observe e w)
  | AwaitList _ | AwaitInspect _ _ | AwaitPost _ _ _ _ _ | AwaitDelete _ _ _ => (w, Some p)
  end.

(** The continuation of a suspended task for a reply of the right kind,
    together with the event the reply leaves in the trace. *)
Definition resume (p : Prog unit) (r : Reply) : option (Prog unit * list Event) :=
  match p, r with
  | AwaitList k, ReplyList x => Some (k x, [])
  | AwaitInspect _ k, ReplyInspect x => Some (k x, [])
  | AwaitPost d n t ttl k, ReplyPost x => Some (k x, [EvCreate d n t ttl x])
  | AwaitDelete d i k, ReplyDelete x => Some (k x, [EvDelete d i x])
  | _, _ => None
  end.

Fixpoint replace_task (i : nat) (p : option (Prog unit)) (tasks : list (Prog unit))
  : list (Prog unit) :=
  match tasks, i with
  | [], _ => []
  | _ :: rest, O => match p with Some q => q :: rest | None => rest end
  | x :: rest, S j => x :: replace_task j p rest
  end.

(** A new task starts: it runs its first turn at once and joins the
    suspended tasks if it has not ended. *)
Definition spawn (p : Prog unit) (s : Process) : Process :=
  let (w, q) := advance p {| heap := p_heap s; trace := p_trace s |} in
  {| p_heap := heap w;
     p_trace := trace w;
     p_tasks := p_tasks s ++ match q with Some x => [x] | None => [] end |}.

Section EventLoop.

Variable config : Config.

(** [None] when the action is not possible in [s]. *)
Definition turn (s : Process) (a : Action) : option Process :=
  match a with
  | Tick => Some (spawn (monitorContainers config) s)
  | SyncRequest now => Some (spawn (api_sync config now) s)
  | HealthRequest now => Some (spawn (api_health config now) s)
  | Fire t =>
      match find (fun x => Nat.eqb (handle x) t) (timers (p_heap s)) with
      | Some x =>
          Some (spawn (deletionCallback (owner x))
                  {| p_heap := disarm t (p_heap s);
                     p_trace := p_trace s;
                     p_tasks := p_tasks s |})
      | None => None
      end
  | Resume i r =>
      match nth_error (p_tasks s) i with
      | Some p =>
          match resume p r with
          | Some (q, evs) =>
              let (w, q') := advance q {| heap := p_heap s; trace := p_trace s ++ evs |} in
              Some {| p_heap := heap w;
                      p_trace := trace w;
                      p_tasks := replace_task i q' (p_tasks s) |}
          | None => None
          end
      | None => None
      end
  end.

Fixpoint turns (s : Process) (acts : list Action) : option Process :=
  match acts with
  | [] => Some s
  | a :: rest =>
      match turn s a with
      | Some s' => turns s' rest
      | None => None
      end
  end.

(** The states the process can be in, whatever the order of events. *)
Definition reachable (s : Process) : Prop :=
  exists acts, turns boot acts = Some s.

End EventLoop.

(** ** Example data *)

Definition example_config : Config :=
  {| accountName := "S123456";
     apiKey := "secret";
     deleteDelay := 300;
     pollInterval := 30;
     port := 3000;
     targetDomain := "your-server.com" |}.

(** The same with a delay of thirty days before deletion. *)
Definition thirty_days_config : Config :=
  {| accountName := "S123456";
     apiKey := "secret";
     deleteDelay := 2592000;
     pollInterval := 30;
     port := 3000;
     targetDomain := "your-server.com" |}.

(** The double quote character as a string. *)
Definition dq : string := String "034"%char EmptyString.

Definition router_key : string := "traefik.http.routers.app.rule".

(** A label map with the enablement label and one router rule. *)
Definition enabled_with (key value : string) : Labels :=
  [("traefik.enable", "true"); (key, value)].

(** A container id as the runtime gives it (shortened here to 20 characters;
    the engine keeps the first 12). *)
Definition example_id : string := "0123456789abcdef0123".

Definition example_container : ContainerInfo :=
  {| info_Id := example_id; info_State := "running" |}.

(** A runtime that lists [containers] and answers every inspection with
    [labels], and a registrar that answers every request with [post] and
    [del]. *)
Definition example_outside (containers : Result (list ContainerInfo)) (labels : Labels)
    (post : Result string) (del : Result unit) : Outside :=
  {| docker_listContainers := containers;
     docker_inspect := fun id => Resolved {| Id := id; Config_Labels := Some labels |};
     registrar_post := fun _ _ _ _ _ => post;
     registrar_delete := fun _ _ _ => del |}.

(** A label map with a router rule and no enablement label. *)
Definition labels_without_flag : Labels :=
  [(router_key, "Host(a.b.com)")].

(** The labels of the scenario: enablement, and a rule that names one host
    between backticks. *)
Definition scenario_labels : Labels :=
  enabled_with router_key "Host(`app.example.com`)".

(** Labels whose only host has two labels. *)
Definition apex_labels : Labels :=
  enabled_with router_key "Host(example.com)".

(** Labels whose only host is [app.example.com], written bare. *)
Definition bare_labels : Labels :=
  enabled_with router_key "Host(app.example.com)".

(** One running container that declares [app.example.com], and a registrar
    that turns every request down. *)
Definition failing_registrar : Outside :=
  example_outside (Resolved [example_container]) bare_labels
    (Rejected "Request failed with status code 500")
    (Rejected "Request failed with status code 500").

(** One running container that declares [app.example.com] between
    backticks, for which the parser returns two hosts, and a registrar that
    accepts the name [app] and turns every other name down. *)
Definition picky_registrar : Outside :=
  {| docker_listContainers := Resolved [example_container];
     docker_inspect := fun id => Resolved {| Id := id; Config_Labels := Some scenario_labels |};
     registrar_post := fun _ _ name _ _ =>
                         if String.eqb name "app" then Resolved "4711"
                         else Rejected "Request failed with status code 400";
     registrar_delete := fun _ _ _ => Resolved tt |}.

(** The same container, and a registrar that accepts every request. *)
Definition accepting_registrar : Outside :=
  example_outside (Resolved [example_container]) bare_labels
    (Resolved "4711") (Resolved tt).

(** A heap with one record of the example container, whose deletion is
    pending. *)
Definition example_record : ManagedRecord :=
  {| recordId := "4711";
     hostname := "app.example.com";
     domain := "example.com";
     subdomain := "app";
     containerId := "0123456789ab" |}.

Definition pending_heap : Heap :=
  {| managedRecords := [("0123456789ab-app.example.com", example_record)];
     deletePendingRecords := [("0123456789ab", 0)];
     timers := [{| handle := 0; delay := 300000; owner := "0123456789ab" |}];
     nextTimer := 1 |}.

(** The scheduled tick and a sync request overlap: both list the containers,
    both inspect the one container, both ask the registrar for its record,
    and only then do the two answers of the registrar arrive. *)
Definition example_inspection : InspectInfo :=
  {| Id := example_id; Config_Labels := Some bare_labels |}.

Definition overlapping_ticks : list Action :=
  [Tick;
   SyncRequest "2025-01-01T00:00:00.000Z";
   Resume 0 (ReplyList (Resolved [example_container]));
   Resume 1 (ReplyList (Resolved [example_container]));
   Resume 0 (ReplyInspect (Resolved example_inspection));
   Resume 1 (ReplyInspect (Resolved example_inspection));
   Resume 0 (ReplyPost (Resolved "4711"));
   Resume 0 (ReplyPost (Resolved "4712"))].

Definition stopped_container : ContainerInfo :=
  {| info_Id := example_id; info_State := "exited" |}.

(** The container gets its record and stops; its deletion timer fires, and
    while the callback waits for the registrar, the container is seen running
    and then stopped again by two ticks; the callback ends after that, and
    one more tick follows. *)
Definition stale_callback : list Action :=
  [Tick;
   Resume 0 (ReplyList (Resolved [example_container]));
   Resume 0 (ReplyInspect (Resolved example_inspection));
   Resume 0 (ReplyPost (Resolved "4711"));
   Tick;
   Resume 0 (ReplyList (Resolved [stopped_container]));
   Fire 0;
   Tick;
   Resume 1 (ReplyList (Resolved [example_container]));
   Tick;
   Resume 1 (ReplyList (Resolved [stopped_container]));
   Resume 0 (ReplyDelete (Rejected "timeout of 60000ms exceeded"));
   Tick;
   Resume 0 (ReplyList (Resolved [stopped_container]))].

(** The container gets its record and stops, and a tick arms the timer of
    its deletion; then the timer fires and its callback runs while nothing
    else does. *)
Definition armed_deletion : list Action :=
  [Tick;
   Resume 0 (ReplyList (Resolved [example_container]));
   Resume 0 (ReplyInspect (Resolved example_inspection));
   Resume 0 (ReplyPost (Resolved "4711"));
   Tick;
   Resume 0 (ReplyList (Resolved [stopped_container]))].

Definition completed_deletion : list Action :=
  armed_deletion ++ [Fire 0; Resume 0 (ReplyDelete (Resolved tt))].

(** The process after the actions [acts] from the start ([boot] itself when
    they are not possible). *)
Definition state_after (config : Config) (acts : list Action) : Process :=
  match turns config boot acts with
  | Some s => s
  | None => boot
  end.

(** ** Footprints *)

(** The updates of the heap that the programs of this file perform. *)
Inductive HeapOp : (Heap -> Heap) -> Prop :=
| op_managed_set k v : HeapOp (with_managedRecords (Map_set k v))
| op_managed_delete k : HeapOp (with_managedRecords (Map_delete k))
| op_pending_set k t : HeapOp (with_deletePendingRecords (Map_set k t))
| op_pending_delete k : HeapOp (with_deletePendingRecords (Map_delete k))
| op_arm ms cid : HeapOp (arm ms cid)
| op_disarm t : HeapOp (disarm t).

(** [Within ops evs p]: on every path through [p], each update of the heap
    is in [ops] and each event that can enter the trace is in [evs]. *)
Inductive Within {A} (ops : (Heap -> Heap) -> Prop) (evs : Event -> Prop) : Prog A -> Prop :=
| Within_Ret a : Within ops evs (Ret a)
| Within_Throw e : Within ops evs (Throw e)
| Within_Get k : (forall h, Within ops evs (k h)) -> Within ops evs (Get k)
| Within_Modify f k : ops f -> Within ops evs k -> Within ops evs (Modify f k)
| Within_Emit e k : evs e -> Within ops evs k -> Within ops evs (Emit e k)
| Within_AwaitList k :
    (forall r, Within ops evs (k r)) -> Within ops evs (AwaitList k)
| Within_AwaitInspect id k :
    (forall r, Within ops evs (k r)) -> Within ops evs (AwaitInspect id k)
| Within_AwaitPost d n t ttl k :
    (forall r, evs (EvCreate d n t ttl r)) ->
    (forall r, Within ops evs (k r)) -> Within ops evs (AwaitPost d n t ttl k)
| Within_AwaitDelete d i k :
    (forall r, evs (EvDelete d i r)) ->
    (forall r, Within ops evs (k r)) -> Within ops evs (AwaitDelete d i k).

Definition is_log (e : Event) : bool :=
  match e with EvLog _ _ => true | _ => false end.

(** The maps are [Map]s and the handles of armed timers are distinct and
    were all handed out already. *)
Record well_formed (h : Heap) : Prop := {
  wf_managed : NoDup (Map_keys (managedRecords h));
  wf_pending : NoDup (Map_keys (deletePendingRecords h));
  wf_handles : NoDup (map handle (timers h));
  wf_fresh : forall t, In t (timers h) -> handle t < nextTimer h
}.

(** ** Hostnames *)

(** The two halves that [createDNSRecordsForContainer] computes from [host]. *)
Definition subdomain_of (host : string) : string :=
  JS.join "." (JS.slice_but_last 2 (JS.split "."%char host)).

Definition domain_of (host : string) : string :=
  JS.join "." (JS.slice_last 2 (JS.split "."%char host)).

(** The hosts that pass the two tests of [createDNSRecordsForContainer]: at
    least two labels, and a subdomain that is not empty. *)
Definition valid_host (host : string) : bool :=
  negb (Nat.ltb (List.length (JS.split "."%char host)) 2)
  && JS.truthy (subdomain_of host).

(** The world that [p] leaves when it runs from [w]. *)
Definition after {A} (out : Outside) (p : Prog A) (w : World) : World :=
  snd (run out p w).

(** The request that [createDNSRecordsForContainer] sends for [host], with
    the outcome [r]. *)
Definition create_for (config : Config) (host : string) (r : Result string) : Event :=
  EvCreate (domain_of host) (subdomain_of host) (JS.or_ (targetDomain config) host) 3600 r.

(** The warning logged for a host that fails one of the two tests. *)
Definition warning_for (host : string) : Event :=
  EvLog WARN
    (if Nat.ltb (List.length (JS.split "."%char host)) 2
     then "Invalid hostname format: " ++ host
     else "No subdomain found for host: " ++ host).

(** ** The tick, step by step *)

(** [containerInfo.Id.substring(0, 12)] *)
Definition short_id (containerInfo : ContainerInfo) : string :=
  String.substring 0 12 (info_Id containerInfo).

Definition is_running (containerInfo : ContainerInfo) : bool :=
  String.eqb (info_State containerInfo) "running".

(** The set [runningContainerIds] once the first loop of [monitorContainers]
    has gone through [containers], starting from [acc]. *)
Definition running_ids (acc : list string) (containers : list ContainerInfo) : list string :=
  fold_left
    (fun acc containerInfo =>
       if is_running containerInfo then JS.Set_add (short_id containerInfo) acc else acc)
    containers acc.

(** [hasRecords] in [monitorContainers]. *)
Definition has_records (cid : string) (h : Heap) : bool :=
  existsb (fun key => JS.startsWith key cid) (Map_keys (managedRecords h)).

(** The cancellation in [monitorContainers] of the pending deletion of a
    running container. *)
Definition cancel_pending (cid : string) (w : World) : World :=
  {| heap := with_deletePendingRecords (Map_delete cid)
               (match Map_get cid (deletePendingRecords (heap w)) with
                | Some t => disarm t (heap w)
                | None => heap w
                end);
     trace := trace w ++ [EvLog INFO "Cancelled scheduled deletion for restarted container"] |}.

(** Whether [createDNSRecordsForContainer] sends a request for the container
    [id]: its inspection succeeds, its labels enable the proxy, and the
    parser finds a valid host in them. *)
Definition wants_records (out : Outside) (id : string) : bool :=
  match docker_inspect out id with
  | Resolved info =>
      let labels := labels_or_empty (Config_Labels info) in
      JS.strict_eq (label labels "traefik.enable") "true"
      && existsb valid_host (extractTraefikHosts labels)
  | Rejected _ => false
  end.

(** The hosts for which [createDNSRecordsForContainer] sends a request for
    the container [id], in order: the valid hosts of its labels when its
    inspection succeeds and its labels enable the proxy. *)
Definition requested (out : Outside) (id : string) : list string :=
  match docker_inspect out id with
  | Resolved info =>
      let labels := labels_or_empty (Config_Labels info) in
      if JS.strict_eq (label labels "traefik.enable") "true"
      then filter valid_host (extractTraefikHosts labels)
      else []
  | Rejected _ => []
  end.

(** The part of the heap that creating records leaves alone. *)
Definition same_timers (h h' : Heap) : Prop :=
  deletePendingRecords h' = deletePendingRecords h
  /\ timers h' = timers h
  /\ nextTimer h' = nextTimer h.

(** The runtime answers an inspection with the container that was asked for. *)
Definition inspect_consistent (out : Outside) : Prop :=
  forall id info, docker_inspect out id = Resolved info -> Id info = id.

(** A running container for which a tick has nothing to create: it owns a
    record already, or no request would be sent for it. *)
Definition settled (out : Outside) (h : Heap) (containerInfo : ContainerInfo) : Prop :=
  has_records (short_id containerInfo) h = true
  \/ wants_records out (info_Id containerInfo) = false.

(** ** Firing a deletion *)

(** The records that the deletion callback of [cid] collects. *)
Definition owned_by (cid : string) (kr : string * ManagedRecord) : bool :=
  String.eqb (containerId (snd kr)) cid.

(** The request for the deletion of a record, with its outcome. *)
Definition delete_of (kr_r : (string * ManagedRecord) * Result unit) : Event :=
  EvDelete (domain (snd (fst kr_r))) (recordId (snd (fst kr_r))) (snd kr_r).

Definition succeeded (r : Result unit) : bool :=
  match r with Resolved _ => true | Rejected _ => false end.

(** ** Runs as executions of the event loop *)

(** The process after the first turn of a task that runs alone. *)
Definition alone (x : World * option (Prog unit)) : Process :=
  {| p_heap := heap (fst x);
     p_trace := trace (fst x);
     p_tasks := match snd x with Some q => [q] | None => [] end |}.

(** ** Timers and the table of pending deletions *)

(** The timer that would run if the handle [t] fired now. *)
Definition armed (t : nat) (h : Heap) : option Timer :=
  find (fun x => Nat.eqb (handle x) t) (timers h).

(** Each armed timer is the one that the table of pending deletions names
    for its container. *)
Definition registered (h : Heap) : Prop :=
  forall x, In x (timers h) ->
            Map_get (owner x) (deletePendingRecords h) = Some (handle x).

(** The deletion callback of [containerId] from the point where it has
    collected [recordsToDelete]. *)
Definition callback_task (containerId : string)
    (recordsToDelete : list (string * ManagedRecord)) : Prog unit :=
  try_catch
    (for_each recordsToDelete deleteManagedRecord ;;
     modify (with_deletePendingRecords (Map_delete containerId)))
    (fun error => log_error "Error during scheduled record deletion").

(** The action resumes a stale callback: a deletion callback that waits for
    the registrar, of a container for which the table names a timer that is
    armed.  The timer of the callback itself was spent when it fired, so the
    one named was armed after it. *)
Definition stale (s : Process) (a : Action) : Prop :=
  match a with
  | Resume i _ =>
      exists cid kr rest t,
        nth_error (p_tasks s) i = Some (callback_task cid (kr :: rest))
        /\ Map_get cid (deletePendingRecords (p_heap s)) = Some t
        /\ armed t (p_heap s) <> None
  | _ => False
  end.

(** No action of [acts], taken from [s] on, resumes a stale callback. *)
Fixpoint no_stale (config : Config) (s : Process) (acts : list Action) : Prop :=
  match acts with
  | [] => True
  | a :: rest =>
      ~ stale s a
      /\ match turn config s a with
         | Some s' => no_stale config s' rest
         | None => True
         end
  end.

(** [keeps G p h]: when [p] runs from the heap [h], and from any heap with
    [G] after each of its awaits, the heap has [G] at each await and at the
    end. *)
Fixpoint keeps {A} (G : Heap -> Prop) (p : Prog A) (h : Heap) : Prop :=
  match p with
  | Ret _ => G h
  | Throw _ => G h
  | Get k => keeps G (k h) h
  | Modify f k => keeps G k (f h)
  | Emit _ k => keeps G k h
  | AwaitList k => G h /\ forall r h', G h' -> keeps G (k r) h'
  | AwaitInspect _ k => G h /\ forall r h', G h' -> keeps G (k r) h'
  | AwaitPost _ _ _ _ k => G h /\ forall r h', G h' -> keeps G (k r) h'
  | AwaitDelete _ _ k => G h /\ forall r h', G h' -> keeps G (k r) h'
  end.

(** ** Plain hostnames *)

(** Whether the character [c] occurs in [s]. *)
Fixpoint occurs (c : ascii) (s : string) : bool :=
  match s with
  | EmptyString => false
  | String a s' => Ascii.eqb a c || occurs c s'
  end.

(** A hostname as one writes it in a rule: not empty, and free of the
    characters that the two patterns and the quote stripping look for (the
    closing parenthesis, the backtick, the single and the double quote). *)
Definition plain_host (h : string) : bool :=
  JS.truthy h
  && negb (occurs ")"%char h)
  && negb (occurs "`"%char h)
  && negb (occurs "'"%char h)
  && negb (occurs "034"%char h).

(** The single quote character as a string. *)
Definition sq : string := String "'"%char EmptyString.

(** ** Programs that handle their errors *)

(** [NoThrow p]: no path through [p] ends in a rejection. *)
Inductive NoThrow {A} : Prog A -> Prop :=
| NoThrow_Ret a : NoThrow (Ret a)
| NoThrow_Get k : (forall h, NoThrow (k h)) -> NoThrow (Get k)
| NoThrow_Modify f k : NoThrow k -> NoThrow (Modify f k)
| NoThrow_Emit e k : NoThrow k -> NoThrow (Emit e k)
| NoThrow_AwaitList k : (forall r, NoThrow (k r)) -> NoThrow (AwaitList k)
| NoThrow_AwaitInspect id k : (forall r, NoThrow (k r)) -> NoThrow (AwaitInspect id k)
| NoThrow_AwaitPost d n t ttl k : (forall r, NoThrow (k r)) -> NoThrow (AwaitPost d n t ttl k)
| NoThrow_AwaitDelete d i k : (forall r, NoThrow (k r)) -> NoThrow (AwaitDelete d i k).

(** ** Records of a container *)

(** [recordKey] in [createDNSRecordsForContainer], and the value stored under
    it once the registrar has answered with [recordId]. *)
Definition recordKey (containerId host : string) : string :=
  (containerId ++ "-" ++ host)%string.

Definition stored_record (containerId host recordId : string) : ManagedRecord :=
  {| recordId := recordId;
     hostname := host;
     domain := domain_of host;
     subdomain := subdomain_of host;
     containerId := containerId |}.

(** What the loop over the hosts of a container leaves in [managedRecords]
    for one host and the outcome of its request. *)
Definition store_result (containerId : string) (m : JSMap ManagedRecord)
    (hr : string * Result string) : JSMap ManagedRecord :=
  match snd hr with
  | Resolved recordId =>
      Map_set (recordKey containerId (fst hr)) (stored_record containerId (fst hr) recordId) m
  | Rejected _ => m
  end.

(** The request sent for a host, with its outcome. *)
Definition create_of (config : Config) (hr : string * Result string) : Event :=
  create_for config (fst hr) (snd hr).

(** ** Timers *)

(** The timer that [scheduleRecordDeletion(containerId)] arms when
    [setTimeout] returns the handle [t]. *)
Definition deletion_timer (config : Config) (containerId : string) (t : nat) : Timer :=
  {| handle := t;
     delay := timeout_after (JS.times (deleteDelay config) 1000);
     owner := containerId |}.

(** The deletion of the records of [containerId] is scheduled: the table of
    pending deletions holds a handle for it, the timer that would run for
    that handle is the one that [scheduleRecordDeletion] arms, and the handle
    was handed out when [since] handles had been. *)
Definition deletion_scheduled (config : Config) (containerId : string) (since : nat)
    (h : Heap) : Prop :=
  exists t,
    Map_get containerId (deletePendingRecords h) = Some t
    /\ armed t h = Some (deletion_timer config containerId t)
    /\ since <= t.

(** ** The shape of the state *)

(** An entry of [managedRecords] as [createDNSRecordsForContainer] stores
    it: under the key of its container and host, with the two halves of a
    host that passed the two tests. *)
Definition well_keyed (kr : string * ManagedRecord) : Prop :=
  fst kr = recordKey (containerId (snd kr)) (hostname (snd kr))
  /\ snd kr = stored_record (containerId (snd kr)) (hostname (snd kr)) (recordId (snd kr))
  /\ valid_host (hostname (snd kr)) = true.

(** The updates of the heap, with what the engine passes to them: records
    are stored well keyed, and timers asked for with the configured delay. *)
Inductive EngineOp (config : Config) : (Heap -> Heap) -> Prop :=
| eop_store k v : well_keyed (k, v) -> EngineOp config (with_managedRecords (Map_set k v))
| eop_managed_delete k : EngineOp config (with_managedRecords (Map_delete k))
| eop_pending_set k t : EngineOp config (with_deletePendingRecords (Map_set k t))
| eop_pending_delete k : EngineOp config (with_deletePendingRecords (Map_delete k))
| eop_arm cid : EngineOp config (arm (JS.times (deleteDelay config) 1000) cid)
| eop_disarm t : EngineOp config (disarm t).

(** The events of the engine: a request for a record is the one of a valid
    host. *)
Definition engine_event (config : Config) (e : Event) : Prop :=
  match e with
  | EvCreate _ _ _ _ r => exists host, valid_host host = true /\ e = create_for config host r
  | _ => True
  end.

(** What holds of the heap between any two turns. *)
Definition heap_shape (config : Config) (h : Heap) : Prop :=
  Forall well_keyed (managedRecords h)
  /\ Forall (fun x => delay x = timeout_after (JS.times (deleteDelay config) 1000)) (timers h).

(** ** The listing of containers *)

(** An element of [traefikContainers] in the handler of
    [GET /api/containers].  Its fields [name] and [status] copy
    [containerInfo.Names[0]] and [containerInfo.Status], two fields of the
    listing that [ContainerInfo] does not carry; they are left out here. *)
Record ContainerSummary := {
  summary_id : string;
  summary_state : string;
  summary_hosts : list string;
  summary_labels : Labels
}.

(** The object pushed for [containerInfo] and the labels of its inspection. *)
Definition container_summary (containerInfo : ContainerInfo) (labels : Labels)
  : ContainerSummary :=
  {| summary_id := String.substring 0 12 (info_Id containerInfo);
     summary_state := info_State containerInfo;
     summary_hosts := extractTraefikHosts labels;
     summary_labels := filter (fun kv => JS.startsWith (fst kv) "traefik.") labels |}.

(** What the handler answers: [res.json({ containers })], or
    [res.status(500).json({ error })]. *)
Inductive ContainersAnswer :=
| ContainersBody (containers : list ContainerSummary)
| ContainersError (error : string).

(** The body of the loop over the listing; the local array
    [traefikContainers] is passed along. *)
Definition summarize (traefikContainers : list ContainerSummary) (containerInfo : ContainerInfo)
  : Prog (list ContainerSummary) :=
  details <- AwaitInspect (info_Id containerInfo) settle ;;
  let labels := labels_or_empty (Config_Labels details) in
  if JS.strict_eq (label labels "traefik.enable") "true"
  then Ret (traefikContainers ++ [container_summary containerInfo labels])
  else Ret traefikContainers.

(** The handler of [GET /api/containers]; its value is the status and the
    body of the answer it sends. *)
Definition api_containers : Prog (Z * ContainersAnswer) :=
  try_catch
    (containers <- AwaitList settle ;;
     traefikContainers <- for_each_with containers [] summarize ;;
     Ret (200%Z, ContainersBody traefikContainers))
    (fun error =>
       log_error "Failed to list containers" ;;
       Ret (500%Z, ContainersError error)).

(** Whether the labels of an inspection enable the proxy. *)
Definition enabled (details : InspectInfo) : bool :=
  JS.strict_eq (label (labels_or_empty (Config_Labels details)) "traefik.enable") "true".

(** * Properties *)

(** ** Running programs *)

Section RunLemmas.

Variable out : Outside.

Lemma run_bind {A B} (p : Prog A) (f : A -> Prog B) (w : World) :
  run out (bind p f) w =
  match run out p w with
  | (Resolved a, w') => run out (f a) w'
  | (Rejected e, w') => (Rejected e, w')
  end.
Proof.
  revert w; induction p; intros w; cbn; auto.
Qed.

Lemma run_try_catch {A} (p : Prog A) (handler : string -> Prog A) (w : World) :
  run out (try_catch p handler) w =
  match run out p w with
  | (Resolved a, w') => (Resolved a, w')
  | (Rejected e, w') => run out (handler e) w'
  end.
Proof.
  revert w; induction p; intros w; cbn; auto.
Qed.

(** A loop whose body never throws is a fold over the worlds. *)
Lemma run_for_each {X} (xs : list X) (body : X -> Prog unit) (w : World) :
  (forall x w', fst (run out (body x) w') = Resolved tt) ->
  run out (for_each xs body) w
  = (Resolved tt, fold_left (fun w' x => after out (body x) w') xs w).
Proof.
  intros Hbody. revert w. induction xs as [|x xs IH]; intros w; cbn [for_each fold_left].
  - reflexivity.
  - rewrite run_bind. specialize (Hbody x w). unfold after at 2.
    destruct (run out (body x) w) as [r w']. cbn in Hbody. subst r. apply IH.
Qed.

End RunLemmas.

Ltac world_simpl := unfold observe, on_heap; cbn [heap trace].

Ltac run_simpl :=
  cbn [run bind try_catch settle get modify log_info log_warn log_error respond
       clearTimeout setTimeout observe on_heap heap trace fst snd].

(** ** Label parser *)

Lemma enable_key_is_no_router_rule : is_router_rule "traefik.enable" = false.
Proof. vm_compute. reflexivity. Qed.

Lemma extractTraefikHosts_one_rule (key value : string) :
  is_router_rule key = true ->
  extractTraefikHosts (enabled_with key value) = JS.Set_of (hosts_of_rule value).
Proof.
  intros Hkey. unfold extractTraefikHosts, enabled_with.
  cbn [flat_map fst snd]. rewrite enable_key_is_no_router_rule, Hkey.
  cbn [app]. now rewrite app_nil_r.
Qed.

(** C3.  With the enablement label and one router rule, the double-quoted
    and the bare form of [Host(a.b.com)] give exactly [a.b.com], but the
    backtick form gives two tokens: [a.b.com], and the same name still
    wrapped in its backticks, which the second pattern picks up and whose
    quote stripping leaves backticks alone. *)
Theorem C3_quoting_styles (key : string) :
  is_router_rule key = true ->
  extractTraefikHosts (enabled_with key "Host(`a.b.com`)") = ["a.b.com"; "`a.b.com`"]
  /\ extractTraefikHosts (enabled_with key ("Host(" ++ dq ++ "a.b.com" ++ dq ++ ")")) = ["a.b.com"]
  /\ extractTraefikHosts (enabled_with key "Host(a.b.com)") = ["a.b.com"].
Proof.
  intros Hkey. rewrite !extractTraefikHosts_one_rule by exact Hkey.
  repeat split; vm_compute; reflexivity.
Qed.

Lemma C3_quoting_styles_witness :
  extractTraefikHosts (enabled_with router_key "Host(`a.b.com`)") = ["a.b.com"; "`a.b.com`"]
  /\ extractTraefikHosts (enabled_with router_key ("Host(" ++ dq ++ "a.b.com" ++ dq ++ ")")) = ["a.b.com"]
  /\ extractTraefikHosts (enabled_with router_key "Host(a.b.com)") = ["a.b.com"].
Proof. apply (C3_quoting_styles router_key). vm_compute. reflexivity. Defined.

(** ** Footprints of programs *)

Section WithinLemmas.

Context {ops : (Heap -> Heap) -> Prop} {evs : Event -> Prop}.

Lemma Within_bind {A B} (p : Prog A) (f : A -> Prog B) :
  Within ops evs p -> (forall a, Within ops evs (f a)) -> Within ops evs (bind p f).
Proof.
  intros Hp Hf. induction Hp; cbn; try (constructor; auto); auto.
Qed.

Lemma Within_try_catch {A} (p : Prog A) (handler : string -> Prog A) :
  Within ops evs p -> (forall e, Within ops evs (handler e)) ->
  Within ops evs (try_catch p handler).
Proof.
  intros Hp Hh. induction Hp; cbn; try (constructor; auto); auto.
Qed.

Lemma Within_for_each {X} (xs : list X) (body : X -> Prog unit) :
  (forall x, Within ops evs (body x)) -> Within ops evs (for_each xs body).
Proof.
  intros Hb. induction xs as [|x xs IH]; cbn.
  - constructor.
  - apply Within_bind; auto.
Qed.

Lemma Within_for_each_with {X S} (xs : list X) (acc : S) (body : S -> X -> Prog S) :
  (forall a x, Within ops evs (body a x)) -> Within ops evs (for_each_with xs acc body).
Proof.
  intros Hb. revert acc. induction xs as [|x xs IH]; intros acc; cbn.
  - constructor.
  - apply Within_bind; auto.
Qed.

Lemma Within_settle {A} (r : Result A) : Within ops evs (settle r).
Proof. destruct r; constructor. Qed.

End WithinLemmas.


(** What a run leaves: the heap is reached by updates in [ops], under any
    preorder [R] that they respect, and the trace grows by events in [evs]. *)
Lemma Within_run {A} (ops : (Heap -> Heap) -> Prop) (evs : Event -> Prop)
    (R : Heap -> Heap -> Prop) (out : Outside) (p : Prog A) :
  Within ops evs p ->
  (forall h, R h h) ->
  (forall h1 h2 h3, R h1 h2 -> R h2 h3 -> R h1 h3) ->
  (forall f h, ops f -> R h (f h)) ->
  forall w,
    R (heap w) (heap (snd (run out p w)))
    /\ exists new, trace (snd (run out p w)) = trace w ++ new /\ Forall evs new.
Proof.
  intros Hp Hrefl Htrans Hstep.
  induction Hp; intros w; cbn [run];
    try (split; [apply Hrefl | exists []; split; [now rewrite app_nil_r | constructor]]);
    auto.
  - destruct (IHHp (on_heap f w)) as [HR Htr]. split; [| exact Htr].
    eapply Htrans; [| exact HR]. now apply Hstep.
  - destruct (IHHp (observe e w)) as [HR [new [Htr Hnew]]]. split; [exact HR |].
    exists (e :: new). split; [| now constructor].
    rewrite Htr. cbn. now rewrite <- app_assoc.
  - set (r := registrar_post out (trace w) d n t ttl).
    destruct (H1 r (observe (EvCreate d n t ttl r) w)) as [HR [new [Htr Hnew]]].
    split; [exact HR |].
    exists (EvCreate d n t ttl r :: new). split; [| constructor; auto].
    rewrite Htr. cbn. now rewrite <- app_assoc.
  - set (r := registrar_delete out (trace w) d i).
    destruct (H1 r (observe (EvDelete d i r) w)) as [HR [new [Htr Hnew]]].
    split; [exact HR |].
    exists (EvDelete d i r :: new). split; [| constructor; auto].
    rewrite Htr. cbn. now rewrite <- app_assoc.
Qed.

Create HintDb within.

Ltac within_step :=
  match goal with
  | |- Within _ _ _ => solve [auto with within]
  | |- Within _ _ (bind _ _) => apply Within_bind; [| intros]
  | |- Within _ _ (try_catch _ _) => apply Within_try_catch; [| intros]
  | |- Within _ _ (for_each _ _) => apply Within_for_each; intros
  | |- Within _ _ (for_each_with _ _ _) => apply Within_for_each_with; intros
  | |- Within _ _ (settle _) => apply Within_settle
  | |- Within _ _ (clearTimeout ?t) => destruct t; unfold clearTimeout
  | |- Within _ _ (if ?b then _ else _) => destruct b
  | |- Within _ _ _ => constructor; intros
  end.

Ltac within := repeat (cbv zeta; within_step); auto.

Section Footprints.

Variable config : Config.
Variable ops : (Heap -> Heap) -> Prop.
Variable evs : Event -> Prop.
Hypothesis logs : forall l m, evs (EvLog l m).

Lemma Within_createCNAMERecord (d n t : string) (ttl : Z) :
  (forall r, evs (EvCreate d n t ttl r)) ->
  Within ops evs (SimplyAPI.createCNAMERecord d n t ttl).
Proof. intros. unfold SimplyAPI.createCNAMERecord. within. Qed.
#[local] Hint Resolve Within_createCNAMERecord : within.

Lemma Within_deleteRecord (d i : string) :
  (forall r, evs (EvDelete d i r)) ->
  Within ops evs (SimplyAPI.deleteRecord d i).
Proof. intros. unfold SimplyAPI.deleteRecord. within. Qed.
#[local] Hint Resolve Within_deleteRecord : within.

Lemma Within_createDNSRecordForHost (cid host : string) :
  (forall k v, ops (with_managedRecords (Map_set k v))) ->
  (forall d n t ttl r, evs (EvCreate d n t ttl r)) ->
  Within ops evs (createDNSRecordForHost config cid host).
Proof.
  intros. unfold createDNSRecordForHost. within.
Qed.
#[local] Hint Resolve Within_createDNSRecordForHost : within.

Lemma Within_createDNSRecordsForContainer (id : string) :
  (forall k v, ops (with_managedRecords (Map_set k v))) ->
  (forall d n t ttl r, evs (EvCreate d n t ttl r)) ->
  Within ops evs (createDNSRecordsForContainer config id).
Proof.
  intros. unfold createDNSRecordsForContainer. within.
Qed.
#[local] Hint Resolve Within_createDNSRecordsForContainer : within.

Lemma Within_deleteManagedRecord (kr : string * ManagedRecord) :
  (forall k, ops (with_managedRecords (Map_delete k))) ->
  (forall d i r, evs (EvDelete d i r)) ->
  Within ops evs (deleteManagedRecord kr).
Proof.
  intros. unfold deleteManagedRecord. within.
Qed.
#[local] Hint Resolve Within_deleteManagedRecord : within.

Lemma Within_deletionCallback (cid : string) :
  (forall k, ops (with_managedRecords (Map_delete k))) ->
  (forall k, ops (with_deletePendingRecords (Map_delete k))) ->
  (forall d i r, evs (EvDelete d i r)) ->
  Within ops evs (deletionCallback cid).
Proof.
  intros. unfold deletionCallback. within.
Qed.

Lemma Within_scheduleRecordDeletion (cid : string) :
  (forall t, ops (disarm t)) ->
  (forall ms c, ops (arm ms c)) ->
  (forall k t, ops (with_deletePendingRecords (Map_set k t))) ->
  Within ops evs (scheduleRecordDeletion config cid).
Proof.
  intros. unfold scheduleRecordDeletion, setTimeout. within.
Qed.
#[local] Hint Resolve Within_scheduleRecordDeletion : within.

Lemma Within_monitorContainers :
  (forall k v, ops (with_managedRecords (Map_set k v))) ->
  (forall k, ops (with_deletePendingRecords (Map_delete k))) ->
  (forall t, ops (disarm t)) ->
  (forall ms c, ops (arm ms c)) ->
  (forall k t, ops (with_deletePendingRecords (Map_set k t))) ->
  (forall d n t ttl r, evs (EvCreate d n t ttl r)) ->
  Within ops evs (monitorContainers config).
Proof.
  intros. unfold monitorContainers, monitorContainer, scheduleIfStopped. within.
Qed.

End Footprints.

(** ** Maps *)

Section MapLemmas.

Context {V : Type}.
Implicit Types (m : JSMap V) (k : string) (v : V).

Lemma Map_has_In k m : Map_has k m = true <-> In k (Map_keys m).
Proof.
  unfold Map_has, Map_keys. rewrite existsb_exists, in_map_iff. split.
  - intros [kv [Hin Heq]]. apply String.eqb_eq in Heq. eauto.
  - intros [kv [Heq Hin]]. exists kv. split; [exact Hin |]. now apply String.eqb_eq.
Qed.

Lemma Map_has_delete k k' m :
  Map_has k (Map_delete k' m) = negb (String.eqb k k') && Map_has k m.
Proof.
  unfold Map_has, Map_delete. induction m as [|[a b] m IH]; cbn.
  - now rewrite andb_false_r.
  - destruct (String.eqb_spec a k') as [->|Hne]; cbn.
    + rewrite IH. rewrite (String.eqb_sym k' k).
      destruct (String.eqb k k'); reflexivity.
    + rewrite IH. destruct (String.eqb_spec a k) as [->|Hne'].
      * destruct (String.eqb_spec k k'); [contradiction | reflexivity].
      * reflexivity.
Qed.

Lemma Map_has_delete_same k m : Map_has k (Map_delete k m) = false.
Proof. now rewrite Map_has_delete, String.eqb_refl. Qed.


Lemma Map_has_set k k' v m :
  Map_has k (Map_set k' v m) = String.eqb k k' || Map_has k m.
Proof.
  unfold Map_has. induction m as [|[a b] m IH]; cbn.
  - rewrite (String.eqb_sym k' k). reflexivity.
  - destruct (String.eqb_spec a k') as [->|Hne]; cbn.
    + rewrite (String.eqb_sym k' k). destruct (String.eqb k k'); reflexivity.
    + rewrite IH. destruct (String.eqb a k), (String.eqb k k'); reflexivity.
Qed.

Lemma Map_set_keys k v m : incl (Map_keys m) (Map_keys (Map_set k v m)).
Proof.
  intros x Hx. apply Map_has_In. rewrite Map_has_set.
  apply Map_has_In in Hx. rewrite Hx. apply orb_true_r.
Qed.

Lemma Map_set_In k v m kv : In kv (Map_set k v m) -> kv = (k, v) \/ In kv m.
Proof.
  induction m as [|[a b] m IH]; cbn.
  - intros [<-|[]]. now left.
  - destruct (String.eqb a k); cbn.
    + intros [<-|H]; auto.
    + intros [<-|H]; auto. destruct (IH H); auto.
Qed.


Lemma Map_set_NoDup k v m : NoDup (Map_keys m) -> NoDup (Map_keys (Map_set k v m)).
Proof.
  unfold Map_keys. induction m as [|[a b] m IH]; cbn; intros Hnd.
  - repeat constructor. intros [].
  - inversion Hnd as [|? ? Hnotin Hnd']; subst.
    destruct (String.eqb_spec a k) as [->|Hne]; cbn.
    + now constructor.
    + constructor; [| now apply IH].
      intros Hin. apply Map_has_In in Hin. rewrite Map_has_set in Hin.
      apply orb_prop in Hin as [Hin|Hin].
      * apply String.eqb_eq in Hin. contradiction.
      * apply Map_has_In in Hin. contradiction.
Qed.

Lemma Map_delete_NoDup k m : NoDup (Map_keys m) -> NoDup (Map_keys (Map_delete k m)).
Proof.
  unfold Map_keys, Map_delete. induction m as [|[a b] m IH]; cbn; intros Hnd.
  - constructor.
  - inversion Hnd as [|? ? Hnotin Hnd']; subst.
    destruct (negb (String.eqb a k)); cbn; [| now apply IH].
    constructor; [| now apply IH].
    intros Hin. apply Hnotin. apply in_map_iff in Hin as [kv [Heq Hin]].
    apply filter_In in Hin as [Hin _]. apply in_map_iff. eauto.
Qed.

End MapLemmas.

Lemma prefix_append (a b : string) : String.prefix a (a ++ b) = true.
Proof.
  induction a as [|c a IH]; cbn.
  - now destruct b.
  - destruct (Ascii.ascii_dec c c) as [_|Hne]; [exact IH | now contradiction Hne].
Qed.

(** ** Traces only grow *)

Lemma Within_top {A} (p : Prog A) : Within (fun _ => True) (fun _ => True) p.
Proof. induction p; constructor; auto. Qed.

Lemma after_extends {A} (out : Outside) (p : Prog A) (w : World) :
  exists new, trace (after out p w) = trace w ++ new.
Proof.
  destruct (Within_run (fun _ => True) (fun _ => True) (fun _ _ => True) out p
              (Within_top p)) with (w := w) as [_ [new [Htr _]]]; auto.
  now exists new.
Qed.

Lemma fold_extends {X} (step : World -> X -> World) (xs : list X) (w : World) :
  (forall w' x, exists new, trace (step w' x) = trace w' ++ new) ->
  exists new, trace (fold_left step xs w) = trace w ++ new.
Proof.
  intros Hstep. revert w. induction xs as [|x xs IH]; intros w; cbn.
  - exists []. now rewrite app_nil_r.
  - destruct (IH (step w x)) as [new2 Htr2]. destruct (Hstep w x) as [new1 Htr1].
    exists (new1 ++ new2). now rewrite Htr2, Htr1, app_assoc.
Qed.

Lemma failed_create_persists (tr new : list Event) :
  existsb is_failed_create (tr ++ new) = false ->
  existsb is_failed_create tr = false.
Proof.
  rewrite existsb_app. intros H. now apply orb_false_elim in H.
Qed.

(** ** The patterns *)

Lemma strip_prefix_append (p s : string) : strip_prefix p (p ++ s) = Some s.
Proof.
  induction p as [|c p IH]; cbn; [reflexivity |]. now rewrite Ascii.eqb_refl.
Qed.

Lemma strip_prefix_self (p : string) : strip_prefix p p = Some EmptyString.
Proof.
  induction p as [|c p IH]; cbn; [reflexivity |]. now rewrite Ascii.eqb_refl.
Qed.

Lemma span_not_run (c : ascii) (s run rest : string) :
  span_not c s = (run, rest) ->
  forall tail, span_not c (run ++ String c tail) = (run, String c tail).
Proof.
  revert run rest. induction s as [|a s IH]; cbn; intros run rest E tail.
  - injection E as <- <-. cbn. now rewrite Ascii.eqb_refl.
  - destruct (Ascii.eqb a c) eqn:Ha.
    + injection E as <- <-. cbn. now rewrite Ascii.eqb_refl.
    + destruct (span_not c s) as [run' rest'] eqn:Hs. injection E as <- <-.
      cbn. rewrite Ha. now rewrite (IH run' rest' eq_refl tail).
Qed.

(** A matched text, searched again with the same pattern, matches as a whole
    and gives the same group: [match.match(re)] is never [null] there. *)
Lemma match_at_matched_text (re : HostRegex) (s group rest tail : string) :
  re_close re = String (re_stop re) tail ->
  match_at re s = Some (group, rest) ->
  match_at re (matched_text re group) = Some (group, EmptyString).
Proof.
  intros Hclose. unfold match_at, matched_text.
  destruct (strip_prefix (re_open re) s) as [r|]; [| discriminate].
  destruct (span_not (re_stop re) r) as [g r'] eqn:Hspan.
  destruct g as [|a g]; [discriminate |].
  destruct (strip_prefix (re_close re) r') as [r''|]; [| discriminate].
  intros E. injection E as <- <-.
  rewrite strip_prefix_append, Hclose.
  rewrite (span_not_run _ _ _ _ Hspan tail).
  now rewrite strip_prefix_self.
Qed.

Lemma match_all_from_group1 (re : HostRegex) (tail : string) (s : string) (skip : nat)
    (m : string) :
  re_close re = String (re_stop re) tail ->
  In m (match_all_from re skip s) ->
  exists group, m = matched_text re group /\ exec re m = Some (m, group).
Proof.
  intros Hclose. revert skip. induction s as [|c s IH]; intros skip; cbn [match_all_from].
  - intros [].
  - destruct skip as [|k]; [| apply IH].
    destruct (match_at re (String c s)) as [[group rest]|] eqn:Hm; [| apply IH].
    intros [<-|Hin]; [| eapply IH; eauto].
    exists group. split; [reflexivity |].
    pose proof (match_at_matched_text re _ _ _ tail Hclose Hm) as Hre.
    destruct (matched_text re group) eqn:Ht; cbn [exec]; rewrite Hre, Ht; reflexivity.
Qed.

Lemma group1_of_match (re : HostRegex) (tail s m : string) :
  re_close re = String (re_stop re) tail ->
  In m (match_all re s) ->
  m = matched_text re (group1 re m).
Proof.
  intros Hclose Hin.
  destruct (match_all_from_group1 re tail s 0 m Hclose Hin) as [group [Hm He]].
  unfold group1. now rewrite He.
Qed.

Lemma extractTraefikHosts_ignores_flag (value : string) (labels : Labels) :
  extractTraefikHosts (("traefik.enable", value) :: labels) = extractTraefikHosts labels.
Proof.
  unfold extractTraefikHosts. cbn [flat_map fst snd].
  now rewrite enable_key_is_no_router_rule.
Qed.

(** C4, as stated, fails: the parser returns the hosts of a label map that
    has no enablement label. *)
Lemma C4_counterexample :
  ~ (forall labels : Labels,
       label labels "traefik.enable" <> Some "true" ->
       extractTraefikHosts labels = []).
Proof.
  intros H. specialize (H labels_without_flag).
  assert (Hne : label labels_without_flag "traefik.enable" <> Some "true")
    by (vm_compute; discriminate).
  apply H in Hne. vm_compute in Hne. discriminate.
Qed.

(** C4, amended.  The gate is in [createDNSRecordsForContainer]: when the
    enablement label of the inspected container is absent or is not exactly
    [true], it returns at once, with no request to the registrar, no line
    logged and the heap as it was.  [extractTraefikHosts] does not read
    the enablement label: its result is the same whatever the value. *)
Theorem C4_enablement_gate (config : Config) (out : Outside) :
  (forall (id : string) (info : InspectInfo) (w : World),
      docker_inspect out id = Resolved info ->
      label (labels_or_empty (Config_Labels info)) "traefik.enable" <> Some "true" ->
      run out (createDNSRecordsForContainer config id) w = (Resolved tt, w))
  /\ (forall (value : string) (labels : Labels),
        extractTraefikHosts (("traefik.enable", value) :: labels)
        = extractTraefikHosts labels).
Proof.
  split; [| apply extractTraefikHosts_ignores_flag].
  intros id info w Hinspect Hflag.
  unfold createDNSRecordsForContainer. cbn. rewrite Hinspect. cbn.
  destruct (label (labels_or_empty (Config_Labels info)) "traefik.enable") as [v|] eqn:Hl;
    cbn; [| reflexivity].
  destruct (String.eqb_spec v "true") as [->|Hne]; cbn; [| reflexivity].
  now contradiction Hflag.
Qed.

Lemma C4_enablement_gate_witness :
  run (example_outside (Resolved [example_container]) labels_without_flag
         (Resolved "1") (Resolved tt))
      (createDNSRecordsForContainer example_config example_id)
      {| heap := initial; trace := [] |}
  = (Resolved tt, {| heap := initial; trace := [] |}).
Proof.
  apply (proj1 (C4_enablement_gate example_config
                  (example_outside (Resolved [example_container]) labels_without_flag
                     (Resolved "1") (Resolved tt)))
           example_id {| Id := example_id; Config_Labels := Some labels_without_flag |}).
  - reflexivity.
  - vm_compute. discriminate.
Defined.

(** ** HTTP handlers *)

Lemma truthy_and (a b : string) :
  JS.truthy (JS.and_ a b) = true <-> a <> EmptyString /\ b <> EmptyString.
Proof.
  unfold JS.and_. destruct a as [|c a]; cbn.
  - split; [discriminate | intros [H _]; now contradiction H].
  - destruct b; cbn; split; try discriminate; intuition congruence.
Qed.

(** C10.  Whatever the state of the process (heap, trace, tasks in flight)
    and whatever the time, a health request is answered at once with status
    200 and a body whose [status] is [healthy]; nothing else changes.
    [hasCredentials] is true exactly when the account name and the API key
    are both non-empty. *)
Theorem C10_health_unconditional (config : Config) (s : Process) (now : string) :
  exists hasCredentials : bool,
    turn config s (HealthRequest now)
    = Some {| p_heap := p_heap s;
              p_trace := p_trace s
                         ++ [EvResponse 200
                               (HealthBody "healthy" now (pollInterval config)
                                  (deleteDelay config) hasCredentials)];
              p_tasks := p_tasks s |}
    /\ (hasCredentials = true
        <-> accountName config <> EmptyString /\ apiKey config <> EmptyString).
Proof.
  exists (JS.truthy (JS.and_ (accountName config) (apiKey config))).
  split; [| apply truthy_and].
  cbn. now rewrite app_nil_r.
Qed.

Lemma run_monitorContainers_resolves (config : Config) (out : Outside) (w : World) :
  fst (run out (monitorContainers config) w) = Resolved tt.
Proof.
  unfold monitorContainers. rewrite run_try_catch.
  destruct (run out _ w) as [[[]|e] w']; reflexivity.
Qed.

Lemma filter_none {X} (f : X -> bool) (l : list X) :
  Forall (fun x => f x = false) l -> filter f l = [].
Proof.
  induction 1 as [|x l Hx _ IH]; cbn; [reflexivity |]. now rewrite Hx.
Qed.

(** A tick logs and asks the registrar to create records; it sends no HTTP
    answer and never asks for a deletion. *)
Lemma monitorContainers_events (config : Config) (out : Outside) (w : World) :
  exists new,
    trace (snd (run out (monitorContainers config) w)) = trace w ++ new
    /\ Forall (fun e => is_response e = false /\ is_delete e = false) new.
Proof.
  apply (Within_run (fun _ => True)
           (fun e => is_response e = false /\ is_delete e = false)
           (fun _ _ => True) out (monitorContainers config)); auto.
  apply Within_monitorContainers; cbn; auto.
Qed.

(** C2.  The sync handler answers 200 [Sync completed] in every case:
    [monitorContainers] catches every error itself, so the [catch] of the
    handler is never entered.  When the listing of containers is rejected,
    the tick logs the error and the sync still answers 200. *)
Theorem C2_sync_error_not_surfaced (config : Config) (out : Outside) (now : string) :
  (forall w : World,
      fst (run out (api_sync config now) w) = Resolved tt
      /\ exists new,
           trace (snd (run out (api_sync config now) w)) = trace w ++ new
           /\ responses new = [EvResponse 200 (SyncBody "Sync completed" now)])
  /\ (forall (h : Heap) (msg : string),
        docker_listContainers out = Rejected msg ->
        exec_from out (api_sync config now) h
        = {| heap := h;
             trace := [EvLog INFO "Manual sync triggered";
                       EvLog ERROR "Error monitoring containers";
                       EvResponse 200 (SyncBody "Sync completed" now)] |}).
Proof.
  split.
  - intros w. unfold api_sync. rewrite run_try_catch. cbn [log_info bind run].
    rewrite run_bind.
    set (w0 := observe (EvLog INFO "Manual sync triggered") w).
    pose proof (run_monitorContainers_resolves config out w0) as Hres.
    destruct (monitorContainers_events config out w0) as [new [Htr Hnew]].
    destruct (run out (monitorContainers config) w0) as [r w'].
    cbn in Hres, Htr. subst r. cbn.
    split; [reflexivity |].
    exists ([EvLog INFO "Manual sync triggered"] ++ new
            ++ [EvResponse 200 (SyncBody "Sync completed" now)]).
    split.
    + rewrite Htr. unfold w0. cbn. now rewrite <- !app_assoc.
    + unfold responses. rewrite !filter_app. cbn.
      rewrite filter_none; [reflexivity |].
      eapply Forall_impl; [| exact Hnew]. cbn. tauto.
  - intros h msg Hlist. unfold exec_from, api_sync, monitorContainers.
    cbn. rewrite Hlist. cbn. reflexivity.
Qed.

Lemma C2_sync_error_not_surfaced_witness :
  exec_from (example_outside (Rejected "connect ENOENT /var/run/docker.sock") []
               (Resolved "1") (Resolved tt))
    (api_sync example_config "2025-01-01T00:00:00.000Z") initial
  = {| heap := initial;
       trace := [EvLog INFO "Manual sync triggered";
                 EvLog ERROR "Error monitoring containers";
                 EvResponse 200 (SyncBody "Sync completed" "2025-01-01T00:00:00.000Z")] |}.
Proof.
  apply (proj2 (C2_sync_error_not_surfaced example_config
                  (example_outside (Rejected "connect ENOENT /var/run/docker.sock") []
                     (Resolved "1") (Resolved tt))
                  "2025-01-01T00:00:00.000Z")
           initial "connect ENOENT /var/run/docker.sock").
  reflexivity.
Defined.

(** ** Records for one container *)

Section CreateRecords.

Variable config : Config.
Variable out : Outside.

(** The loop body of [createDNSRecordsForContainer], in full. *)
Lemma run_createDNSRecordForHost (cid host : string) (w : World) :
  run out (createDNSRecordForHost config cid host) w =
  (Resolved tt,
   if valid_host host then
     let target := JS.or_ (targetDomain config) host in
     match registrar_post out (trace w) (domain_of host) (subdomain_of host) target 3600 with
     | Resolved id =>
         {| heap := with_managedRecords
                      (Map_set (cid ++ "-" ++ host)
                         {| recordId := id;
                            hostname := host;
                            domain := domain_of host;
                            subdomain := subdomain_of host;
                            containerId := cid |}) (heap w);
            trace := trace w
                     ++ [EvCreate (domain_of host) (subdomain_of host) target 3600 (Resolved id);
                         EvLog INFO ("Created CNAME record: " ++ subdomain_of host ++ "."
                                     ++ domain_of host ++ " -> " ++ target);
                         EvLog INFO "DNS record created for container"] |}
     | Rejected e =>
         {| heap := heap w;
            trace := trace w
                     ++ [EvCreate (domain_of host) (subdomain_of host) target 3600 (Rejected e);
                         EvLog ERROR ("Failed to create CNAME record: " ++ subdomain_of host
                                      ++ "." ++ domain_of host);
                         EvLog ERROR ("Failed to create DNS record for " ++ host)] |}
     end
   else
     {| heap := heap w;
        trace := trace w
                 ++ [EvLog WARN
                       (if Nat.ltb (List.length (JS.split "."%char host)) 2
                        then "Invalid hostname format: " ++ host
                        else "No subdomain found for host: " ++ host)] |}).
Proof.
  unfold createDNSRecordForHost, valid_host.
  fold (subdomain_of host). fold (domain_of host).
  destruct (Nat.ltb (List.length (JS.split "."%char host)) 2); cbn [negb andb].
  - reflexivity.
  - destruct (JS.truthy (subdomain_of host)); cbn [negb].
    + unfold SimplyAPI.createCNAMERecord. run_simpl.
      destruct (registrar_post out (trace w) (domain_of host) (subdomain_of host)
                  (JS.or_ (targetDomain config) host) 3600) as [id|e];
        run_simpl; world_simpl; rewrite <- !app_assoc; reflexivity.
    + reflexivity.
Qed.

End CreateRecords.

Section CreateRecordsForContainer.

Variable config : Config.
Variable out : Outside.

Lemma createDNSRecordForHost_resolves (cid host : string) (w : World) :
  fst (run out (createDNSRecordForHost config cid host) w) = Resolved tt.
Proof. now rewrite run_createDNSRecordForHost. Qed.

(** [createDNSRecordsForContainer], in full. *)
Lemma run_createDNSRecordsForContainer (id : string) (w : World) :
  run out (createDNSRecordsForContainer config id) w =
  (Resolved tt,
   match docker_inspect out id with
   | Rejected _ => observe (EvLog ERROR "Error processing container for DNS creation") w
   | Resolved info =>
       let labels := labels_or_empty (Config_Labels info) in
       let cid := String.substring 0 12 (Id info) in
       if negb (JS.strict_eq (label labels "traefik.enable") "true") then w
       else if Nat.eqb (List.length (extractTraefikHosts labels)) 0 then
         observe (EvLog WARN ("No valid hosts found in Traefik labels for container " ++ cid)) w
       else
         fold_left (fun w' host => after out (createDNSRecordForHost config cid host) w')
           (extractTraefikHosts labels) w
   end).
Proof.
  unfold createDNSRecordsForContainer. run_simpl.
  destruct (docker_inspect out id) as [info|e]; run_simpl; [| reflexivity].
  destruct (negb _); [reflexivity |].
  destruct (Nat.eqb _ 0); [reflexivity |].
  rewrite run_try_catch, run_for_each by apply createDNSRecordForHost_resolves.
  reflexivity.
Qed.

End CreateRecordsForContainer.

(** ** Splitting hostnames *)

Lemma append_assoc (a b c : string) : ((a ++ b) ++ c = a ++ b ++ c)%string.
Proof. induction a as [|x a IH]; cbn; [reflexivity | now rewrite IH]. Qed.

Lemma split_not_nil (c : ascii) (s : string) : JS.split c s <> [].
Proof.
  destruct s as [|a s]; cbn; [discriminate |].
  destruct (Ascii.eqb a c); [discriminate |].
  destruct (JS.split c s); discriminate.
Qed.

Lemma join_split (c : ascii) (s : string) :
  JS.join (String c EmptyString) (JS.split c s) = s.
Proof.
  unfold JS.join. induction s as [|a s IH]; cbn; [reflexivity |].
  destruct (Ascii.eqb_spec a c) as [->|Hne].
  - pose proof (split_not_nil c s) as Hnil.
    cbn. destruct (JS.split c s) as [|p ps]; [contradiction |].
    cbn in *. now rewrite IH.
  - pose proof (split_not_nil c s) as Hnil.
    destruct (JS.split c s) as [|p ps]; [contradiction |].
    cbn in *. destruct ps; cbn in *; now rewrite <- IH.
Qed.

Lemma concat_app (sep : string) (l1 l2 : list string) :
  l1 <> [] -> l2 <> [] ->
  String.concat sep (l1 ++ l2)
  = (String.concat sep l1 ++ sep ++ String.concat sep l2)%string.
Proof.
  intros H1 H2. induction l1 as [|x l1 IH]; [contradiction |].
  destruct l1 as [|y l1].
  - cbn. destruct l2; [contradiction | reflexivity].
  - cbn [app String.concat] in *. rewrite IH by discriminate.
    now rewrite !append_assoc.
Qed.

(** A valid host has at least three labels, and it is its subdomain and
    its domain joined by a dot. *)
Lemma valid_host_labels (host : string) :
  valid_host host = true -> 3 <= List.length (JS.split "."%char host).
Proof.
  unfold valid_host, subdomain_of, JS.slice_but_last.
  intros H. apply andb_prop in H as [Hlen Hsub].
  apply negb_true_iff, Nat.ltb_ge in Hlen.
  destruct (Nat.eq_dec (List.length (JS.split "."%char host)) 2) as [E|E]; [| lia].
  rewrite E in Hsub. cbn in Hsub. discriminate.
Qed.

Lemma few_labels_invalid (host : string) :
  List.length (JS.split "."%char host) < 3 -> valid_host host = false.
Proof.
  intros H. destruct (valid_host host) eqn:E; [| reflexivity].
  apply valid_host_labels in E. lia.
Qed.

Lemma valid_host_rejoined (host : string) :
  valid_host host = true ->
  (subdomain_of host ++ "." ++ domain_of host)%string = host.
Proof.
  intros H. apply valid_host_labels in H.
  unfold subdomain_of, domain_of, JS.slice_but_last, JS.slice_last, JS.join.
  set (parts := JS.split "."%char host) in *.
  rewrite <- concat_app.
  - rewrite firstn_skipn. apply (join_split "."%char host).
  - intros E. apply (f_equal (@List.length string)) in E.
    rewrite length_firstn in E. cbn in E. lia.
  - intros E. apply (f_equal (@List.length string)) in E.
    rewrite length_skipn in E. cbn in E. lia.
Qed.

(** ** The requests of a container, in full *)

Lemma combine_fst {X Y} (l : list X) (l' : list Y) :
  List.length l' = List.length l -> map fst (combine l l') = l.
Proof.
  revert l'. induction l as [|x l IH]; intros [|y l']; cbn; try discriminate; auto.
  intros [= E]. now rewrite IH.
Qed.

Section HostAccount.

Variable config : Config.
Variable out : Outside.
Variable cid : string.

Lemma host_step_account (host : string) (w : World) :
  let w1 := after out (createDNSRecordForHost config cid host) w in
  if valid_host host then
    exists r,
      creates (trace w1) = creates (trace w) ++ [create_for config host r]
      /\ managedRecords (heap w1) = store_result cid (managedRecords (heap w)) (host, r)
      /\ same_timers (heap w) (heap w1)
  else creates (trace w1) = creates (trace w) /\ heap w1 = heap w.
Proof.
  cbv zeta. unfold after. rewrite run_createDNSRecordForHost. cbn [snd]. cbv zeta.
  destruct (valid_host host).
  - exists (registrar_post out (trace w) (domain_of host) (subdomain_of host)
              (JS.or_ (targetDomain config) host) 3600).
    unfold create_for.
    destruct (registrar_post out (trace w) (domain_of host) (subdomain_of host)
                (JS.or_ (targetDomain config) host) 3600) as [rid|e]; cbn [heap trace];
      (split; [unfold creates; rewrite filter_app; reflexivity |]);
      split; try reflexivity; repeat split.
  - cbn [heap trace]. split; [| reflexivity].
    unfold creates. rewrite filter_app. cbn. apply app_nil_r.
Qed.

(** The loop over the hosts, host by host: one request for each valid host,
    in order, whatever became of the requests before it. *)
Lemma host_loop_account (hosts : list string) (w : World) :
  let w' := fold_left (fun w' host => after out (createDNSRecordForHost config cid host) w')
              hosts w in
  exists results,
    List.length results = List.length (filter valid_host hosts)
    /\ creates (trace w')
       = creates (trace w) ++ map (create_of config) (combine (filter valid_host hosts) results)
    /\ managedRecords (heap w')
       = fold_left (store_result cid) (combine (filter valid_host hosts) results)
           (managedRecords (heap w))
    /\ same_timers (heap w) (heap w').
Proof.
  cbv zeta. revert w. induction hosts as [|host hosts IH]; intros w; cbn [fold_left filter].
  - exists []. cbn. rewrite app_nil_r. repeat split.
  - destruct (IH (after out (createDNSRecordForHost config cid host) w))
      as [results [Hlen [Hcr [Hrec Hsame]]]].
    pose proof (host_step_account host w) as Hstep. cbv zeta in Hstep.
    destruct (valid_host host).
    + destruct Hstep as [r [Hc1 [Hr1 Hs1]]].
      exists (r :: results). cbn [List.length combine map fold_left].
      split; [now rewrite Hlen |].
      split; [rewrite Hcr, Hc1, <- app_assoc; reflexivity |].
      split; [rewrite Hrec, Hr1; reflexivity |].
      destruct Hs1 as [A1 [A2 A3]], Hsame as [B1 [B2 B3]]. repeat split; congruence.
    + destruct Hstep as [Hc1 Hh1]. exists results.
      split; [exact Hlen |]. split; [now rewrite Hcr, Hc1 |].
      split; [now rewrite Hrec, Hh1 |]. now rewrite <- Hh1.
Qed.

End HostAccount.

(** Whether a request is sent for a container, and for which hosts. *)
Lemma wants_requested (out : Outside) (id : string) :
  wants_records out id = true <-> requested out id <> [].
Proof.
  unfold wants_records, requested. destruct (docker_inspect out id) as [info|e]; cbv zeta.
  - destruct (JS.strict_eq _ _); cbn [andb].
    + induction (extractTraefikHosts _) as [|x l IH]; cbn.
      * split; [discriminate | congruence].
      * destruct (valid_host x); cbn; [split; [discriminate | reflexivity] | exact IH].
    + split; [discriminate | congruence].
  - split; [discriminate | congruence].
Qed.

(** [createDNSRecordsForContainer], by its requests: one for each host it
    asks a record for, in order. *)
Lemma container_account (config : Config) (out : Outside) (id : string) (w : World) :
  exists results,
    List.length results = List.length (requested out id)
    /\ creates (trace (after out (createDNSRecordsForContainer config id) w))
       = creates (trace w) ++ map (create_of config) (combine (requested out id) results).
Proof.
  unfold after. rewrite run_createDNSRecordsForContainer. cbn [snd]. unfold requested.
  destruct (docker_inspect out id) as [info|e]; cbv zeta.
  - destruct (JS.strict_eq _ _); cbn [negb].
    + destruct (Nat.eqb (List.length (extractTraefikHosts _)) 0) eqn:Hz.
      * apply Nat.eqb_eq, length_zero_iff_nil in Hz. rewrite Hz. exists []. cbn.
        unfold creates. rewrite filter_app. cbn. now rewrite !app_nil_r.
      * destruct (host_loop_account config out (String.substring 0 12 (Id info))
                    (extractTraefikHosts (labels_or_empty (Config_Labels info))) w)
          as [results [Hlen [Hcr _]]].
        exists results. auto.
    + exists []. cbn. now rewrite app_nil_r.
  - exists []. cbn. unfold creates. rewrite filter_app. cbn. now rewrite !app_nil_r.
Qed.

(** ** The loop over the hosts of a container *)

Section HostLoop.

Variable config : Config.
Variable out : Outside.
Variable cid : string.

(** The events that one host adds to the trace. *)
Lemma host_step_trace (host : string) (w : World) :
  exists new,
    trace (after out (createDNSRecordForHost config cid host) w) = trace w ++ new
    /\ if valid_host host
       then exists r logs, new = create_for config host r :: logs
                           /\ Forall (fun e => is_log e = true) logs
       else new = [warning_for host].
Proof.
  unfold after. rewrite run_createDNSRecordForHost. cbn [snd].
  destruct (valid_host host).
  - cbv zeta.
    destruct (registrar_post out (trace w) (domain_of host) (subdomain_of host)
                (JS.or_ (targetDomain config) host) 3600) as [i|e];
      cbn [trace]; eexists; (split; [reflexivity |]); eexists; eexists;
      (split; [reflexivity |]); repeat constructor.
  - cbn [trace]. eexists; split; reflexivity.
Qed.

Lemma host_loop_trace (hosts : list string) (w : World) :
  exists new,
    trace (fold_left (fun w' host => after out (createDNSRecordForHost config cid host) w')
             hosts w) = trace w ++ new
    /\ (forall e, In e new ->
          is_log e = true
          \/ exists host r, In host hosts /\ valid_host host = true
                            /\ e = create_for config host r)
    /\ (forall host, In host hosts -> valid_host host = false ->
          In (warning_for host) new).
Proof.
  revert w. induction hosts as [|host hosts IH]; intros w; cbn [fold_left].
  - exists []. rewrite app_nil_r. repeat split; intros; contradiction.
  - destruct (host_step_trace host w) as [new1 [Htr1 Hnew1]].
    destruct (IH (after out (createDNSRecordForHost config cid host) w))
      as [new2 [Htr2 [Hev2 Hwarn2]]].
    exists (new1 ++ new2). rewrite Htr2, Htr1, app_assoc.
    split; [reflexivity |]. split.
    + intros e He. apply in_app_or in He as [He|He].
      * destruct (valid_host host) eqn:Hv.
        -- destruct Hnew1 as [r [logs [-> Hlogs]]]. destruct He as [<-|He].
           ++ right. exists host, r. cbn. auto.
           ++ left. rewrite Forall_forall in Hlogs. auto.
        -- subst new1. destruct He as [<-|[]]. left. reflexivity.
      * destruct (Hev2 e He) as [Hl|[host' [r [Hin [Hv ->]]]]]; [now left |].
        right. exists host', r. cbn. auto.
    + intros host' [<-|Hin] Hv; apply in_or_app.
      * left. rewrite Hv in Hnew1. subst new1. now left.
      * right. now apply Hwarn2.
Qed.

End HostLoop.

Lemma exec_from_after {A} (out : Outside) (p : Prog A) (h : Heap) :
  exec_from out p h = after out p {| heap := h; trace := [] |}.
Proof. reflexivity. Qed.

(** The requests of [createDNSRecordsForContainer]: each is the request for
    a valid host that the parser found in the labels of the container. *)
Lemma container_creates (config : Config) (out : Outside) (id : string) (h : Heap)
    (e : Event) :
  In e (trace (exec_from out (createDNSRecordsForContainer config id) h)) ->
  is_create e = true ->
  exists info host r,
    docker_inspect out id = Resolved info
    /\ JS.strict_eq (label (labels_or_empty (Config_Labels info)) "traefik.enable") "true" = true
    /\ In host (extractTraefikHosts (labels_or_empty (Config_Labels info)))
    /\ valid_host host = true
    /\ e = create_for config host r.
Proof.
  unfold exec_from. rewrite run_createDNSRecordsForContainer. cbn [snd].
  destruct (docker_inspect out id) as [info|msg].
  2: { cbn. intros [<-|[]]. discriminate. }
  cbv zeta.
  destruct (JS.strict_eq _ "true") eqn:Hflag; cbn [negb].
  2: { cbn. contradiction. }
  destruct (Nat.eqb _ 0).
  { cbn. intros [<-|[]]. discriminate. }
  destruct (host_loop_trace config out (String.substring 0 12 (Id info))
              (extractTraefikHosts (labels_or_empty (Config_Labels info)))
              {| heap := h; trace := [] |}) as [new [Htr [Hev _]]].
  rewrite Htr. cbn [trace app]. intros He Hc.
  destruct (Hev e He) as [Hl|[host [r [Hin [Hv ->]]]]].
  - destruct e; discriminate.
  - exists info, host, r. auto.
Qed.

Lemma valid_host_iff (host : string) :
  valid_host host = true <->
  3 <= List.length (JS.split "."%char host)
  /\ JS.join "." (JS.slice_but_last 2 (JS.split "."%char host)) <> EmptyString.
Proof.
  split.
  - intros Hv. split; [now apply valid_host_labels |].
    unfold valid_host in Hv. apply andb_prop in Hv as [_ Hs].
    unfold subdomain_of in Hs. intros E. rewrite E in Hs. discriminate.
  - intros [Hlen Hsub]. unfold valid_host. apply andb_true_intro. split.
    + apply negb_true_iff, Nat.ltb_ge. lia.
    + unfold subdomain_of. destruct (JS.join "." _); [congruence | reflexivity].
Qed.

Lemma valid_host_first_label (host : string) :
  3 <= List.length (JS.split "."%char host) ->
  hd EmptyString (JS.split "."%char host) <> EmptyString ->
  valid_host host = true.
Proof.
  intros Hlen Hhd. apply valid_host_iff. split; [exact Hlen |].
  unfold JS.join, JS.slice_but_last.
  destruct (JS.split "."%char host) as [|x [|y [|z rest]]]; cbn in Hlen; try lia.
  cbn [List.length hd] in *.
  replace (S (S (S (List.length rest))) - 2) with (S (List.length rest)) by lia.
  cbn [firstn]. destruct (firstn (List.length rest) (y :: z :: rest)) as [|u l]; cbn.
  - exact Hhd.
  - destruct x; [congruence | discriminate].
Qed.



Lemma or_target (target host : string) :
  (target <> EmptyString -> JS.or_ target host = target)
  /\ (target = EmptyString -> JS.or_ target host = host).
Proof.
  unfold JS.or_. destruct target; cbn; split; intros H; congruence.
Qed.


(** ** The tick in full *)

Section TickEquations.

Variable config : Config.
Variable out : Outside.

Lemma run_for_each_with {X S} (xs : list X) (acc : S) (body : S -> X -> Prog S)
    (next : S -> X -> S) (w : World) :
  (forall a x w', fst (run out (body a x) w') = Resolved (next a x)) ->
  (forall a a' x w', snd (run out (body a x) w') = snd (run out (body a' x) w')) ->
  run out (for_each_with xs acc body) w
  = (Resolved (fold_left next xs acc),
     fold_left (fun w' x => after out (body acc x) w') xs w).
Proof.
  intros Hres Hworld. revert acc w.
  induction xs as [|x xs IH]; intros acc w; cbn [for_each_with fold_left].
  - reflexivity.
  - rewrite run_bind. pose proof (Hres acc x w) as Hr. unfold after at 2.
    destruct (run out (body acc x) w) as [r w'] eqn:Hrun. cbn in Hr. subst r.
    rewrite IH. cbn [snd]. f_equal.
    clear IH Hrun. revert w'. induction xs as [|y ys IHy]; intros w'; cbn [fold_left].
    + reflexivity.
    + unfold after in *. rewrite (Hworld (next acc x) acc y w'). apply IHy.
Qed.

Lemma run_scheduleRecordDeletion (cid : string) (w : World) :
  run out (scheduleRecordDeletion config cid) w =
  (Resolved tt,
   let h := if Map_has cid (deletePendingRecords (heap w))
            then match Map_get cid (deletePendingRecords (heap w)) with
                 | Some t => disarm t (heap w)
                 | None => heap w
                 end
            else heap w in
   {| heap := with_deletePendingRecords (Map_set cid (nextTimer h))
                (arm (JS.times (deleteDelay config) 1000) cid h);
      trace := trace w
               ++ [EvLog INFO ("Scheduled DNS record deletion in "
                               ++ JS.Z_to_string (deleteDelay config) ++ " seconds")] |}).
Proof.
  unfold scheduleRecordDeletion. run_simpl.
  destruct (Map_has cid (deletePendingRecords (heap w))).
  - destruct (Map_get cid (deletePendingRecords (heap w))); run_simpl; reflexivity.
  - run_simpl. destruct w. reflexivity.
Qed.

Lemma run_scheduleIfStopped (running : list string) (kr : string * ManagedRecord) (w : World) :
  run out (scheduleIfStopped config running kr) w =
  (Resolved tt,
   if negb (JS.Set_has (containerId (snd kr)) running)
      && negb (Map_has (containerId (snd kr)) (deletePendingRecords (heap w)))
   then after out (scheduleRecordDeletion config (containerId (snd kr))) w
   else w).
Proof.
  unfold scheduleIfStopped, after. run_simpl.
  destruct (_ && _); [| reflexivity].
  now rewrite run_scheduleRecordDeletion.
Qed.

Lemma run_monitorContainer (running : list string) (info : ContainerInfo) (w : World) :
  run out (monitorContainer config running info) w =
  (Resolved (if is_running info then JS.Set_add (short_id info) running else running),
   if is_running info then
     let w1 := if has_records (short_id info) (heap w) then w
               else after out (createDNSRecordsForContainer config (info_Id info)) w in
     if Map_has (short_id info) (deletePendingRecords (heap w1))
     then cancel_pending (short_id info) w1
     else w1
   else w).
Proof.
  unfold monitorContainer, is_running, after.
  destruct (String.eqb (info_State info) "running"); [| reflexivity].
  run_simpl. fold (short_id info). fold (has_records (short_id info) (heap w)).
  destruct (has_records (short_id info) (heap w)); cbn [negb].
  - run_simpl.
    destruct (Map_has (short_id info) (deletePendingRecords (heap w))); [| reflexivity].
    rewrite run_bind.
    destruct (Map_get (short_id info) (deletePendingRecords (heap w))) eqn:Hget;
      run_simpl; unfold cancel_pending; rewrite Hget; reflexivity.
  - rewrite !run_bind, run_createDNSRecordsForContainer. cbn [snd].
    set (w1 := match docker_inspect out (info_Id info) with
               | Resolved _ => _ | Rejected _ => _ end).
    run_simpl.
    destruct (Map_has (short_id info) (deletePendingRecords (heap w1))); [| reflexivity].
    rewrite !run_bind.
    destruct (Map_get (short_id info) (deletePendingRecords (heap w1))) eqn:Hget;
      run_simpl; unfold cancel_pending; rewrite Hget; reflexivity.
Qed.

Lemma run_monitorContainers (w : World) :
  run out (monitorContainers config) w =
  (Resolved tt,
   match docker_listContainers out with
   | Rejected _ => observe (EvLog ERROR "Error monitoring containers") w
   | Resolved containers =>
       let w1 := fold_left (fun w' info => after out (monitorContainer config [] info) w')
                   containers w in
       fold_left
         (fun w' kr => after out (scheduleIfStopped config (running_ids [] containers) kr) w')
         (managedRecords (heap w1)) w1
   end).
Proof.
  unfold monitorContainers. run_simpl.
  destruct (docker_listContainers out) as [containers|e]; run_simpl; [| reflexivity].
  rewrite run_try_catch, run_bind.
  rewrite (run_for_each_with containers [] (monitorContainer config)
             (fun acc info => if is_running info then JS.Set_add (short_id info) acc else acc)).
  - run_simpl. fold (running_ids [] containers).
    rewrite run_for_each; [reflexivity |].
    intros kr w'. now rewrite run_scheduleIfStopped.
  - intros a x w'. now rewrite run_monitorContainer.
  - intros a a' x w'. now rewrite !run_monitorContainer.
Qed.

End TickEquations.

(** ** What creating records does to the heap *)

Section CreateHeap.

Variable config : Config.
Variable out : Outside.

Lemma createDNSRecordsForContainer_frame (id : string) (w : World) :
  let w' := after out (createDNSRecordsForContainer config id) w in
  same_timers (heap w) (heap w')
  /\ incl (Map_keys (managedRecords (heap w))) (Map_keys (managedRecords (heap w')))
  /\ deletes (trace w') = deletes (trace w).
Proof.
  cbv zeta.
  destruct (Within_run (fun f => exists k v, f = with_managedRecords (Map_set k v))
              (fun e => is_delete e = false)
              (fun h h' => same_timers h h'
                           /\ incl (Map_keys (managedRecords h)) (Map_keys (managedRecords h')))
              out (createDNSRecordsForContainer config id))
    with (w := w) as [[Hsame Hincl] [new [Htr Hnew]]].
  - apply Within_createDNSRecordsForContainer; cbn; eauto.
  - intros h. repeat split. apply incl_refl.
  - intros h1 h2 h3 [[A1 [A2 A3]] A4] [[B1 [B2 B3]] B4].
    repeat split; try congruence. eapply incl_tran; eauto.
  - intros f h [k [v ->]]. repeat split. cbn. apply Map_set_keys.
  - repeat split; try apply Hsame; [exact Hincl |].
    unfold after. rewrite Htr. unfold deletes. rewrite filter_app.
    now rewrite (filter_none _ new Hnew), app_nil_r.
Qed.

Variable cid : string.

Lemma host_step_invalid (host : string) (w : World) :
  valid_host host = false ->
  let w' := after out (createDNSRecordForHost config cid host) w in
  heap w' = heap w /\ creates (trace w') = creates (trace w).
Proof.
  intros Hv. unfold after. rewrite run_createDNSRecordForHost, Hv. cbn.
  split; [reflexivity |]. unfold creates. rewrite filter_app. cbn. apply app_nil_r.
Qed.

Lemma host_step_valid (host : string) (w : World) :
  valid_host host = true ->
  let w' := after out (createDNSRecordForHost config cid host) w in
  existsb is_failed_create (trace w') = true
  \/ In (cid ++ "-" ++ host)%string (Map_keys (managedRecords (heap w'))).
Proof.
  intros Hv. unfold after. rewrite run_createDNSRecordForHost, Hv. cbn [snd]. cbv zeta.
  destruct (registrar_post out (trace w) (domain_of host) (subdomain_of host)
              (JS.or_ (targetDomain config) host) 3600) as [i|e]; cbn [heap trace].
  - right. apply Map_has_In. cbn [managedRecords with_managedRecords].
    rewrite Map_has_set, String.eqb_refl. reflexivity.
  - left. rewrite existsb_app. cbn. apply orb_true_r.
Qed.

Lemma host_step_records (host : string) (w : World) (kr : string * ManagedRecord) :
  In kr (managedRecords (heap (after out (createDNSRecordForHost config cid host) w))) ->
  In kr (managedRecords (heap w)) \/ containerId (snd kr) = cid.
Proof.
  unfold after. rewrite run_createDNSRecordForHost. cbn [snd]. cbv zeta.
  destruct (valid_host host); [| auto].
  destruct (registrar_post out (trace w) (domain_of host) (subdomain_of host)
              (JS.or_ (targetDomain config) host) 3600) as [i|e]; cbn [heap trace]; [| auto].
  cbn [managedRecords with_managedRecords]. intros H.
  apply Map_set_In in H as [->|H]; auto.
Qed.

Lemma host_step_keys (host : string) (w : World) :
  incl (Map_keys (managedRecords (heap w)))
    (Map_keys (managedRecords (heap (after out (createDNSRecordForHost config cid host) w)))).
Proof.
  unfold after. rewrite run_createDNSRecordForHost. cbn [snd]. cbv zeta.
  destruct (valid_host host); [| apply incl_refl].
  destruct (registrar_post out (trace w) (domain_of host) (subdomain_of host)
              (JS.or_ (targetDomain config) host) 3600) as [i|e]; cbn [heap trace];
    [| apply incl_refl].
  cbn [managedRecords with_managedRecords]. apply Map_set_keys.
Qed.

Local Abbreviation host_loop hosts w :=
  (fold_left (fun w' host => after out (createDNSRecordForHost config cid host) w') hosts w).

Lemma host_loop_invalid (hosts : list string) (w : World) :
  existsb valid_host hosts = false ->
  heap (host_loop hosts w) = heap w
  /\ creates (trace (host_loop hosts w)) = creates (trace w).
Proof.
  revert w. induction hosts as [|host hosts IH]; intros w; cbn [existsb fold_left].
  - auto.
  - intros H. apply orb_false_elim in H as [Hv Hrest].
    destruct (host_step_invalid host w Hv) as [Hh Hc].
    destruct (IH (after out (createDNSRecordForHost config cid host) w) Hrest) as [Hh' Hc'].
    split; congruence.
Qed.

Lemma host_loop_keys (hosts : list string) (w : World) :
  incl (Map_keys (managedRecords (heap w)))
    (Map_keys (managedRecords (heap (host_loop hosts w)))).
Proof.
  revert w. induction hosts as [|host hosts IH]; intros w; cbn [fold_left].
  - apply incl_refl.
  - eapply incl_tran; [apply host_step_keys | apply IH].
Qed.

Lemma host_loop_extends (hosts : list string) (w : World) :
  exists new, trace (host_loop hosts w) = trace w ++ new.
Proof. apply fold_extends. intros w' x. apply after_extends. Qed.

Lemma host_loop_records (hosts : list string) (w : World) (kr : string * ManagedRecord) :
  In kr (managedRecords (heap (host_loop hosts w))) ->
  In kr (managedRecords (heap w)) \/ containerId (snd kr) = cid.
Proof.
  revert w. induction hosts as [|host hosts IH]; intros w; cbn [fold_left]; [auto |].
  intros H. apply IH in H as [H|H]; [| auto].
  now apply host_step_records in H.
Qed.

Lemma host_loop_stored (hosts : list string) (w : World) :
  existsb valid_host hosts = true ->
  existsb is_failed_create (trace (host_loop hosts w)) = false ->
  exists host, In (cid ++ "-" ++ host)%string
                 (Map_keys (managedRecords (heap (host_loop hosts w)))).
Proof.
  revert w. induction hosts as [|host hosts IH]; intros w; cbn [existsb fold_left];
    [discriminate |].
  intros Hv Hok.
  destruct (valid_host host) eqn:Hhost.
  - destruct (host_step_valid host w Hhost) as [Hfail|Hin].
    + destruct (host_loop_extends hosts (after out (createDNSRecordForHost config cid host) w))
        as [new Htr].
      rewrite Htr in Hok. apply failed_create_persists in Hok. congruence.
    + exists host. eapply host_loop_keys. exact Hin.
  - cbn in Hv. now apply IH.
Qed.

End CreateHeap.

(** ** Records of a container, and the first loop of the tick *)

Section FirstLoop.

Variable config : Config.
Variable out : Outside.

Lemma createDNSRecordsForContainer_unwanted (id : string) (w : World) :
  wants_records out id = false ->
  let w' := after out (createDNSRecordsForContainer config id) w in
  heap w' = heap w /\ creates (trace w') = creates (trace w).
Proof.
  unfold wants_records, after. rewrite run_createDNSRecordsForContainer. cbn [snd].
  destruct (docker_inspect out id) as [info|e]; cbv zeta.
  - destruct (JS.strict_eq _ "true"); cbn [andb negb]; [| auto].
    intros Hv. destruct (Nat.eqb _ 0).
    + split; [reflexivity |]. cbn. unfold creates. rewrite filter_app. apply app_nil_r.
    + now apply host_loop_invalid.
  - intros _. split; [reflexivity |]. cbn. unfold creates. rewrite filter_app. apply app_nil_r.
Qed.

Lemma createDNSRecordsForContainer_stored (id : string) (w : World) :
  wants_records out id = true ->
  let w' := after out (createDNSRecordsForContainer config id) w in
  existsb is_failed_create (trace w') = false ->
  exists info host,
    docker_inspect out id = Resolved info
    /\ In (String.substring 0 12 (Id info) ++ "-" ++ host)%string
         (Map_keys (managedRecords (heap w'))).
Proof.
  unfold wants_records, after. rewrite run_createDNSRecordsForContainer. cbn [snd].
  destruct (docker_inspect out id) as [info|e]; cbv zeta; [| discriminate].
  intros H. apply andb_prop in H as [Hflag Hv]. rewrite Hflag. cbn [negb].
  destruct (Nat.eqb _ 0) eqn:Hz.
  { apply Nat.eqb_eq, length_zero_iff_nil in Hz. rewrite Hz in Hv. discriminate. }
  intros Hok.
  destruct (host_loop_stored config out _ _ w Hv Hok) as [host Hin].
  exists info, host. auto.
Qed.

Lemma createDNSRecordsForContainer_records (id : string) (w : World)
    (kr : string * ManagedRecord) :
  In kr (managedRecords (heap (after out (createDNSRecordsForContainer config id) w))) ->
  In kr (managedRecords (heap w))
  \/ exists info, docker_inspect out id = Resolved info
                  /\ containerId (snd kr) = String.substring 0 12 (Id info).
Proof.
  unfold after. rewrite run_createDNSRecordsForContainer. cbn [snd].
  destruct (docker_inspect out id) as [info|e]; cbv zeta; [| auto].
  destruct (negb _); [auto |]. destruct (Nat.eqb _ 0); [auto |].
  intros H. apply host_loop_records in H as [H|H]; eauto.
Qed.

Lemma has_records_incl (cid : string) (h h' : Heap) :
  incl (Map_keys (managedRecords h)) (Map_keys (managedRecords h')) ->
  has_records cid h = true -> has_records cid h' = true.
Proof.
  unfold has_records. rewrite !existsb_exists. intros Hincl [k [Hin Hk]]. eauto.
Qed.

Abbreviation step1 w info := (after out (monitorContainer config [] info) w).

Lemma step1_eq (info : ContainerInfo) (w : World) :
  step1 w info =
  if is_running info then
    let w1 := if has_records (short_id info) (heap w) then w
              else after out (createDNSRecordsForContainer config (info_Id info)) w in
    if Map_has (short_id info) (deletePendingRecords (heap w1))
    then cancel_pending (short_id info) w1
    else w1
  else w.
Proof. unfold after at 1. now rewrite run_monitorContainer. Qed.

(** The heap after the creation step of a running container. *)
Lemma step1_cases (info : ContainerInfo) (w : World) :
  is_running info = true ->
  exists w1,
    (w1 = w /\ has_records (short_id info) (heap w) = true
     \/ w1 = after out (createDNSRecordsForContainer config (info_Id info)) w
        /\ has_records (short_id info) (heap w) = false)
    /\ same_timers (heap w) (heap w1)
    /\ incl (Map_keys (managedRecords (heap w))) (Map_keys (managedRecords (heap w1)))
    /\ (step1 w info = w1
        /\ Map_has (short_id info) (deletePendingRecords (heap w)) = false
        \/ step1 w info = cancel_pending (short_id info) w1
           /\ Map_has (short_id info) (deletePendingRecords (heap w)) = true).
Proof.
  intros Hrun. rewrite step1_eq, Hrun. cbv zeta.
  destruct (has_records (short_id info) (heap w)) eqn:Hhas.
  - exists w. split; [auto |]. split; [repeat split |]. split; [apply incl_refl |].
    destruct (Map_has _ _); auto.
  - exists (after out (createDNSRecordsForContainer config (info_Id info)) w).
    destruct (createDNSRecordsForContainer_frame config out (info_Id info) w)
      as [Hsame [Hincl _]].
    split; [auto |]. split; [exact Hsame |]. split; [exact Hincl |].
    destruct Hsame as [Hp _]. rewrite Hp.
    destruct (Map_has _ _); auto.
Qed.

End FirstLoop.

Lemma cancel_pending_managed (cid : string) (w : World) :
  managedRecords (heap (cancel_pending cid w)) = managedRecords (heap w).
Proof. unfold cancel_pending. cbn. now destruct (Map_get _ _). Qed.

Lemma cancel_pending_pending (cid : string) (w : World) :
  deletePendingRecords (heap (cancel_pending cid w))
  = Map_delete cid (deletePendingRecords (heap w)).
Proof. unfold cancel_pending. cbn. now destruct (Map_get _ _). Qed.

Lemma cancel_pending_creates (cid : string) (w : World) :
  creates (trace (cancel_pending cid w)) = creates (trace w).
Proof. unfold cancel_pending, creates. cbn. rewrite filter_app. apply app_nil_r. Qed.

Lemma cancel_pending_failed (cid : string) (w : World) :
  existsb is_failed_create (trace (cancel_pending cid w))
  = existsb is_failed_create (trace w).
Proof. unfold cancel_pending. cbn. rewrite existsb_app. apply orb_false_r. Qed.

Section FirstLoopSteps.

Variable config : Config.
Variable out : Outside.

Abbreviation step1 w info := (after out (monitorContainer config [] info) w).

Lemma step1_idle (info : ContainerInfo) (w : World) :
  is_running info = false -> step1 w info = w.
Proof. intros H. now rewrite step1_eq, H. Qed.

Lemma step1_keys (info : ContainerInfo) (w : World) :
  incl (Map_keys (managedRecords (heap w))) (Map_keys (managedRecords (heap (step1 w info)))).
Proof.
  destruct (is_running info) eqn:Hrun; [| rewrite step1_idle by exact Hrun; apply incl_refl].
  destruct (step1_cases config out info w Hrun) as [w1 [_ [_ [Hincl [[-> _]|[-> _]]]]]].
  - exact Hincl.
  - now rewrite cancel_pending_managed.
Qed.

Lemma step1_pending (info : ContainerInfo) (w : World) (c : string) :
  Map_has c (deletePendingRecords (heap (step1 w info))) = true ->
  Map_has c (deletePendingRecords (heap w)) = true.
Proof.
  destruct (is_running info) eqn:Hrun; [| now rewrite step1_idle by exact Hrun].
  destruct (step1_cases config out info w Hrun)
    as [w1 [_ [[Hp _] [_ [[-> _]|[-> _]]]]]].
  - now rewrite Hp.
  - rewrite cancel_pending_pending, Map_has_delete, Hp.
    intros H. now apply andb_prop in H.
Qed.

Lemma step1_cancels (info : ContainerInfo) (w : World) :
  is_running info = true ->
  Map_has (short_id info) (deletePendingRecords (heap (step1 w info))) = false.
Proof.
  intros Hrun.
  destruct (step1_cases config out info w Hrun)
    as [w1 [_ [[Hp _] [_ [[-> Hno]|[-> _]]]]]].
  - now rewrite Hp.
  - rewrite cancel_pending_pending. apply Map_has_delete_same.
Qed.

Lemma step1_same_timers (info : ContainerInfo) (w : World) :
  (is_running info = true ->
   Map_has (short_id info) (deletePendingRecords (heap w)) = false) ->
  same_timers (heap w) (heap (step1 w info)).
Proof.
  intros Hno.
  destruct (is_running info) eqn:Hrun;
    [| rewrite step1_idle by exact Hrun; repeat split].
  destruct (step1_cases config out info w Hrun)
    as [w1 [_ [Hsame [_ [[-> _]|[_ Hyes]]]]]].
  - exact Hsame.
  - rewrite Hno in Hyes by reflexivity. discriminate.
Qed.

Lemma step1_records (info : ContainerInfo) (w : World) (kr : string * ManagedRecord) :
  inspect_consistent out ->
  In kr (managedRecords (heap (step1 w info))) ->
  In kr (managedRecords (heap w))
  \/ is_running info = true /\ containerId (snd kr) = short_id info.
Proof.
  intros Hcons.
  destruct (is_running info) eqn:Hrun; [| rewrite step1_idle by exact Hrun; auto].
  assert (Hcreate : forall kr',
             In kr' (managedRecords
                       (heap (after out (createDNSRecordsForContainer config (info_Id info)) w))) ->
             In kr' (managedRecords (heap w))
             \/ true = true /\ containerId (snd kr') = short_id info).
  { intros kr' H. apply createDNSRecordsForContainer_records in H as [H|[i [Hi Hc]]]; auto.
    right. split; [reflexivity |]. rewrite Hc. unfold short_id. now rewrite (Hcons _ _ Hi). }
  destruct (step1_cases config out info w Hrun)
    as [w1 [[[-> _]|[-> _]] [_ [_ [[-> _]|[-> _]]]]]];
    rewrite ?cancel_pending_managed; auto.
Qed.

Lemma step1_settled (info : ContainerInfo) (w : World) :
  (is_running info = true -> settled out (heap w) info) ->
  managedRecords (heap (step1 w info)) = managedRecords (heap w)
  /\ creates (trace (step1 w info)) = creates (trace w).
Proof.
  intros Hset.
  destruct (is_running info) eqn:Hrun; [| rewrite step1_idle by exact Hrun; auto].
  specialize (Hset eq_refl).
  assert (Hcreate : has_records (short_id info) (heap w) = false ->
                    let w1 := after out (createDNSRecordsForContainer config (info_Id info)) w in
                    managedRecords (heap w1) = managedRecords (heap w)
                    /\ creates (trace w1) = creates (trace w)).
  { intros Hno. destruct Hset as [Hyes|Hunw]; [congruence |].
    destruct (createDNSRecordsForContainer_unwanted config out _ w Hunw) as [Hh Hc].
    cbv zeta. now rewrite Hh. }
  destruct (step1_cases config out info w Hrun)
    as [w1 [[[-> _]|[-> Hno]] [_ [_ [[-> _]|[-> _]]]]]];
    rewrite ?cancel_pending_managed, ?cancel_pending_creates; auto.
Qed.

Lemma step1_settles (info : ContainerInfo) (w : World) :
  inspect_consistent out ->
  is_running info = true ->
  existsb is_failed_create (trace (step1 w info)) = false ->
  settled out (heap (step1 w info)) info.
Proof.
  intros Hcons Hrun Hok.
  assert (Hcreate :
           let w1 := after out (createDNSRecordsForContainer config (info_Id info)) w in
           existsb is_failed_create (trace w1) = false ->
           settled out (heap w1) info).
  { cbv zeta. intros Hok1. unfold settled.
    destruct (wants_records out (info_Id info)) eqn:Hw; [| auto]. left.
    destruct (createDNSRecordsForContainer_stored config out _ w Hw Hok1)
      as [i [host [Hi Hin]]].
    unfold has_records. apply existsb_exists.
    eexists. split; [exact Hin |].
    unfold JS.startsWith, short_id. rewrite (Hcons _ _ Hi). apply prefix_append. }
  assert (Hkeep : forall w1, settled out (heap w1) info ->
                             settled out (heap (cancel_pending (short_id info) w1)) info).
  { intros w1 [H|H]; [left | now right].
    unfold has_records in *. now rewrite cancel_pending_managed. }
  destruct (step1_cases config out info w Hrun)
    as [w1 [[[-> Hyes]|[-> Hno]] [_ [_ [[E _]|[E _]]]]]]; rewrite E in *.
  - now left.
  - apply Hkeep. now left.
  - now apply Hcreate.
  - apply Hkeep, Hcreate. now rewrite cancel_pending_failed in Hok.
Qed.

End FirstLoopSteps.

(** ** The first loop as a whole *)

Lemma Set_has_add (x y : string) (s : list string) :
  JS.Set_has x (JS.Set_add y s) = String.eqb x y || JS.Set_has x s.
Proof.
  unfold JS.Set_add. destruct (JS.Set_has y s) eqn:Hy.
  - destruct (String.eqb_spec x y) as [->|Hne]; [now rewrite Hy | reflexivity].
  - unfold JS.Set_has. rewrite existsb_app. cbn. rewrite orb_false_r. apply orb_comm.
Qed.

Lemma running_ids_has (c : string) (containers : list ContainerInfo) (acc : list string) :
  JS.Set_has c (running_ids acc containers) = true <->
  JS.Set_has c acc = true
  \/ exists info, In info containers /\ is_running info = true /\ short_id info = c.
Proof.
  unfold running_ids. revert acc.
  induction containers as [|info containers IH]; intros acc; cbn [fold_left].
  - split; [auto | intros [H|[i [[] _]]]; exact H].
  - rewrite IH. destruct (is_running info) eqn:Hrun.
    + rewrite Set_has_add. split.
      * intros [H|[i [Hin Hi]]].
        -- apply orb_prop in H as [H|H]; [| auto].
           apply String.eqb_eq in H. right. exists info. cbn. auto.
        -- right. exists i. cbn. tauto.
      * intros [H|[i [[<-|Hin] [Hr Hi]]]].
        -- left. rewrite H. apply orb_true_r.
        -- left. rewrite Hi, String.eqb_refl. reflexivity.
        -- right. eauto.
    + split.
      * intros [H|[i [Hin Hi]]]; [auto |]. right. exists i. cbn. tauto.
      * intros [H|[i [[<-|Hin] [Hr Hi]]]]; [auto | congruence |]. right. eauto.
Qed.

Section FirstLoopWhole.

Variable config : Config.
Variable out : Outside.

Abbreviation phase1 containers w :=
  (fold_left (fun w' info => after out (monitorContainer config [] info) w') containers w).

Lemma phase1_keys (containers : list ContainerInfo) (w : World) :
  incl (Map_keys (managedRecords (heap w)))
    (Map_keys (managedRecords (heap (phase1 containers w)))).
Proof.
  revert w. induction containers as [|info containers IH]; intros w; cbn [fold_left].
  - apply incl_refl.
  - eapply incl_tran; [apply (step1_keys config out info w) | apply IH].
Qed.

Lemma phase1_pending (containers : list ContainerInfo) (w : World) (c : string) :
  Map_has c (deletePendingRecords (heap (phase1 containers w))) = true ->
  Map_has c (deletePendingRecords (heap w)) = true.
Proof.
  revert w. induction containers as [|info containers IH]; intros w; cbn [fold_left].
  - auto.
  - intros H. apply IH in H. now apply step1_pending in H.
Qed.

Lemma phase1_extends (containers : list ContainerInfo) (w : World) :
  exists new, trace (phase1 containers w) = trace w ++ new.
Proof. apply fold_extends. intros w' x. apply after_extends. Qed.

(** After the first loop no running container has a pending deletion. *)
Lemma phase1_cancels (containers : list ContainerInfo) (w : World) (info : ContainerInfo) :
  In info containers -> is_running info = true ->
  Map_has (short_id info) (deletePendingRecords (heap (phase1 containers w))) = false.
Proof.
  revert w. induction containers as [|x containers IH]; intros w; cbn [fold_left].
  - intros [].
  - intros [->|Hin] Hrun; [| now apply IH].
    destruct (Map_has _ _) eqn:H; [| reflexivity].
    apply phase1_pending in H. now rewrite step1_cancels in H.
Qed.

(** With no pending deletion of a running container, the first loop leaves
    the pending deletions and the timers as they are. *)
Lemma phase1_same_timers (containers : list ContainerInfo) (w : World) :
  (forall info, In info containers -> is_running info = true ->
                Map_has (short_id info) (deletePendingRecords (heap w)) = false) ->
  same_timers (heap w) (heap (phase1 containers w)).
Proof.
  revert w. induction containers as [|x containers IH]; intros w Hno; cbn [fold_left].
  - repeat split.
  - assert (Hx : same_timers (heap w) (heap (after out (monitorContainer config [] x) w))).
    { apply step1_same_timers. intros Hrun. apply Hno; [now left | exact Hrun]. }
    specialize (IH (after out (monitorContainer config [] x) w)).
    destruct Hx as [Hp [Ht Hn]].
    destruct IH as [Hp' [Ht' Hn']].
    { intros info Hin Hrun. rewrite Hp. apply Hno; [now right | exact Hrun]. }
    repeat split; congruence.
Qed.

(** A record in the table after the first loop was there before, or belongs
    to a running container of the listing. *)
Lemma phase1_records (containers : list ContainerInfo) (w : World)
    (kr : string * ManagedRecord) :
  inspect_consistent out ->
  In kr (managedRecords (heap (phase1 containers w))) ->
  In kr (managedRecords (heap w))
  \/ exists info, In info containers /\ is_running info = true
                  /\ containerId (snd kr) = short_id info.
Proof.
  intros Hcons. revert w.
  induction containers as [|x containers IH]; intros w; cbn [fold_left]; [auto |].
  intros H. apply IH in H as [H|[info [Hin Hi]]].
  - apply step1_records in H as [H|[Hrun Hc]]; [auto | | exact Hcons].
    right. exists x. cbn. auto.
  - right. exists info. cbn. auto.
Qed.

(** When every running container is settled, the first loop creates nothing. *)
Lemma phase1_settled (containers : list ContainerInfo) (w : World) :
  (forall info, In info containers -> is_running info = true -> settled out (heap w) info) ->
  managedRecords (heap (phase1 containers w)) = managedRecords (heap w)
  /\ creates (trace (phase1 containers w)) = creates (trace w).
Proof.
  revert w. induction containers as [|x containers IH]; intros w Hset; cbn [fold_left].
  - auto.
  - destruct (step1_settled config out x w) as [Hm Hc].
    { intros Hrun. apply Hset; [now left | exact Hrun]. }
    destruct (IH (after out (monitorContainer config [] x) w)) as [Hm' Hc'].
    { intros info Hin Hrun. specialize (Hset info (or_intror Hin) Hrun).
      unfold settled, has_records in *. now rewrite Hm. }
    split; congruence.
Qed.

(** When no request of the first loop fails, every running container is
    settled at its end. *)
Lemma phase1_settles (containers : list ContainerInfo) (w : World) (info : ContainerInfo) :
  inspect_consistent out ->
  existsb is_failed_create (trace (phase1 containers w)) = false ->
  In info containers -> is_running info = true ->
  settled out (heap (phase1 containers w)) info.
Proof.
  intros Hcons. revert w.
  induction containers as [|x containers IH]; intros w Hok; cbn [fold_left] in *.
  - intros [].
  - intros [->|Hin] Hrun; [| now apply IH].
    destruct (phase1_extends containers (after out (monitorContainer config [] info) w))
      as [new Htr].
    rewrite Htr in Hok. apply failed_create_persists in Hok.
    destruct (step1_settles config out info w Hcons Hrun Hok) as [H|H]; [left | now right].
    eapply has_records_incl; [apply phase1_keys | exact H].
Qed.

End FirstLoopWhole.

(** ** The second loop of the tick *)

Section SecondLoop.

Variable config : Config.
Variable out : Outside.

Lemma scheduleRecordDeletion_heap (cid : string) (w : World) :
  let w' := after out (scheduleRecordDeletion config cid) w in
  managedRecords (heap w') = managedRecords (heap w)
  /\ (forall c, Map_has c (deletePendingRecords (heap w'))
                = String.eqb c cid || Map_has c (deletePendingRecords (heap w)))
  /\ creates (trace w') = creates (trace w).
Proof.
  unfold after. rewrite run_scheduleRecordDeletion. cbn [snd]. cbv zeta.
  set (h := if Map_has cid _ then _ else heap w).
  assert (Hh : managedRecords h = managedRecords (heap w)
               /\ deletePendingRecords h = deletePendingRecords (heap w)).
  { unfold h. destruct (Map_has cid _); [| auto]. destruct (Map_get cid _); auto. }
  destruct Hh as [Hm Hp].
  cbn [heap trace managedRecords deletePendingRecords with_deletePendingRecords arm].
  repeat split.
  - exact Hm.
  - intros c. now rewrite Map_has_set, Hp.
  - unfold creates. rewrite filter_app. apply app_nil_r.
Qed.

Variable running : list string.

Abbreviation step2 w kr := (after out (scheduleIfStopped config running kr) w).

Lemma step2_eq (kr : string * ManagedRecord) (w : World) :
  step2 w kr =
  if negb (JS.Set_has (containerId (snd kr)) running)
     && negb (Map_has (containerId (snd kr)) (deletePendingRecords (heap w)))
  then after out (scheduleRecordDeletion config (containerId (snd kr))) w
  else w.
Proof. unfold after at 1. now rewrite run_scheduleIfStopped. Qed.

Lemma step2_heap (kr : string * ManagedRecord) (w : World) :
  managedRecords (heap (step2 w kr)) = managedRecords (heap w)
  /\ creates (trace (step2 w kr)) = creates (trace w)
  /\ (forall c, Map_has c (deletePendingRecords (heap w)) = true ->
                Map_has c (deletePendingRecords (heap (step2 w kr))) = true)
  /\ (forall c, JS.Set_has c running = true ->
                Map_has c (deletePendingRecords (heap (step2 w kr)))
                = Map_has c (deletePendingRecords (heap w)))
  /\ (JS.Set_has (containerId (snd kr)) running = true
      \/ Map_has (containerId (snd kr)) (deletePendingRecords (heap (step2 w kr))) = true).
Proof.
  rewrite step2_eq.
  destruct (JS.Set_has (containerId (snd kr)) running) eqn:Hrun; cbn [negb andb];
    [repeat split; auto |].
  destruct (Map_has (containerId (snd kr)) (deletePendingRecords (heap w))) eqn:Hpend;
    cbn [negb]; [repeat split; auto |].
  destruct (scheduleRecordDeletion_heap (containerId (snd kr)) w) as [Hm [Hp Hc]].
  repeat split; auto.
  - intros c Hc'. rewrite Hp, Hc'. apply orb_true_r.
  - intros c Hc'. rewrite Hp.
    destruct (String.eqb_spec c (containerId (snd kr))) as [->|Hne]; [congruence | reflexivity].
  - right. rewrite Hp, String.eqb_refl. reflexivity.
Qed.

Abbreviation phase2 records w :=
  (fold_left (fun w' kr => after out (scheduleIfStopped config running kr) w') records w).

Lemma phase2_heap (records : list (string * ManagedRecord)) (w : World) :
  managedRecords (heap (phase2 records w)) = managedRecords (heap w)
  /\ creates (trace (phase2 records w)) = creates (trace w)
  /\ (forall c, Map_has c (deletePendingRecords (heap w)) = true ->
                Map_has c (deletePendingRecords (heap (phase2 records w))) = true)
  /\ (forall c, JS.Set_has c running = true ->
                Map_has c (deletePendingRecords (heap (phase2 records w)))
                = Map_has c (deletePendingRecords (heap w)))
  /\ (forall kr, In kr records ->
                 JS.Set_has (containerId (snd kr)) running = true
                 \/ Map_has (containerId (snd kr))
                      (deletePendingRecords (heap (phase2 records w))) = true).
Proof.
  revert w. induction records as [|x records IH]; intros w; cbn [fold_left].
  - repeat split; auto; intros kr [].
  - destruct (step2_heap x w) as [Hm [Hc [Hgrow [Hrun Hx]]]].
    destruct (IH (after out (scheduleIfStopped config running x) w))
      as [Hm' [Hc' [Hgrow' [Hrun' Hall]]]].
    split; [congruence |]. split; [congruence |]. split; [auto |]. split.
    + intros c Hc''. rewrite Hrun' by exact Hc''. now apply Hrun.
    + intros kr [<-|Hin]; [| now apply Hall].
      destruct Hx as [Hx|Hx]; auto.
Qed.

(** When every record belongs to a running container or to one whose
    deletion is pending, the second loop does nothing. *)
Lemma phase2_idle (records : list (string * ManagedRecord)) (w : World) :
  (forall kr, In kr records ->
              JS.Set_has (containerId (snd kr)) running = true
              \/ Map_has (containerId (snd kr)) (deletePendingRecords (heap w)) = true) ->
  phase2 records w = w.
Proof.
  revert w. induction records as [|x records IH]; intros w Hall; cbn [fold_left];
    [reflexivity |].
  assert (Hx : after out (scheduleIfStopped config running x) w = w).
  { rewrite step2_eq. destruct (Hall x (or_introl eq_refl)) as [H|H]; rewrite H; cbn.
    - reflexivity.
    - now rewrite andb_false_r. }
  rewrite Hx. apply IH. intros kr Hin. apply Hall. now right.
Qed.

End SecondLoop.

(** ** One tick, and a second one *)

Section Tick.

Variable config : Config.
Variable out : Outside.

Lemma tick_eq (w : World) :
  after out (monitorContainers config) w =
  match docker_listContainers out with
  | Rejected _ => observe (EvLog ERROR "Error monitoring containers") w
  | Resolved containers =>
      let w1 := fold_left (fun w' info => after out (monitorContainer config [] info) w')
                  containers w in
      fold_left
        (fun w' kr => after out (scheduleIfStopped config (running_ids [] containers) kr) w')
        (managedRecords (heap w1)) w1
  end.
Proof. unfold after at 1. now rewrite run_monitorContainers. Qed.

Lemma running_ids_In (containers : list ContainerInfo) (info : ContainerInfo) :
  In info containers -> is_running info = true ->
  JS.Set_has (short_id info) (running_ids [] containers) = true.
Proof. intros Hin Hrun. apply running_ids_has. right. eauto. Qed.

(** The state a completed tick leaves: no running container has a pending
    deletion, and every record belongs to a running container or to a
    container whose deletion is pending. *)
Lemma tick_post (containers : list ContainerInfo) (w : World) :
  docker_listContainers out = Resolved containers ->
  let w' := after out (monitorContainers config) w in
  (forall info, In info containers -> is_running info = true ->
                Map_has (short_id info) (deletePendingRecords (heap w')) = false)
  /\ (forall kr, In kr (managedRecords (heap w')) ->
                 JS.Set_has (containerId (snd kr)) (running_ids [] containers) = true
                 \/ Map_has (containerId (snd kr)) (deletePendingRecords (heap w')) = true)
  /\ (inspect_consistent out ->
      existsb is_failed_create (trace w') = false ->
      forall info, In info containers -> is_running info = true ->
                   settled out (heap w') info).
Proof.
  intros Hlist. cbv zeta. rewrite tick_eq, Hlist. cbv zeta.
  set (w1 := fold_left _ containers w).
  destruct (phase2_heap config out (running_ids [] containers) (managedRecords (heap w1)) w1)
    as [Hm [_ [_ [Hrun Hall]]]].
  split; [| split].
  - intros info Hin Hr. rewrite Hrun by now apply running_ids_In.
    now apply phase1_cancels.
  - intros kr Hkr. rewrite Hm in Hkr. now apply Hall.
  - intros Hcons Hok info Hin Hr.
    assert (Hext : exists new, trace (fold_left
               (fun w' kr => after out
                               (scheduleIfStopped config (running_ids [] containers) kr) w')
               (managedRecords (heap w1)) w1) = trace w1 ++ new).
    { apply fold_extends. intros w' x. apply after_extends. }
    destruct Hext as [new Htr]. rewrite Htr in Hok. apply failed_create_persists in Hok.
    destruct (phase1_settles config out containers w info Hcons Hok Hin Hr) as [H|H];
      [left | now right].
    unfold has_records in *. now rewrite Hm.
Qed.

End Tick.

Lemma wants_records_ext (out1 out2 : Outside) (id : string) :
  docker_inspect out2 id = docker_inspect out1 id ->
  wants_records out2 id = wants_records out1 id.
Proof. unfold wants_records. now intros ->. Qed.

(** C1, as stated, fails: a request that the registrar turned down in the
    first tick is sent again by the second tick, although the listing of
    containers has not changed. *)
Lemma C1_counterexample :
  let w1 := exec_from failing_registrar (monitorContainers example_config) initial in
  let w2 := exec_from failing_registrar (monitorContainers example_config) (heap w1) in
  creates (trace w2)
  = [EvCreate "example.com" "app" "your-server.com" 3600
       (Rejected "Request failed with status code 500")]
  /\ creates (trace w2) <> [].
Proof. vm_compute. split; [reflexivity | discriminate]. Qed.

Lemma requested_ext (out1 out2 : Outside) (id : string) :
  docker_inspect out2 id = docker_inspect out1 id ->
  requested out2 id = requested out1 id.
Proof. unfold requested. now intros ->. Qed.

Lemma app_eq_self {X} (l a : list X) : l ++ a = l -> a = [].
Proof.
  intros E. rewrite <- (app_nil_r l) in E at 2. now apply app_inv_head in E.
Qed.

Section SecondTick.

Variable config : Config.
Variable out : Outside.

Local Abbreviation step1 w info := (after out (monitorContainer config [] info) w).
Local Abbreviation phase1 containers w :=
  (fold_left (fun w' info => after out (monitorContainer config [] info) w') containers w).

(** The requests that one container of the first loop adds: those of
    [createDNSRecordsForContainer] when it runs and owns no record, none
    otherwise. *)
Lemma step1_creates (info : ContainerInfo) (w : World) :
  exists results,
    List.length results = List.length (requested out (info_Id info))
    /\ creates (trace (step1 w info))
       = creates (trace w)
         ++ if is_running info && negb (has_records (short_id info) (heap w))
            then map (create_of config) (combine (requested out (info_Id info)) results)
            else [].
Proof.
  destruct (container_account config out (info_Id info) w) as [results [Hlen Hcr]].
  exists results. split; [exact Hlen |].
  rewrite step1_eq. destruct (is_running info); cbn [andb]; [| now rewrite app_nil_r].
  cbv zeta. destruct (has_records (short_id info) (heap w)); cbn [negb].
  - destruct (Map_has _ _); [rewrite cancel_pending_creates |]; now rewrite app_nil_r.
  - destruct (Map_has _ _); [rewrite cancel_pending_creates |]; exact Hcr.
Qed.

Lemma phase1_creates_extend (containers : list ContainerInfo) (w : World) :
  exists new, creates (trace (phase1 containers w)) = creates (trace w) ++ new.
Proof.
  destruct (phase1_extends config out containers w) as [new Htr].
  exists (creates new). rewrite Htr. unfold creates. apply filter_app.
Qed.

(** A first loop that sends no request went through settled containers
    only. *)
Lemma phase1_quiet (containers : list ContainerInfo) (w : World) :
  creates (trace (phase1 containers w)) = creates (trace w) ->
  forall info, In info containers -> is_running info = true -> settled out (heap w) info.
Proof.
  revert w. induction containers as [|x containers IH]; intros w Hquiet info Hin Hrun;
    [destruct Hin |].
  cbn [fold_left] in Hquiet.
  destruct (step1_creates x w) as [results [Hlen Hstep]].
  destruct (phase1_creates_extend containers (step1 w x)) as [new Hrest].
  rewrite Hrest, Hstep, <- app_assoc in Hquiet.
  apply app_eq_self, app_eq_nil in Hquiet as [Hnone Hnew].
  assert (Hx : is_running x = true -> settled out (heap w) x).
  { intros Hrx. rewrite Hrx in Hnone. cbn [andb] in Hnone.
    destruct (has_records (short_id x) (heap w)) eqn:Hhas; [now left | right].
    cbn [negb] in Hnone.
    destruct (wants_records out (info_Id x)) eqn:Hw; [| reflexivity].
    apply wants_requested in Hw.
    destruct (requested out (info_Id x)) as [|host l]; [congruence |].
    destruct results; discriminate. }
  destruct Hin as [->|Hin]; [now apply Hx |].
  destruct (step1_settled config out x w Hx) as [Hm _].
  assert (Hsettled : settled out (heap (step1 w x)) info).
  { apply (IH (step1 w x)); [| exact Hin | exact Hrun].
    rewrite Hrest, Hnew. apply app_nil_r. }
  unfold settled, has_records in *. now rewrite <- Hm.
Qed.

(** Every request of the first loop is for a host of a running container
    that owned no record when the loop began. *)
Lemma phase1_creates_from (containers : list ContainerInfo) (w : World) (e : Event) :
  In e (creates (trace (phase1 containers w))) ->
  In e (creates (trace w))
  \/ exists info host r,
       In info containers /\ is_running info = true
       /\ has_records (short_id info) (heap w) = false
       /\ In host (requested out (info_Id info))
       /\ e = create_for config host r.
Proof.
  revert w. induction containers as [|x containers IH]; intros w He; cbn [fold_left] in He;
    [now left |].
  apply IH in He as [He|[info [host [r [Hin [Hrun [Hhas [Hhost ->]]]]]]]].
  - destruct (step1_creates x w) as [results [Hlen Hstep]].
    rewrite Hstep in He. apply in_app_or in He as [He|He]; [now left |].
    destruct (is_running x) eqn:Hrx; [| destruct He].
    destruct (has_records (short_id x) (heap w)) eqn:Hhas; [destruct He |].
    cbn [andb negb] in He. apply in_map_iff in He as [[host r] [<- Hin]].
    right. exists x, host, r. repeat split; auto.
    + now left.
    + eapply in_combine_l; eauto.
  - right. exists info, host, r. repeat split; auto.
    + now right.
    + destruct (has_records (short_id info) (heap w)) eqn:E; [| reflexivity].
      rewrite (has_records_incl (short_id info) (heap w) (heap (step1 w x))) in Hhas;
        [discriminate | apply step1_keys | exact E].
Qed.

End SecondTick.

(** C1, amended.  After a tick, a second tick with the same listing and the
    same inspections, whatever the registrar answers, sends no request for
    deletion.  It sends no request for creation exactly when every running
    container listed is settled after the first tick: it owns at least one
    record, or no request would be sent for it.  It then leaves the whole
    heap as it is, timers and pending deletions included; and every request
    it does send is for a host of a running container that the first tick
    left without any record.  When the runtime answers an inspection with
    the container asked for, the second tick arms and cancels no timer and
    leaves the pending deletions as they are in every case, and sends no
    request when no request of the first tick failed. *)
Theorem C1_second_tick (config : Config) (out1 out2 : Outside) (h0 : Heap) :
  docker_listContainers out2 = docker_listContainers out1 ->
  (forall id, docker_inspect out2 id = docker_inspect out1 id) ->
  let w1 := exec_from out1 (monitorContainers config) h0 in
  let w2 := exec_from out2 (monitorContainers config) (heap w1) in
  deletes (trace w2) = []
  /\ (forall e, docker_listContainers out1 = Rejected e ->
                creates (trace w2) = [] /\ heap w2 = heap w1)
  /\ (forall containers,
        docker_listContainers out1 = Resolved containers ->
        (creates (trace w2) = [] <->
         forall info, In info containers -> is_running info = true ->
                      settled out1 (heap w1) info)
        /\ ((forall info, In info containers -> is_running info = true ->
                          settled out1 (heap w1) info) ->
            heap w2 = heap w1)
        /\ (forall e, In e (creates (trace w2)) ->
              exists info host r,
                In info containers /\ is_running info = true
                /\ has_records (short_id info) (heap w1) = false
                /\ In host (requested out1 (info_Id info))
                /\ e = create_for config host r))
  /\ (inspect_consistent out1 ->
      same_timers (heap w1) (heap w2)
      /\ (existsb is_failed_create (trace w1) = false ->
          creates (trace w2) = [] /\ heap w2 = heap w1)).
Proof.
  intros Hlist Hinspect. cbv zeta. rewrite !exec_from_after.
  set (w1 := after out1 (monitorContainers config) {| heap := h0; trace := [] |}).
  split.
  { destruct (monitorContainers_events config out2 {| heap := heap w1; trace := [] |})
      as [new [Htr Hnew]].
    unfold after. rewrite Htr. cbn [trace app]. apply filter_none.
    eapply Forall_impl; [| exact Hnew]. cbn. tauto. }
  destruct (docker_listContainers out1) as [containers|e] eqn:Hlist1.
  2: { rewrite tick_eq, Hlist. cbn.
       split; [auto |]. split; [intros ? [=] |]. intros _. repeat split; auto. }
  split; [intros ? [=] |].
  destruct (tick_post config out1 containers {| heap := h0; trace := [] |} Hlist1)
    as [Hnone [Hall Hsettled]].
  fold w1 in Hnone, Hall, Hsettled.
  rewrite tick_eq, Hlist. cbv zeta.
  set (p1 := fold_left _ containers {| heap := heap w1; trace := [] |}).
  set (w2 := fold_left _ (managedRecords (heap p1)) p1).
  destruct (phase2_heap config out2 (running_ids [] containers) (managedRecords (heap p1)) p1)
    as [_ [Hcr2 _]].
  fold w2 in Hcr2.
  assert (Hsame : same_timers (heap w1) (heap p1)).
  { apply (phase1_same_timers config out2 containers {| heap := heap w1; trace := [] |}).
    exact Hnone. }
  assert (Hext : forall info, settled out1 (heap w1) info <-> settled out2 (heap w1) info).
  { intros info. unfold settled. now rewrite (wants_records_ext out1 out2). }
  assert (Hquiet : (forall info, In info containers -> is_running info = true ->
                                 settled out1 (heap w1) info) ->
                   creates (trace w2) = [] /\ heap w2 = heap w1).
  { intros Hset.
    destruct (phase1_settled config out2 containers {| heap := heap w1; trace := [] |})
      as [Hm Hc].
    { intros info Hin Hrun. apply Hext. now apply Hset. }
    fold p1 in Hm, Hc. cbn [heap trace] in Hm, Hc.
    assert (Hidle : w2 = p1).
    { apply phase2_idle. intros kr Hkr. rewrite Hm in Hkr.
      destruct Hsame as [Hp _]. rewrite Hp. now apply Hall. }
    rewrite Hidle. split; [exact Hc |].
    destruct Hsame as [Hp [Ht Hn]].
    destruct (heap p1), (heap w1). cbn in *. congruence. }
  split.
  { intros cs [= <-]. split; [split |]; [| apply Hquiet | split; [apply Hquiet |]].
    - intros Hnil info Hin Hrun. apply Hext.
      apply (phase1_quiet config out2 containers {| heap := heap w1; trace := [] |});
        [| exact Hin | exact Hrun].
      fold p1. rewrite <- Hcr2. exact Hnil.
    - intros e He. rewrite Hcr2 in He.
      apply (phase1_creates_from config out2 containers {| heap := heap w1; trace := [] |})
        in He as [[]|[info [host [r [Hin [Hrun [Hhas [Hhost ->]]]]]]]].
      exists info, host, r. repeat split; auto.
      now rewrite <- (requested_ext out1 out2). }
  intros Hcons.
  assert (Hcons2 : inspect_consistent out2).
  { intros id info Hi. rewrite Hinspect in Hi. now apply Hcons. }
  assert (Hidle : w2 = p1).
  { apply phase2_idle. intros kr Hkr.
    apply (phase1_records config out2 containers {| heap := heap w1; trace := [] |} kr Hcons2)
      in Hkr as [Hkr|[info [Hin [Hrun Hc]]]].
    - destruct Hsame as [Hp _]. rewrite Hp. now apply Hall.
    - left. rewrite Hc. now apply running_ids_In. }
  split; [now rewrite Hidle |].
  intros Hok. apply Hquiet. intros info Hin Hrun. now apply Hsettled.
Qed.

Lemma C1_second_tick_witness :
  let w1 := exec_from picky_registrar (monitorContainers example_config) initial in
  let w2 := exec_from picky_registrar (monitorContainers example_config) (heap w1) in
  existsb is_failed_create (trace w1) = true
  /\ deletes (trace w2) = []
  /\ creates (trace w2) = []
  /\ heap w2 = heap w1.
Proof.
  destruct (C1_second_tick example_config picky_registrar picky_registrar initial)
    as [Hdel [_ [Hlisted _]]].
  - reflexivity.
  - reflexivity.
  - cbv zeta. destruct (Hlisted [example_container] eq_refl) as [Hiff [Hheap _]].
    assert (Hset : forall info, In info [example_container] -> is_running info = true ->
                     settled picky_registrar
                       (heap (exec_from picky_registrar (monitorContainers example_config)
                                initial)) info).
    { intros info [<-|[]] _. left. vm_compute. reflexivity. }
    split; [vm_compute; reflexivity |]. split; [exact Hdel |].
    split; [now apply Hiff | now apply Hheap].
Defined.

Lemma append_cancel (p a b : string) : (p ++ a = p ++ b)%string -> a = b.
Proof.
  induction p as [|c p IH]; cbn; [auto |]. intros H. injection H as H. auto.
Qed.

(** The first tick of a process that sees one running container only
    creates the records of that container. *)
Lemma first_tick_one_container (config : Config) (out : Outside) (id : string) :
  docker_listContainers out = Resolved [{| info_Id := id; info_State := "running" |}] ->
  (forall info, docker_inspect out id = Resolved info -> Id info = id) ->
  exec_from out (monitorContainers config) initial
  = after out (createDNSRecordsForContainer config id) {| heap := initial; trace := [] |}.
Proof.
  intros Hlist Hcons. rewrite exec_from_after, tick_eq, Hlist. cbv zeta.
  cbn [fold_left]. rewrite step1_eq.
  change (is_running {| info_Id := id; info_State := "running" |}) with true.
  cbv iota zeta. cbn [has_records heap initial managedRecords Map_keys map existsb info_Id].
  set (w1 := after out (createDNSRecordsForContainer config id) _).
  destruct (createDNSRecordsForContainer_frame config out id {| heap := initial; trace := [] |})
    as [[Hp _] _].
  fold w1 in Hp. rewrite Hp. cbn [heap initial deletePendingRecords Map_has existsb].
  apply phase2_idle. intros kr Hkr. left.
  apply createDNSRecordsForContainer_records in Hkr as [[]|[info [Hi Hc]]].
  rewrite Hc, (Hcons _ Hi).
  apply (running_ids_In [{| info_Id := id; info_State := "running" |}]
           {| info_Id := id; info_State := "running" |}); [now left | reflexivity].
Qed.

(** C8.  Every request of [createDNSRecordsForContainer] carries the TTL
    3600, and as target the configured target domain when that is not empty,
    the host itself otherwise.  In the scenario of one running container
    whose rule names [app.example.com] between backticks, the first tick
    sends two requests, not one: the one expected, and one for the same name
    still wrapped in its backticks; when the registrar accepts both, two
    records are stored. *)
Theorem C8_target_ttl_and_scenario (config : Config) (out : Outside) (id : string) :
  (forall h d n t ttl r,
      In (EvCreate d n t ttl r)
        (trace (exec_from out (createDNSRecordsForContainer config id) h)) ->
      ttl = 3600%Z
      /\ (targetDomain config <> EmptyString -> t = targetDomain config)
      /\ (targetDomain config = EmptyString -> t = (n ++ "." ++ d)%string))
  /\ (docker_listContainers out = Resolved [{| info_Id := id; info_State := "running" |}] ->
      docker_inspect out id = Resolved {| Id := id; Config_Labels := Some scenario_labels |} ->
      let w' := exec_from out (monitorContainers config) initial in
      exists r1 r2,
        creates (trace w')
        = [EvCreate "example.com" "app"
             (JS.or_ (targetDomain config) "app.example.com") 3600 r1;
           EvCreate "example.com`" "`app"
             (JS.or_ (targetDomain config) "`app.example.com`") 3600 r2]
        /\ (forall i1 i2, r1 = Resolved i1 -> r2 = Resolved i2 ->
            Map_keys (managedRecords (heap w'))
            = [(String.substring 0 12 id ++ "-app.example.com")%string;
               (String.substring 0 12 id ++ "-`app.example.com`")%string])).
Proof.
  split.
  - intros h d n t ttl r He.
    destruct (container_creates config out id h _ He eq_refl)
      as [info [host [r' [_ [_ [_ [Hv E]]]]]]].
    injection E as -> -> -> -> _.
    rewrite (valid_host_rejoined host Hv).
    split; [reflexivity |]. apply or_target.
  - intros Hlist Hinspect. cbv zeta.
    rewrite (first_tick_one_container config out id Hlist)
      by (intros info Hi; rewrite Hinspect in Hi; now injection Hi as <-).
    unfold after. rewrite run_createDNSRecordsForContainer, Hinspect. cbn [snd].
    cbv zeta. cbn [Config_Labels labels_or_empty Id].
    change (negb (JS.strict_eq (label scenario_labels "traefik.enable") "true")) with false.
    change (extractTraefikHosts scenario_labels) with ["app.example.com"; "`app.example.com`"].
    cbn [List.length Nat.eqb fold_left]. cbv iota.
    unfold after. rewrite !run_createDNSRecordForHost. cbn [snd].
    change (valid_host "app.example.com") with true.
    change (valid_host "`app.example.com`") with true.
    change (domain_of "app.example.com") with "example.com".
    change (subdomain_of "app.example.com") with "app".
    change (domain_of "`app.example.com`") with "example.com`".
    change (subdomain_of "`app.example.com`") with "`app".
    cbv iota zeta. cbn [trace app heap].
    destruct (registrar_post out [] "example.com" "app" _ 3600) as [i1|e1]; cbn [trace heap];
      match goal with
      | |- context [registrar_post out ?tr ?d ?n ?t ?ttl] =>
          destruct (registrar_post out tr d n t ttl) as [i2|e2]
      end;
      cbn [trace heap app creates filter is_create];
      eexists; eexists; (split; [reflexivity |]); intros j1 j2 E1 E2;
      try discriminate.
    cbn [managedRecords with_managedRecords initial Map_set].
    destruct (String.eqb_spec (String.substring 0 12 id ++ "-" ++ "app.example.com")
                (String.substring 0 12 id ++ "-" ++ "`app.example.com`")) as [E|_].
    + apply append_cancel in E. discriminate.
    + reflexivity.
Qed.

Lemma C8_target_ttl_and_scenario_witness :
  (3600 = 3600
   /\ (targetDomain example_config <> EmptyString ->
       "your-server.com" = targetDomain example_config)
   /\ (targetDomain example_config = EmptyString ->
       "your-server.com" = ("app" ++ "." ++ "example.com")%string))%Z
  /\ exists r1 r2,
       creates (trace (exec_from
                         (example_outside (Resolved [example_container]) scenario_labels
                            (Resolved "4711") (Resolved tt))
                         (monitorContainers example_config) initial))
       = [EvCreate "example.com" "app" (JS.or_ "your-server.com" "app.example.com") 3600 r1;
          EvCreate "example.com`" "`app" (JS.or_ "your-server.com" "`app.example.com`") 3600 r2]
       /\ (forall i1 i2, r1 = Resolved i1 -> r2 = Resolved i2 ->
           Map_keys (managedRecords
                       (heap (exec_from
                                (example_outside (Resolved [example_container]) scenario_labels
                                   (Resolved "4711") (Resolved tt))
                                (monitorContainers example_config) initial)))
           = [(String.substring 0 12 example_id ++ "-app.example.com")%string;
              (String.substring 0 12 example_id ++ "-`app.example.com`")%string]).
Proof.
  split.
  - apply (proj1 (C8_target_ttl_and_scenario example_config accepting_registrar example_id)
             initial "example.com" "app" "your-server.com" 3600%Z (Resolved "4711")).
    vm_compute. auto.
  - apply (proj2 (C8_target_ttl_and_scenario example_config
                    (example_outside (Resolved [example_container]) scenario_labels
                       (Resolved "4711") (Resolved tt))
                    example_id)).
    + reflexivity.
    + reflexivity.
Defined.

(** ** Firing a deletion *)

Section Firing.

Variable out : Outside.

Lemma run_deleteManagedRecord (kr : string * ManagedRecord) (w : World) :
  run out (deleteManagedRecord kr) w =
  (Resolved tt,
   match registrar_delete out (trace w) (domain (snd kr)) (recordId (snd kr)) with
   | Resolved u =>
       {| heap := with_managedRecords (Map_delete (fst kr)) (heap w);
          trace := trace w
                   ++ [delete_of (kr, Resolved u);
                       EvLog INFO "Deleted DNS record";
                       EvLog INFO "DNS record deleted for stopped container"] |}
   | Rejected e =>
       {| heap := heap w;
          trace := trace w
                   ++ [delete_of (kr, Rejected e);
                       EvLog ERROR "Failed to delete DNS record";
                       EvLog ERROR "Failed to delete DNS record for stopped container"] |}
   end).
Proof.
  unfold deleteManagedRecord, SimplyAPI.deleteRecord, delete_of. run_simpl.
  destruct (registrar_delete out (trace w) (domain (snd kr)) (recordId (snd kr))) as [u|e];
    run_simpl; world_simpl; rewrite <- !app_assoc; reflexivity.
Qed.

Lemma run_deletionCallback (cid : string) (w : World) :
  run out (deletionCallback cid) w =
  (Resolved tt,
   on_heap (with_deletePendingRecords (Map_delete cid))
     (fold_left (fun w' kr => after out (deleteManagedRecord kr) w')
        (filter (owned_by cid) (managedRecords (heap w))) w)).
Proof.
  unfold deletionCallback. run_simpl. rewrite run_try_catch, run_bind.
  rewrite run_for_each by (intros; now rewrite run_deleteManagedRecord).
  reflexivity.
Qed.

Lemma delete_step (kr : string * ManagedRecord) (w : World) :
  let w' := after out (deleteManagedRecord kr) w in
  exists r,
    deletes (trace w') = deletes (trace w) ++ [delete_of (kr, r)]
    /\ creates (trace w') = creates (trace w)
    /\ same_timers (heap w) (heap w')
    /\ managedRecords (heap w')
       = if succeeded r then Map_delete (fst kr) (managedRecords (heap w))
         else managedRecords (heap w).
Proof.
  cbv zeta. unfold after. rewrite run_deleteManagedRecord. cbn [snd].
  destruct (registrar_delete out (trace w) (domain (snd kr)) (recordId (snd kr))) as [u|e];
    [exists (Resolved u) | exists (Rejected e)];
    cbn [heap trace]; unfold deletes, creates; rewrite !filter_app; cbn;
    rewrite ?app_nil_r; repeat split.
Qed.

(** The table after the requests for [recs] had the outcomes [results]. *)
Lemma delete_loop (recs : list (string * ManagedRecord)) (w : World) :
  let w' := fold_left (fun w' kr => after out (deleteManagedRecord kr) w') recs w in
  exists results,
    List.length results = List.length recs
    /\ deletes (trace w') = deletes (trace w) ++ map delete_of (combine recs results)
    /\ creates (trace w') = creates (trace w)
    /\ same_timers (heap w) (heap w')
    /\ managedRecords (heap w')
       = fold_left (fun m kr_r => if succeeded (snd kr_r)
                                  then Map_delete (fst (fst kr_r)) m else m)
           (combine recs results) (managedRecords (heap w)).
Proof.
  cbv zeta. revert w. induction recs as [|kr recs IH]; intros w; cbn [fold_left].
  - exists []. cbn. rewrite app_nil_r. repeat split.
  - destruct (delete_step kr w) as [r [Hdel1 [Hcr1 [[Hp1 [Ht1 Hn1]] Hm1]]]].
    destruct (IH (after out (deleteManagedRecord kr) w))
      as [results [Hlen [Hdel [Hcr [[Hp [Ht Hn]] Hm]]]]].
    exists (r :: results). cbn [List.length combine map fold_left fst snd].
    split; [now rewrite Hlen |].
    split; [now rewrite Hdel, Hdel1, <- app_assoc |].
    split; [congruence |].
    split; [repeat split; congruence |].
    now rewrite Hm, Hm1.
Qed.

End Firing.

Lemma NoDup_keys_unique {V} (m : JSMap V) (k : string) (a b : V) :
  NoDup (Map_keys m) -> In (k, a) m -> In (k, b) m -> a = b.
Proof.
  unfold Map_keys. induction m as [|[k' v] m IH]; cbn; [intros _ [] |].
  intros Hnd Ha Hb. inversion Hnd as [|? ? Hnotin Hnd']; subst.
  destruct Ha as [Ha|Ha], Hb as [Hb|Hb].
  - congruence.
  - injection Ha as -> ->. contradiction Hnotin.
    apply in_map_iff. exists (k, b). auto.
  - injection Hb as -> ->. contradiction Hnotin.
    apply in_map_iff. exists (k, a). auto.
  - now apply IH.
Qed.

Lemma Map_delete_In_iff {V} (k : string) (m : JSMap V) (kv : string * V) :
  In kv (Map_delete k m) <-> In kv m /\ fst kv <> k.
Proof.
  unfold Map_delete. rewrite filter_In. split; intros [H1 H2]; split; auto.
  - apply negb_true_iff in H2. now apply String.eqb_neq.
  - apply negb_true_iff. now apply String.eqb_neq.
Qed.

Lemma fold_delete_In (pairs : list ((string * ManagedRecord) * Result unit))
    (m : JSMap ManagedRecord) (kr : string * ManagedRecord) :
  In kr (fold_left (fun m' p => if succeeded (snd p) then Map_delete (fst (fst p)) m' else m')
           pairs m)
  <-> In kr m /\ forall p, In p pairs -> succeeded (snd p) = true -> fst (fst p) <> fst kr.
Proof.
  revert m. induction pairs as [|p pairs IH]; intros m; cbn [fold_left].
  - split; [intros H; split; [exact H | intros p []] | tauto].
  - rewrite IH. destruct (succeeded (snd p)) eqn:Hs.
    + rewrite Map_delete_In_iff. split.
      * intros [[Hin Hne] Hall]. split; [exact Hin |].
        intros q [<-|Hq] Hq'; [congruence | auto].
      * intros [Hin Hall]. repeat split; auto.
        -- intros E. apply (Hall p); cbn; auto.
        -- intros q Hq. apply Hall. now right.
    + split.
      * intros [Hin Hall]. split; [exact Hin |].
        intros q [<-|Hq] Hq'; [congruence | auto].
      * intros [Hin Hall]. split; [exact Hin |]. intros q Hq. apply Hall. now right.
Qed.

(** C6.  When the deletion callback of a container runs, it sends one
    request for deletion per record that the container owns, in the order of
    the table; a record leaves the table exactly when it is one of these and
    its request succeeded; no other record is touched and no request for
    creation is sent; and at the end the pending deletion of the container
    is removed, whatever the outcomes were. *)
Theorem C6_deletion_firing (out : Outside) (cid : string) (h : Heap) :
  NoDup (Map_keys (managedRecords h)) ->
  let owned := filter (owned_by cid) (managedRecords h) in
  let w' := exec_from out (deletionCallback cid) h in
  exists results : list (Result unit),
    List.length results = List.length owned
    /\ deletes (trace w') = map delete_of (combine owned results)
    /\ creates (trace w') = []
    /\ (forall kr,
          In kr (managedRecords (heap w')) <->
          In kr (managedRecords h)
          /\ ~ (exists r, In (kr, r) (combine owned results) /\ succeeded r = true))
    /\ deletePendingRecords (heap w') = Map_delete cid (deletePendingRecords h)
    /\ timers (heap w') = timers h
    /\ nextTimer (heap w') = nextTimer h.
Proof.
  intros Hnd. cbv zeta. unfold exec_from. rewrite run_deletionCallback. cbn [snd heap].
  destruct (delete_loop out (filter (owned_by cid) (managedRecords h))
              {| heap := h; trace := [] |})
    as [results [Hlen [Hdel [Hcr [[Hp [Ht Hn]] Hm]]]]].
  cbn [heap trace] in *.
  exists results. unfold on_heap. cbn [heap trace].
  split; [exact Hlen |]. split; [exact Hdel |]. split; [exact Hcr |].
  split; [| cbn [deletePendingRecords timers nextTimer with_deletePendingRecords];
            rewrite Hp, Ht, Hn; repeat split].
  intros kr. cbn [managedRecords with_deletePendingRecords].
  rewrite Hm, fold_delete_In. split.
  - intros [Hin Hall]. split; [exact Hin |].
    intros [r [Hr Hs]]. apply (Hall (kr, r) Hr Hs). reflexivity.
  - intros [Hin Hnone]. split; [exact Hin |].
    intros [kr' r] Hp' Hs E. cbn in *. apply Hnone. exists r. split; [| exact Hs].
    assert (Hin' : In kr' (managedRecords h)).
    { apply in_combine_l in Hp'. now apply filter_In in Hp'. }
    destruct kr as [k v], kr' as [k' v']. cbn in E. subst k'.
    now rewrite (NoDup_keys_unique _ _ _ _ Hnd Hin Hin').
Qed.

Lemma C6_deletion_firing_witness :
  exists results : list (Result unit),
    List.length results = List.length (filter (owned_by "0123456789ab") (managedRecords pending_heap))
    /\ deletes (trace (exec_from failing_registrar (deletionCallback "0123456789ab") pending_heap))
       = map delete_of (combine (filter (owned_by "0123456789ab") (managedRecords pending_heap))
                          results)
    /\ creates (trace (exec_from failing_registrar (deletionCallback "0123456789ab") pending_heap))
       = []
    /\ (forall kr,
          In kr (managedRecords
                   (heap (exec_from failing_registrar (deletionCallback "0123456789ab")
                            pending_heap))) <->
          In kr (managedRecords pending_heap)
          /\ ~ (exists r, In (kr, r)
                            (combine (filter (owned_by "0123456789ab")
                                        (managedRecords pending_heap)) results)
                          /\ succeeded r = true))
    /\ deletePendingRecords
         (heap (exec_from failing_registrar (deletionCallback "0123456789ab") pending_heap))
       = Map_delete "0123456789ab" (deletePendingRecords pending_heap)
    /\ timers (heap (exec_from failing_registrar (deletionCallback "0123456789ab") pending_heap))
       = timers pending_heap
    /\ nextTimer (heap (exec_from failing_registrar (deletionCallback "0123456789ab")
                          pending_heap))
       = nextTimer pending_heap.
Proof.
  apply (C6_deletion_firing failing_registrar "0123456789ab" pending_heap).
  cbn. repeat constructor. intros [].
Defined.

(** ** Invariants of the process *)

Lemma filter_map_NoDup {X Y} (f : X -> Y) (p : X -> bool) (l : list X) :
  NoDup (map f l) -> NoDup (map f (filter p l)).
Proof.
  induction l as [|x l IH]; cbn; intros Hnd; [constructor |].
  inversion Hnd as [|? ? Hnotin Hnd']; subst.
  destruct (p x); cbn; [| now apply IH].
  constructor; [| now apply IH].
  intros Hin. apply Hnotin. apply in_map_iff in Hin as [y [Hy Hin]].
  apply filter_In in Hin as [Hin _]. apply in_map_iff. eauto.
Qed.

Lemma NoDup_snoc {X} (l : list X) (x : X) :
  NoDup l -> ~ In x l -> NoDup (l ++ [x]).
Proof.
  induction l as [|y l IH]; cbn; intros Hnd Hx.
  - repeat constructor. intros [].
  - inversion Hnd as [|? ? Hnotin Hnd']; subst. constructor.
    + intros Hin. apply in_app_or in Hin as [Hin|[->|[]]]; auto.
    + apply IH; auto.
Qed.

(** Every update of the heap keeps it well formed. *)
Lemma HeapOp_well_formed (f : Heap -> Heap) (h : Heap) :
  HeapOp f -> well_formed h -> well_formed (f h).
Proof.
  intros Hop [Hm Hp Hh Hf]. destruct Hop; constructor; cbn; auto.
  - now apply Map_set_NoDup.
  - now apply Map_delete_NoDup.
  - now apply Map_set_NoDup.
  - now apply Map_delete_NoDup.
  - rewrite map_app. cbn. apply NoDup_snoc; [exact Hh |].
    intros Hin. apply in_map_iff in Hin as [x [Hx Hin]]. apply Hf in Hin. lia.
  - intros x Hin. apply in_app_or in Hin as [Hin|[<-|[]]]; cbn; [| lia].
    apply Hf in Hin. lia.
  - now apply filter_map_NoDup.
  - intros x Hin. apply filter_In in Hin as [Hin _]. now apply Hf.
Qed.

Lemma initial_well_formed : well_formed initial.
Proof. constructor; cbn; try constructor. intros t []. Qed.

(** The tasks that the event loop starts use these updates only. *)
Lemma Within_task_monitorContainers (config : Config) :
  Within HeapOp (fun _ => True) (monitorContainers config).
Proof. apply Within_monitorContainers; auto; constructor. Qed.

Lemma Within_api_sync (config : Config) (now : string) :
  Within HeapOp (fun _ => True) (api_sync config now).
Proof.
  unfold api_sync. apply Within_try_catch; [| intros; within].
  apply Within_bind; [within | intros _].
  apply Within_bind; [apply Within_task_monitorContainers | intros; within].
Qed.

Lemma Within_task_deletionCallback (cid : string) :
  Within HeapOp (fun _ => True) (deletionCallback cid).
Proof. apply Within_deletionCallback; auto; constructor. Qed.

Lemma Within_api_health (config : Config) (now : string) :
  Within HeapOp (fun _ => True) (api_health config now).
Proof. unfold api_health. within. Qed.

Section Turns.

Variable ops : (Heap -> Heap) -> Prop.
Variable evs : Event -> Prop.
Variable I : Heap -> Prop.
Hypothesis ops_keep : forall f h, ops f -> I h -> I (f h).

Lemma advance_keeps (p : Prog unit) (w : World) :
  Within ops evs p -> I (heap w) ->
  I (heap (fst (advance p w)))
  /\ forall q, snd (advance p w) = Some q -> Within ops evs q.
Proof.
  intros Hp. revert w. induction Hp; intros w Hw; cbn [advance];
    try (split; [exact Hw | intros q Hq; cbn in Hq; try discriminate;
                            injection Hq as <-; now constructor]).
  - auto.
  - apply IHHp. cbn. now apply ops_keep.
  - now apply IHHp.
Qed.

Lemma resume_keeps (p q : Prog unit) (r : Reply) (new : list Event) :
  Within ops evs p -> resume p r = Some (q, new) -> Within ops evs q.
Proof.
  intros Hp. destruct Hp; destruct r; cbn; intros E; try discriminate;
    injection E as <- _; auto.
Qed.

Lemma replace_task_keeps (i : nat) (q : option (Prog unit)) (tasks : list (Prog unit)) :
  Forall (Within ops evs) tasks ->
  (forall x, q = Some x -> Within ops evs x) ->
  Forall (Within ops evs) (replace_task i q tasks).
Proof.
  intros Ht Hq. revert i. induction Ht as [|x tasks Hx Ht IH]; intros i; cbn.
  - destruct i; constructor.
  - destruct i as [|j].
    + destruct q as [y|]; [constructor; auto | exact Ht].
    + constructor; auto.
Qed.

Lemma spawn_keeps (p : Prog unit) (s : Process) :
  Within ops evs p -> I (p_heap s) -> Forall (Within ops evs) (p_tasks s) ->
  I (p_heap (spawn p s)) /\ Forall (Within ops evs) (p_tasks (spawn p s)).
Proof.
  intros Hp Hs Ht. unfold spawn.
  destruct (advance_keeps p {| heap := p_heap s; trace := p_trace s |} Hp Hs) as [Hh Hq].
  destruct (advance p _) as [w q]. cbn in *. split; [exact Hh |].
  apply Forall_app. split; [exact Ht |].
  destruct q as [x|]; [| constructor]. constructor; [| constructor]. now apply Hq.
Qed.

End Turns.

Lemma turn_well_formed (config : Config) (s s' : Process) (a : Action) :
  turn config s a = Some s' ->
  well_formed (p_heap s) /\ Forall (Within HeapOp (fun _ => True)) (p_tasks s) ->
  well_formed (p_heap s') /\ Forall (Within HeapOp (fun _ => True)) (p_tasks s').
Proof.
  intros Hturn [Hwf Htasks].
  pose proof HeapOp_well_formed as Hkeep.
  destruct a as [|now|now|t|i r]; unfold turn in Hturn.
  - injection Hturn as <-. apply spawn_keeps with (I := well_formed); auto.
    apply Within_task_monitorContainers.
  - injection Hturn as <-. apply spawn_keeps with (I := well_formed); auto.
    apply Within_api_sync.
  - injection Hturn as <-. apply spawn_keeps with (I := well_formed); auto.
    apply Within_api_health.
  - destruct (find _ _) as [x|]; [| discriminate]. injection Hturn as <-.
    apply spawn_keeps with (I := well_formed); auto.
    + apply Within_task_deletionCallback.
    + cbn. apply Hkeep; [constructor | exact Hwf].
  - destruct (nth_error (p_tasks s) i) as [p|] eqn:Hnth; [| discriminate].
    destruct (resume p r) as [[q new]|] eqn:Hres; [| discriminate].
    assert (Hp : Within HeapOp (fun _ => True) p).
    { rewrite Forall_forall in Htasks. apply Htasks. eapply nth_error_In; eauto. }
    pose proof (resume_keeps _ _ p q r new Hp Hres) as Hq.
    destruct (advance_keeps HeapOp (fun _ => True) well_formed Hkeep q
                {| heap := p_heap s; trace := p_trace s ++ new |} Hq Hwf) as [Hh Hq'].
    destruct (advance q _) as [w q']. injection Hturn as <-. cbn in *.
    split; [exact Hh |]. now apply replace_task_keeps.
Qed.

Lemma turns_well_formed (config : Config) (acts : list Action) (s s' : Process) :
  turns config s acts = Some s' ->
  well_formed (p_heap s) /\ Forall (Within HeapOp (fun _ => True)) (p_tasks s) ->
  well_formed (p_heap s') /\ Forall (Within HeapOp (fun _ => True)) (p_tasks s').
Proof.
  revert s. induction acts as [|a acts IH]; intros s; cbn.
  - now intros [= <-].
  - destruct (turn config s a) as [s1|] eqn:Hturn; [| discriminate].
    intros Hrest Hs. apply (IH s1 Hrest). eapply turn_well_formed; eauto.
Qed.

(** In every state the process can reach, whatever the interleaving of
    ticks, requests, timers and replies, the heap is well formed. *)
Lemma reachable_well_formed (config : Config) (s : Process) :
  reachable config s -> well_formed (p_heap s).
Proof.
  intros [acts Hacts].
  apply (turns_well_formed config acts boot s Hacts).
  split; [apply initial_well_formed | constructor].
Qed.

Lemma Map_get_has {V} (k : string) (m : JSMap V) (v : V) :
  Map_get k m = Some v -> Map_has k m = true.
Proof.
  unfold Map_get, Map_has. induction m as [|[a b] m IH]; cbn; [discriminate |].
  destruct (String.eqb a k); cbn; auto.
Qed.

Lemma Map_get_set {V} (k : string) (v : V) (m : JSMap V) :
  Map_get k (Map_set k v m) = Some v.
Proof.
  unfold Map_get. induction m as [|[a b] m IH]; cbn.
  - now rewrite String.eqb_refl.
  - destruct (String.eqb a k) eqn:E; cbn.
    + now rewrite String.eqb_refl.
    + now rewrite E.
Qed.

Lemma Map_set_keys_present {V} (k : string) (v : V) (m : JSMap V) :
  Map_has k m = true -> Map_keys (Map_set k v m) = Map_keys m.
Proof.
  unfold Map_has, Map_keys. induction m as [|[a b] m IH]; cbn; [discriminate |].
  destruct (String.eqb_spec a k) as [->|Hne]; cbn; [reflexivity |].
  intros H. now rewrite IH.
Qed.

Lemma Map_get_set_other {V} (k k' : string) (v : V) (m : JSMap V) :
  k <> k' -> Map_get k (Map_set k' v m) = Map_get k m.
Proof.
  intros Hne. unfold Map_get. induction m as [|[a b] m IH]; cbn.
  - destruct (String.eqb k' k) eqn:E; [| reflexivity].
    apply String.eqb_eq in E. congruence.
  - destruct (String.eqb a k') eqn:E; cbn.
    + apply String.eqb_eq in E. subst a.
      destruct (String.eqb k' k) eqn:E'; [| reflexivity].
      apply String.eqb_eq in E'. congruence.
    + destruct (String.eqb a k); [reflexivity | exact IH].
Qed.

Lemma Map_get_delete_other {V} (k k' : string) (m : JSMap V) :
  k <> k' -> Map_get k (Map_delete k' m) = Map_get k m.
Proof.
  intros Hne. unfold Map_get, Map_delete. induction m as [|[a b] m IH]; cbn; [reflexivity |].
  destruct (String.eqb a k') eqn:E; cbn.
  - apply String.eqb_eq in E. subst a.
    destruct (String.eqb k' k) eqn:E'; [| exact IH].
    apply String.eqb_eq in E'. congruence.
  - destruct (String.eqb a k); [reflexivity | exact IH].
Qed.

Lemma Map_has_get_none {V} (k : string) (m : JSMap V) :
  Map_has k m = false <-> Map_get k m = None.
Proof.
  unfold Map_get, Map_has. induction m as [|[a b] m IH]; cbn; [tauto |].
  destruct (String.eqb a k); cbn; [split; discriminate | exact IH].
Qed.

Lemma armed_disarm (t t' : nat) (h : Heap) : armed t h = None -> armed t (disarm t' h) = None.
Proof.
  unfold armed, disarm. cbn [timers]. induction (timers h) as [|x l IH]; cbn; [auto |].
  destruct (Nat.eqb (handle x) t) eqn:E; [discriminate |].
  intros H. destruct (negb (Nat.eqb (handle x) t')); cbn; [rewrite E |]; auto.
Qed.

Lemma armed_disarm_same (t : nat) (h : Heap) : armed t (disarm t h) = None.
Proof.
  unfold armed, disarm. cbn [timers]. induction (timers h) as [|x l IH]; cbn; [auto |].
  destruct (Nat.eqb (handle x) t) eqn:E; cbn; [| rewrite E]; auto.
Qed.

Lemma find_app_none {X} (f : X -> bool) (l l' : list X) :
  find f l = None -> find f (l ++ l') = find f l'.
Proof.
  induction l as [|x l IH]; cbn; [auto |]. destruct (f x); [discriminate | exact IH].
Qed.

Lemma find_app_some {X} (f : X -> bool) (l l' : list X) (x : X) :
  find f l = Some x -> find f (l ++ l') = Some x.
Proof.
  induction l as [|y l IH]; cbn; [discriminate |]. destruct (f y); auto.
Qed.

Lemma armed_fresh (t : nat) (h : Heap) :
  (forall x, In x (timers h) -> handle x < t) -> armed t h = None.
Proof.
  unfold armed. induction (timers h) as [|x l IH]; cbn; [auto |]. intros H.
  destruct (Nat.eqb_spec (handle x) t) as [E|_].
  - specialize (H x (or_introl eq_refl)). lia.
  - apply IH. auto.
Qed.

(** ** Invariants kept from await to await *)

Section Keeps.

Variable G : Heap -> Prop.

Lemma keeps_bind {A B} (p : Prog A) (f : A -> Prog B) (h : Heap) :
  keeps G p h -> (forall a h', G h' -> keeps G (f a) h') -> keeps G (bind p f) h.
Proof.
  intros Hp Hf. revert h Hp.
  induction p as [a|e|k IH|g k IH|e k IH|k IH|id k IH|d n t ttl k IH|d i k IH];
    intros h Hp; cbn [bind keeps] in *; auto;
    destruct Hp as [Hg Hk]; split; auto.
Qed.

Lemma keeps_try_catch {A} (p : Prog A) (handler : string -> Prog A) (h : Heap) :
  keeps G p h -> (forall e h', G h' -> keeps G (handler e) h') ->
  keeps G (try_catch p handler) h.
Proof.
  intros Hp Hf. revert h Hp.
  induction p as [a|e|k IH|g k IH|e k IH|k IH|id k IH|d n t ttl k IH|d i k IH];
    intros h Hp; cbn [try_catch keeps] in *; auto;
    destruct Hp as [Hg Hk]; split; auto.
Qed.

Lemma keeps_for_each {X} (xs : list X) (body : X -> Prog unit) :
  (forall x h, G h -> keeps G (body x) h) ->
  forall h, G h -> keeps G (for_each xs body) h.
Proof.
  intros Hb. induction xs as [|x xs IH]; intros h Hh; cbn [for_each].
  - exact Hh.
  - apply keeps_bind; auto.
Qed.

Lemma keeps_for_each_with {X S} (xs : list X) (acc : S) (body : S -> X -> Prog S) :
  (forall a x h, G h -> keeps G (body a x) h) ->
  forall h, G h -> keeps G (for_each_with xs acc body) h.
Proof.
  intros Hb. revert acc. induction xs as [|x xs IH]; intros acc h Hh; cbn [for_each_with].
  - exact Hh.
  - apply keeps_bind; auto.
Qed.

Lemma keeps_settle {A} (r : Result A) (h : Heap) : G h -> keeps G (settle r) h.
Proof. destruct r; auto. Qed.

(** A program whose every update keeps [G] keeps it from await to await. *)
Lemma keeps_Within {A} (ops : (Heap -> Heap) -> Prop) (evs : Event -> Prop) (p : Prog A) :
  Within ops evs p ->
  (forall f h, ops f -> G h -> G (f h)) ->
  forall h, G h -> keeps G p h.
Proof.
  intros Hp Hops. induction Hp; intros h Hh; cbn [keeps]; auto.
Qed.

Lemma keeps_advance (p : Prog unit) (w : World) :
  keeps G p (heap w) ->
  G (heap (fst (advance p w)))
  /\ forall q, snd (advance p w) = Some q -> forall h, G h -> keeps G q h.
Proof.
  revert w.
  induction p as [a|e|k IH|g k IH|e k IH|k IH|id k IH|d n t ttl k IH|d i k IH];
    intros w Hp; cbn [advance keeps fst snd] in *;
    try (split; [exact Hp | discriminate]);
    try (now apply IH);
    try (destruct Hp as [Hg Hk]; split; [exact Hg |];
         intros q [= <-] h Hh; cbn [keeps]; split; auto).
Qed.

Lemma keeps_resume (p q : Prog unit) (r : Reply) (new : list Event) (h0 : Heap) :
  keeps G p h0 -> resume p r = Some (q, new) -> forall h, G h -> keeps G q h.
Proof.
  intros Hp Hres. destruct p; destruct r; cbn in Hres; try discriminate;
    injection Hres as <- _; destruct Hp as [_ Hk]; auto.
Qed.

End Keeps.

(** ** Armed timers and their entries *)

Lemma Map_has_get {V} (k : string) (m : JSMap V) :
  Map_has k m = true -> exists v, Map_get k m = Some v.
Proof.
  intros H. destruct (Map_get k m) as [v|] eqn:E; [eauto |].
  apply Map_has_get_none in E. congruence.
Qed.

Lemma armed_In (x : Timer) (h : Heap) : In x (timers h) -> armed (handle x) h <> None.
Proof.
  unfold armed. intros Hin E.
  apply (find_none _ _ E) in Hin. now rewrite Nat.eqb_refl in Hin.
Qed.

Lemma registered_disarm (t : nat) (h : Heap) : registered h -> registered (disarm t h).
Proof.
  intros Hr x Hin. cbn in *. apply filter_In in Hin as [Hin _]. now apply Hr.
Qed.

Lemma registered_managed (f : JSMap ManagedRecord -> JSMap ManagedRecord) (h : Heap) :
  registered h -> registered (with_managedRecords f h).
Proof. intros Hr x Hin. now apply Hr. Qed.

(** Dropping the entry of a container that has no armed timer. *)
Lemma registered_unregister (cid : string) (h : Heap) :
  registered h ->
  (forall t, Map_get cid (deletePendingRecords h) = Some t -> armed t h = None) ->
  registered (with_deletePendingRecords (Map_delete cid) h).
Proof.
  intros Hr Hspent x Hin. cbn in *.
  rewrite Map_get_delete_other; [now apply Hr |].
  intros E. apply (armed_In x h Hin). apply Hspent. rewrite <- E. now apply Hr.
Qed.

(** The cancellation of [monitorContainers]: timer and entry go together. *)
Lemma registered_cancel (cid : string) (h : Heap) :
  registered h ->
  registered (with_deletePendingRecords (Map_delete cid)
                (match Map_get cid (deletePendingRecords h) with
                 | Some t => disarm t h
                 | None => h
                 end)).
Proof.
  intros Hr. apply registered_unregister.
  - destruct (Map_get cid _); [now apply registered_disarm | exact Hr].
  - intros t. destruct (Map_get cid (deletePendingRecords h)) as [t'|] eqn:E.
    + cbn [deletePendingRecords disarm]. rewrite E. intros [= <-]. apply armed_disarm_same.
    + congruence.
Qed.

(** The heap that [scheduleRecordDeletion(cid)] leaves. *)
Lemma registered_schedule (config : Config) (cid : string) (h : Heap) :
  registered h ->
  let h0 := if Map_has cid (deletePendingRecords h)
            then match Map_get cid (deletePendingRecords h) with
                 | Some t => disarm t h
                 | None => h
                 end
            else h in
  registered (with_deletePendingRecords (Map_set cid (nextTimer h0))
                (arm (JS.times (deleteDelay config) 1000) cid h0)).
Proof.
  intros Hr h0.
  assert (Hp : deletePendingRecords h0 = deletePendingRecords h).
  { unfold h0. destruct (Map_has _ _); [| reflexivity]. now destruct (Map_get _ _). }
  assert (Hold : forall x, In x (timers h0) -> In x (timers h) /\ owner x <> cid).
  { intros x Hin. unfold h0 in Hin.
    destruct (Map_has cid (deletePendingRecords h)) eqn:Hhas.
    - destruct (Map_get cid (deletePendingRecords h)) as [t|] eqn:Hget.
      + cbn in Hin. apply filter_In in Hin as [Hin Hne]. split; [exact Hin |].
        intros E. specialize (Hr x Hin). rewrite E, Hget in Hr. injection Hr as ->.
        now rewrite Nat.eqb_refl in Hne.
      + apply Map_has_get_none in Hget. congruence.
    - split; [exact Hin |]. intros E. specialize (Hr x Hin). rewrite E in Hr.
      apply Map_get_has in Hr. congruence. }
  intros x Hin. cbn in Hin |- *. rewrite Hp.
  apply in_app_or in Hin as [Hin|[<-|[]]]; cbn.
  - destruct (Hold x Hin) as [Hin' Hne]. rewrite Map_get_set_other by exact Hne.
    now apply Hr.
  - apply Map_get_set.
Qed.

Lemma registered_same (h h' : Heap) :
  timers h' = timers h -> deletePendingRecords h' = deletePendingRecords h ->
  registered h -> registered h'.
Proof. intros Ht Hp Hr x Hin. rewrite Hp. rewrite Ht in Hin. now apply Hr. Qed.

(** ** The engine keeps armed timers registered *)

Section EngineKeeps.

Variable config : Config.

Lemma keeps_scheduleRecordDeletion (cid : string) (h : Heap) :
  registered h -> keeps registered (scheduleRecordDeletion config cid) h.
Proof.
  intros Hr. pose proof (registered_schedule config cid h Hr) as H. cbv zeta in H.
  unfold scheduleRecordDeletion, setTimeout. cbn [get bind keeps].
  destruct (Map_has cid (deletePendingRecords h)).
  - destruct (Map_get cid (deletePendingRecords h));
      cbn [clearTimeout modify log_info bind keeps]; exact H.
  - cbn [modify log_info bind keeps]. exact H.
Qed.

Lemma keeps_scheduleIfStopped (running : list string) (kr : string * ManagedRecord)
    (h : Heap) :
  registered h -> keeps registered (scheduleIfStopped config running kr) h.
Proof.
  intros Hr. unfold scheduleIfStopped. cbn [get bind keeps].
  destruct (_ && _); [now apply keeps_scheduleRecordDeletion | exact Hr].
Qed.

Lemma keeps_createDNSRecordsForContainer (id : string) (h : Heap) :
  registered h -> keeps registered (createDNSRecordsForContainer config id) h.
Proof.
  apply (keeps_Within registered
           (fun f => exists k v, f = with_managedRecords (Map_set k v)) (fun _ => True)).
  - apply Within_createDNSRecordsForContainer; cbn; eauto.
  - intros f h' [k [v ->]]. apply registered_managed.
Qed.

Lemma keeps_monitorContainer (running : list string) (info : ContainerInfo) (h : Heap) :
  registered h -> keeps registered (monitorContainer config running info) h.
Proof.
  intros Hr. unfold monitorContainer.
  destruct (String.eqb (info_State info) "running"); [| exact Hr].
  cbv zeta. cbn [get bind keeps].
  apply keeps_bind.
  - destruct (negb _); [now apply keeps_createDNSRecordsForContainer | exact Hr].
  - intros _ h1 H1. cbn [get bind keeps].
    destruct (Map_has _ (deletePendingRecords h1)); [| exact H1].
    pose proof (registered_cancel (String.substring 0 12 (info_Id info)) h1 H1) as H.
    destruct (Map_get _ (deletePendingRecords h1));
      cbn [clearTimeout modify log_info bind keeps]; exact H.
Qed.

Lemma keeps_monitorContainers (h : Heap) :
  registered h -> keeps registered (monitorContainers config) h.
Proof.
  intros Hr. unfold monitorContainers.
  apply keeps_try_catch; [| intros e h' H'; exact H'].
  apply keeps_bind.
  - cbn [keeps]. split; [exact Hr |]. intros r h' H'. now apply keeps_settle.
  - intros containers h1 H1. apply keeps_bind.
    + apply keeps_for_each_with; [| exact H1].
      intros a x h' H'. now apply keeps_monitorContainer.
    + intros running h2 H2. cbn [get bind keeps].
      apply keeps_for_each; [| exact H2].
      intros x h' H'. now apply keeps_scheduleIfStopped.
Qed.

Lemma keeps_api_sync (now : string) (h : Heap) :
  registered h -> keeps registered (api_sync config now) h.
Proof.
  intros Hr. unfold api_sync.
  apply keeps_try_catch; [| intros e h' H'; exact H'].
  cbn [log_info bind keeps].
  apply keeps_bind; [now apply keeps_monitorContainers | intros _ h' H'; exact H'].
Qed.

End EngineKeeps.

(** ** The deletion callback, turn by turn *)

Lemma deletionCallback_advance (cid : string) (w : World) :
  advance (deletionCallback cid) w
  = advance (callback_task cid
               (filter (fun kr => String.eqb (record_containerId (snd kr)) cid)
                  (managedRecords (heap w)))) w.
Proof. reflexivity. Qed.

(** A callback that is not stale leaves the armed timers registered when it
    ends, and is a callback again when it waits. *)
Lemma callback_advance (cid : string) (recs : list (string * ManagedRecord)) (w : World) :
  registered (heap w) ->
  (forall t, Map_get cid (deletePendingRecords (heap w)) = Some t -> armed t (heap w) = None) ->
  registered (heap (fst (advance (callback_task cid recs) w)))
  /\ forall q, snd (advance (callback_task cid recs) w) = Some q ->
               exists kr rest, q = callback_task cid (kr :: rest).
Proof.
  intros Hr Hspent. destruct recs as [|kr rest].
  - cbn. split; [now apply registered_unregister | discriminate].
  - split; [exact Hr |]. intros q Hq. exists kr, rest.
    cbn in Hq. injection Hq as <-. reflexivity.
Qed.

(** The reply of the registrar takes a callback to the next of its records;
    only the table of records has changed. *)
Lemma callback_resume (cid : string) (kr : string * ManagedRecord)
    (rest : list (string * ManagedRecord)) (r : Reply) (q : Prog unit) (new : list Event)
    (w : World) :
  resume (callback_task cid (kr :: rest)) r = Some (q, new) ->
  exists w1,
    advance q w = advance (callback_task cid rest) w1
    /\ deletePendingRecords (heap w1) = deletePendingRecords (heap w)
    /\ timers (heap w1) = timers (heap w).
Proof.
  destruct r as [x|x|x|x]; cbn; try discriminate.
  intros [= <- _]. destruct x as [u|e]; cbn; eexists; (split; [reflexivity |]); auto.
Qed.

(** ** Armed timers stay registered *)

Lemma replace_task_Forall (P : Prog unit -> Prop) (i : nat) (q : option (Prog unit))
    (tasks : list (Prog unit)) :
  Forall P tasks -> (forall x, q = Some x -> P x) -> Forall P (replace_task i q tasks).
Proof.
  intros Ht Hq. revert i. induction Ht as [|x tasks Hx Ht IH]; intros i; cbn.
  - destruct i; constructor.
  - destruct i as [|j].
    + destruct q as [y|]; [constructor; auto | exact Ht].
    + constructor; auto.
Qed.

Section RegisteredTurns.

Variable config : Config.

(** A suspended task: one that keeps the armed timers registered whatever
    it is resumed with, or a deletion callback. *)
Local Abbreviation task_ok p :=
  ((forall h, registered h -> keeps registered p h)
   \/ exists cid kr rest, p%prog = callback_task cid (kr :: rest)).

Local Abbreviation ok s :=
  (registered (p_heap s) /\ Forall (fun p => task_ok p) (p_tasks s)).

Lemma spawn_registered (p : Prog unit) (s : Process) :
  (forall h, registered h -> keeps registered p h) -> ok s -> ok (spawn p s).
Proof.
  intros Hp [Hr Ht]. unfold spawn.
  destruct (keeps_advance registered p {| heap := p_heap s; trace := p_trace s |})
    as [Hr' Hq]; [now apply Hp |].
  destruct (advance p _) as [w q]. cbn in *. split; [exact Hr' |].
  apply Forall_app. split; [exact Ht |].
  destruct q as [x|]; [| constructor]. constructor; [| constructor]. left. now apply Hq.
Qed.

Lemma turn_registered (s s' : Process) (a : Action) :
  turn config s a = Some s' -> ~ stale s a -> ok s -> ok s'.
Proof.
  intros Hturn Hfresh Hs.
  destruct a as [|now|now|t|i r]; unfold turn in Hturn.
  - injection Hturn as <-. apply spawn_registered; [| exact Hs].
    apply keeps_monitorContainers.
  - injection Hturn as <-. apply spawn_registered; [| exact Hs].
    apply keeps_api_sync.
  - injection Hturn as <-. apply spawn_registered; [| exact Hs].
    intros h Hh. exact Hh.
  - destruct Hs as [Hr Ht].
    destruct (find _ _) as [x|] eqn:Hfind; [| discriminate]. injection Hturn as <-.
    apply find_some in Hfind as [Hin Hx]. apply Nat.eqb_eq in Hx.
    unfold spawn. cbn [p_heap p_trace p_tasks]. rewrite deletionCallback_advance.
    destruct (callback_advance (owner x)
                (filter (fun kr => String.eqb (record_containerId (snd kr)) (owner x))
                   (managedRecords (disarm t (p_heap s))))
                {| heap := disarm t (p_heap s); trace := p_trace s |}) as [Hr' Hq].
    + now apply registered_disarm.
    + intros t' Hget. cbn in Hget. rewrite (Hr x Hin), Hx in Hget. injection Hget as <-.
      apply armed_disarm_same.
    + cbn [heap] in *. destruct (advance _ _) as [w q]. cbn in *.
      split; [exact Hr' |]. apply Forall_app. split; [exact Ht |].
      destruct q as [y|]; [| constructor]. constructor; [| constructor].
      right. destruct (Hq y eq_refl) as [kr [rest ->]]. eauto.
  - destruct Hs as [Hr Ht].
    destruct (nth_error (p_tasks s) i) as [p|] eqn:Hnth; [| discriminate].
    destruct (resume p r) as [[q new]|] eqn:Hres; [| discriminate].
    assert (Hp : task_ok p).
    { rewrite Forall_forall in Ht. apply Ht. eapply nth_error_In; eauto. }
    destruct Hp as [Hp|[cid [kr [rest ->]]]].
    + pose proof (keeps_resume registered p q r new (p_heap s) (Hp _ Hr) Hres) as Hq.
      destruct (keeps_advance registered q {| heap := p_heap s; trace := p_trace s ++ new |})
        as [Hr' Hq']; [now apply Hq |].
      destruct (advance q _) as [w q']. injection Hturn as <-. cbn in *.
      split; [exact Hr' |]. apply replace_task_Forall; [exact Ht |].
      intros y ->. left. now apply Hq'.
    + destruct (callback_resume cid kr rest r q new
                  {| heap := p_heap s; trace := p_trace s ++ new |} Hres)
        as [w1 [Hadv [Hp1 Ht1]]].
      rewrite Hadv in Hturn. cbn [heap] in Hp1, Ht1.
      destruct (callback_advance cid rest w1) as [Hr' Hq'].
      * now apply (registered_same (p_heap s)).
      * intros t' Hget. rewrite Hp1 in Hget.
        destruct (armed t' (heap w1)) as [y|] eqn:Harmed; [| reflexivity].
        exfalso. apply Hfresh. cbn. exists cid, kr, rest, t'.
        split; [exact Hnth |]. split; [exact Hget |].
        unfold armed in *. rewrite <- Ht1, Harmed. discriminate.
      * destruct (advance _ w1) as [w q']. injection Hturn as <-. cbn in *.
        split; [exact Hr' |]. apply replace_task_Forall; [exact Ht |].
        intros y ->. right. destruct (Hq' y eq_refl) as [kr' [rest' ->]]. eauto.
Qed.

Lemma turns_registered (acts : list Action) (s s' : Process) :
  turns config s acts = Some s' -> no_stale config s acts -> ok s -> ok s'.
Proof.
  revert s. induction acts as [|a acts IH]; intros s; cbn.
  - now intros [= <-].
  - destruct (turn config s a) as [s1|] eqn:Hturn; [| discriminate].
    intros Hrest [Hfresh Hno] Hs. apply (IH s1 Hrest Hno).
    eapply turn_registered; eauto.
Qed.

End RegisteredTurns.

Lemma NoDup_map_In {X Y} (f : X -> Y) (l : list X) (x y : X) :
  NoDup (map f l) -> In x l -> In y l -> f x = f y -> x = y.
Proof.
  induction l as [|z l IH]; cbn; intros Hnd Hx Hy E; [destruct Hx |].
  inversion Hnd as [|? ? Hnot Hnd']; subst.
  destruct Hx as [->|Hx], Hy as [->|Hy]; auto.
  - exfalso. apply Hnot. rewrite E. now apply in_map.
  - exfalso. apply Hnot. rewrite <- E. now apply in_map.
Qed.


Lemma no_stale_cons (config : Config) (s s' : Process) (a : Action) (rest : list Action) :
  turn config s a = Some s' -> ~ stale s a -> no_stale config s' rest ->
  no_stale config s (a :: rest).
Proof. intros Hturn Hfresh Hrest. cbn [no_stale]. now rewrite Hturn. Qed.

Lemma no_stale_app (config : Config) (pre post : list Action) (a : Action)
    (s s1 : Process) :
  no_stale config s (pre ++ a :: post) -> turns config s pre = Some s1 -> ~ stale s1 a.
Proof.
  revert s. induction pre as [|b pre IH]; intros s; cbn [app no_stale turns].
  - intros [H _] [= <-]. exact H.
  - intros [_ H]. destruct (turn config s b) as [s'|]; [| discriminate]. now apply IH.
Qed.

(** The run that stacks two timers resumes a stale callback: its twelfth
    action hands the answer of the registrar to the callback of the first
    timer when the table names the second, which is armed. *)
Lemma stale_callback_resumed : ~ no_stale example_config boot stale_callback.
Proof.
  intros H.
  apply (no_stale_app example_config
           (firstn 11 stale_callback)
           (skipn 12 stale_callback)
           (Resume 0 (ReplyDelete (Rejected "timeout of 60000ms exceeded")))
           boot (state_after example_config (firstn 11 stale_callback))) in H.
  - apply H. exists "0123456789ab", ("0123456789ab-app.example.com", example_record), [], 1.
    split; [vm_compute; reflexivity |]. split; [vm_compute; reflexivity |].
    vm_compute. discriminate.
  - vm_compute. reflexivity.
Qed.



(** ** Overlapping ticks *)

(** C9, as stated, fails: nothing keeps a sync request from starting a tick
    while the scheduled tick is suspended at an await, and the two ticks
    then each ask the registrar to create the record of the same container
    and host. *)
Lemma C9_counterexample :
  exists s,
    turns example_config boot overlapping_ticks = Some s
    /\ p_tasks s = []
    /\ creates (p_trace s)
       = [EvCreate "example.com" "app" "your-server.com" 3600 (Resolved "4711");
          EvCreate "example.com" "app" "your-server.com" 3600 (Resolved "4712")]
    /\ Map_keys (managedRecords (p_heap s)) = ["0123456789ab-app.example.com"].
Proof.
  eexists. split; [vm_compute; reflexivity |]. vm_compute. auto.
Qed.

(** C9, amended.  Ticks are not serialised: whatever tasks are suspended,
    the interval timer and a sync request each start a new tick at once,
    which goes on to list the containers.  What keeps a tick from creating
    a record twice is only the test [hasRecords]: a tick that finds a record
    for every running container sends no request for creation and leaves
    the table of records as it is. *)
Theorem C9_ticks_not_serialised (config : Config) :
  (forall s,
      exists k,
        turn config s Tick
        = Some {| p_heap := p_heap s;
                  p_trace := p_trace s;
                  p_tasks := p_tasks s ++ [AwaitList k] |})
  /\ (forall s now,
        exists k,
          turn config s (SyncRequest now)
          = Some {| p_heap := p_heap s;
                    p_trace := p_trace s ++ [EvLog INFO "Manual sync triggered"];
                    p_tasks := p_tasks s ++ [AwaitList k] |})
  /\ (forall out containers w,
        docker_listContainers out = Resolved containers ->
        (forall info, In info containers -> is_running info = true ->
                      has_records (short_id info) (heap w) = true) ->
        let w' := after out (monitorContainers config) w in
        creates (trace w') = creates (trace w)
        /\ managedRecords (heap w') = managedRecords (heap w)).
Proof.
  split; [| split].
  - intros s. eexists. reflexivity.
  - intros s now. eexists. reflexivity.
  - intros out containers w Hlist Hhas. cbv zeta. rewrite tick_eq, Hlist. cbv zeta.
    destruct (phase1_settled config out containers w) as [Hm Hc].
    { intros info Hin Hrun. left. now apply Hhas. }
    set (w1 := fold_left _ containers w) in *.
    destruct (phase2_heap config out (running_ids [] containers) (managedRecords (heap w1)) w1)
      as [Hm' [Hc' _]].
    split; congruence.
Qed.

Lemma C9_ticks_not_serialised_witness :
  creates (trace (after accepting_registrar (monitorContainers example_config)
                    {| heap := pending_heap; trace := [] |})) = []
  /\ managedRecords (heap (after accepting_registrar (monitorContainers example_config)
                             {| heap := pending_heap; trace := [] |}))
     = managedRecords pending_heap.
Proof.
  apply (proj2 (proj2 (C9_ticks_not_serialised example_config))
           accepting_registrar [example_container] {| heap := pending_heap; trace := [] |}).
  - reflexivity.
  - intros info [<-|[]] _. reflexivity.
Defined.

(** ** A run is an execution in which nothing interleaves *)

Lemma world_eta (w : World) : {| heap := heap w; trace := trace w |} = w.
Proof. now destruct w. Qed.

(** When the replies of a task that runs alone are those of [out], and each
    arrives before anything else happens, the event loop leaves the world
    that [run] computes. *)
Lemma run_uninterrupted (config : Config) (out : Outside) (p : Prog unit) (w : World) :
  exists acts,
    turns config (alone (advance p w)) acts
    = Some {| p_heap := heap (after out p w);
              p_trace := trace (after out p w);
              p_tasks := [] |}.
Proof.
  unfold after. revert w.
  induction p as [a|e|k IH|f k IH|e k IH|k IH|id k IH|d n t ttl k IH|d i k IH];
    intros w; cbn [advance run].
  - exists []; reflexivity.
  - exists []; reflexivity.
  - apply IH.
  - apply IH.
  - apply IH.
  - destruct (IH (docker_listContainers out) w) as [acts Hacts].
    exists (Resume 0 (ReplyList (docker_listContainers out)) :: acts).
    cbn [turns turn alone fst snd p_tasks p_heap p_trace nth_error resume].
    rewrite app_nil_r, world_eta.
    destruct (advance (k (docker_listContainers out)) w) as [w1 q] eqn:Hadv.
    cbn [replace_task]. exact Hacts.
  - destruct (IH (docker_inspect out id) w) as [acts Hacts].
    exists (Resume 0 (ReplyInspect (docker_inspect out id)) :: acts).
    cbn [turns turn alone fst snd p_tasks p_heap p_trace nth_error resume].
    rewrite app_nil_r, world_eta.
    destruct (advance (k (docker_inspect out id)) w) as [w1 q] eqn:Hadv.
    cbn [replace_task]. exact Hacts.
  - set (r := registrar_post out (trace w) d n t ttl).
    destruct (IH r (observe (EvCreate d n t ttl r) w)) as [acts Hacts].
    exists (Resume 0 (ReplyPost r) :: acts).
    cbn [turns turn alone fst snd p_tasks p_heap p_trace nth_error resume].
    change {| heap := heap w; trace := trace w ++ [EvCreate d n t ttl r] |}
      with (observe (EvCreate d n t ttl r) w).
    destruct (advance (k r) (observe (EvCreate d n t ttl r) w)) as [w1 q] eqn:Hadv.
    cbn [replace_task]. exact Hacts.
  - set (r := registrar_delete out (trace w) d i).
    destruct (IH r (observe (EvDelete d i r) w)) as [acts Hacts].
    exists (Resume 0 (ReplyDelete r) :: acts).
    cbn [turns turn alone fst snd p_tasks p_heap p_trace nth_error resume].
    change {| heap := heap w; trace := trace w ++ [EvDelete d i r] |}
      with (observe (EvDelete d i r) w).
    destruct (advance (k r) (observe (EvDelete d i r) w)) as [w1 q] eqn:Hadv.
    cbn [replace_task]. exact Hacts.
Qed.

(** In particular a tick started while no task is suspended, and not
    interleaved with anything, is the tick that [run] computes. *)
Lemma tick_uninterrupted (config : Config) (out : Outside) (s : Process) :
  p_tasks s = [] ->
  exists acts,
    turns config s (Tick :: acts)
    = Some {| p_heap := heap (after out (monitorContainers config)
                                {| heap := p_heap s; trace := p_trace s |});
              p_trace := trace (after out (monitorContainers config)
                                  {| heap := p_heap s; trace := p_trace s |});
              p_tasks := [] |}.
Proof.
  intros Hidle.
  destruct (run_uninterrupted config out (monitorContainers config)
              {| heap := p_heap s; trace := p_trace s |}) as [acts Hacts].
  exists acts. cbn [turns turn]. unfold spawn. rewrite Hidle.
  unfold alone in Hacts.
  destruct (advance (monitorContainers config) _) as [w1 q]. exact Hacts.
Qed.

(** * Further properties *)

(** ** The parser on every label map *)

Lemma Set_has_In (x : string) (s : list string) : JS.Set_has x s = true <-> In x s.
Proof.
  unfold JS.Set_has. rewrite existsb_exists. split.
  - intros [y [Hin Heq]]. apply String.eqb_eq in Heq. now subst.
  - intros Hin. exists x. split; [exact Hin | apply String.eqb_refl].
Qed.

Lemma Set_add_In (x y : string) (s : list string) :
  In x (JS.Set_add y s) <-> x = y \/ In x s.
Proof.
  unfold JS.Set_add. destruct (JS.Set_has y s) eqn:Hy.
  - apply Set_has_In in Hy. split; [auto | intros [->|H]; auto].
  - rewrite in_app_iff. cbn. split; [intros [H|[<-|[]]]; auto | intros [->|H]; auto].
Qed.

Lemma Set_add_NoDup (y : string) (s : list string) : NoDup s -> NoDup (JS.Set_add y s).
Proof.
  intros Hnd. unfold JS.Set_add. destruct (JS.Set_has y s) eqn:Hy; [exact Hnd |].
  apply NoDup_snoc; [exact Hnd |]. intros Hin. apply Set_has_In in Hin. congruence.
Qed.

Lemma Set_fold_In (a acc : list string) (x : string) :
  In x (fold_left (fun s y => JS.Set_add y s) a acc) <-> In x acc \/ In x a.
Proof.
  revert acc. induction a as [|y a IH]; intros acc; cbn [fold_left].
  - cbn. tauto.
  - rewrite IH, Set_add_In. cbn. intuition congruence.
Qed.

Lemma Set_fold_NoDup (a acc : list string) :
  NoDup acc -> NoDup (fold_left (fun s y => JS.Set_add y s) a acc).
Proof.
  revert acc. induction a as [|y a IH]; intros acc Hnd; cbn [fold_left]; [exact Hnd |].
  apply IH. now apply Set_add_NoDup.
Qed.

Lemma Set_of_In (a : list string) (x : string) : In x (JS.Set_of a) <-> In x a.
Proof. unfold JS.Set_of. rewrite Set_fold_In. cbn. tauto. Qed.

Lemma Set_of_NoDup (a : list string) : NoDup (JS.Set_of a).
Proof. apply Set_fold_NoDup. constructor. Qed.

Lemma extractTraefikHosts_In (labels : Labels) (h : string) :
  In h (extractTraefikHosts labels) <->
  exists key value,
    In (key, value) labels /\ is_router_rule key = true /\ In h (hosts_of_rule value).
Proof.
  unfold extractTraefikHosts. rewrite Set_of_In, in_flat_map. split.
  - intros [[k v] [Hin Hh]]. cbn in Hh.
    destruct (is_router_rule k) eqn:Hk; [| contradiction]. eauto.
  - intros [k [v [Hin [Hk Hh]]]]. exists (k, v). cbn. rewrite Hk. auto.
Qed.

Lemma extractTraefikHosts_nil (labels : Labels) :
  (forall key value,
      In (key, value) labels -> is_router_rule key = true -> hosts_of_rule value = []) ->
  extractTraefikHosts labels = [].
Proof.
  intros Hnone. destruct (extractTraefikHosts labels) as [|h rest] eqn:E; [reflexivity |].
  assert (Hin : In h (extractTraefikHosts labels)) by (rewrite E; now left).
  apply extractTraefikHosts_In in Hin as [k [v [Hin [Hk Hh]]]].
  rewrite (Hnone k v Hin Hk) in Hh. contradiction.
Qed.

(** X1.  A host is returned by the parser exactly when the rule of some
    router-rule label yields it; no host is returned twice; and a label map
    without a router-rule label, the empty one included, gives no host. *)
Theorem extractTraefikHosts_members (labels : Labels) :
  (forall h,
      In h (extractTraefikHosts labels) <->
      exists key value,
        In (key, value) labels /\ is_router_rule key = true /\ In h (hosts_of_rule value))
  /\ NoDup (extractTraefikHosts labels)
  /\ ((forall key value, In (key, value) labels -> is_router_rule key = false) ->
      extractTraefikHosts labels = []).
Proof.
  split; [apply extractTraefikHosts_In |]. split; [apply Set_of_NoDup |].
  intros Hnone. apply extractTraefikHosts_nil. intros k v Hin Hk.
  rewrite (Hnone k v Hin) in Hk. discriminate.
Qed.

Lemma extractTraefikHosts_members_witness :
  extractTraefikHosts [("com.docker.compose.project", "shop"); ("traefik.enable", "true")] = [].
Proof.
  apply (proj2 (proj2 (extractTraefikHosts_members
                         [("com.docker.compose.project", "shop"); ("traefik.enable", "true")]))).
  intros key value [H|[H|[]]]; injection H as <- _; reflexivity.
Defined.

(** ** The parser on plain hostnames *)

Lemma append_nil_r (s : string) : (s ++ EmptyString)%string = s.
Proof. induction s as [|c s IH]; cbn; [reflexivity | now rewrite IH]. Qed.

Lemma length_append (a b : string) :
  String.length (a ++ b) = String.length a + String.length b.
Proof. induction a as [|c a IH]; cbn; [reflexivity | now rewrite IH]. Qed.

Lemma occurs_append (c : ascii) (a b : string) :
  occurs c (a ++ b) = occurs c a || occurs c b.
Proof.
  induction a as [|x a IH]; cbn; [reflexivity |]. now rewrite IH, orb_assoc.
Qed.

Lemma strip_prefix_Some (p s r : string) :
  strip_prefix p s = Some r -> s = (p ++ r)%string.
Proof.
  revert s. induction p as [|a p IH]; intros s; cbn.
  - now intros [= ->].
  - destruct s as [|b s]; [discriminate |].
    destruct (Ascii.eqb_spec a b) as [->|Hne]; [| discriminate].
    intros H. now rewrite (IH s H).
Qed.

Lemma span_not_Some (c : ascii) (s run rest : string) :
  span_not c s = (run, rest) -> s = (run ++ rest)%string.
Proof.
  revert run rest. induction s as [|a s IH]; cbn; intros run rest E.
  - now injection E as <- <-.
  - destruct (Ascii.eqb a c).
    + now injection E as <- <-.
    + destruct (span_not c s) as [run' rest']. injection E as <- <-.
      cbn. now rewrite (IH run' rest' eq_refl).
Qed.

(** A match is the opening literal, the group, the closing literal. *)
Lemma match_at_Some (re : HostRegex) (s group rest : string) :
  match_at re s = Some (group, rest) ->
  s = (matched_text re group ++ rest)%string.
Proof.
  unfold match_at, matched_text.
  destruct (strip_prefix (re_open re) s) as [r|] eqn:Hopen; [| discriminate].
  destruct (span_not (re_stop re) r) as [g r'] eqn:Hspan.
  destruct g as [|a g]; [discriminate |].
  destruct (strip_prefix (re_close re) r') as [r''|] eqn:Hclose; [| discriminate].
  intros E. injection E as <- <-.
  apply strip_prefix_Some in Hopen, Hclose. apply span_not_Some in Hspan.
  subst. now rewrite !append_assoc.
Qed.

(** A pattern finds nothing in a text that lacks a character of its
    literals. *)
Lemma match_all_from_absent (re : HostRegex) (c : ascii) (skip : nat) (s : string) :
  occurs c (re_open re ++ re_close re) = true ->
  occurs c s = false ->
  match_all_from re skip s = [].
Proof.
  intros Hre. revert skip. induction s as [|a s IH]; intros skip Hs; [reflexivity |].
  assert (Hs' : occurs c s = false).
  { cbn in Hs. now apply orb_false_elim in Hs. }
  cbn [match_all_from]. destruct skip as [|k]; [| now apply IH].
  destruct (match_at re (String a s)) as [[group rest]|] eqn:Hm; [| now apply IH].
  apply match_at_Some in Hm. rewrite Hm in Hs. unfold matched_text in Hs.
  rewrite !occurs_append in Hs.
  apply orb_false_elim in Hs as [Hs1 _].
  apply orb_false_elim in Hs1 as [Ho Hs2].
  apply orb_false_elim in Hs2 as [_ Hc].
  rewrite occurs_append, Ho, Hc in Hre. discriminate.
Qed.

Lemma span_not_plain (c : ascii) (h tail : string) :
  occurs c h = false ->
  span_not c (h ++ String c tail) = (h, String c tail).
Proof.
  induction h as [|a h IH]; cbn; intros Hh.
  - now rewrite Ascii.eqb_refl.
  - apply orb_false_elim in Hh as [Ha Hh]. rewrite Ha. now rewrite (IH Hh).
Qed.

(** The search resumes right after a match. *)
Lemma match_all_from_skip (re : HostRegex) (a b : string) :
  match_all_from re (String.length a) (a ++ b) = match_all_from re 0 b.
Proof. induction a as [|c a IH]; cbn; [reflexivity | exact IH]. Qed.

Lemma match_all_cons (re : HostRegex) (group rest rest' : string) :
  re_open re <> EmptyString ->
  match_at re (matched_text re group ++ rest) = Some (group, rest') ->
  match_all re (matched_text re group ++ rest)
  = matched_text re group :: match_all re rest.
Proof.
  intros Hopen Hm. unfold match_all.
  destruct (matched_text re group) as [|c m] eqn:Ht.
  - unfold matched_text in Ht. destruct (re_open re); [contradiction | discriminate].
  - cbn [append match_all_from]. cbn [append] in Hm. rewrite Hm, Ht.
    f_equal. cbn [String.length]. rewrite Nat.sub_1_r. cbn [Nat.pred].
    apply match_all_from_skip.
Qed.

Lemma exec_at (re : HostRegex) (group rest rest' : string) :
  re_open re <> EmptyString ->
  match_at re (matched_text re group ++ rest) = Some (group, rest') ->
  exec re (matched_text re group ++ rest) = Some (matched_text re group, group).
Proof.
  intros Hopen Hm.
  destruct (matched_text re group ++ rest)%string as [|c m] eqn:Ht; cbn [exec];
    now rewrite Hm.
Qed.

Lemma group1_at (re : HostRegex) (m group rest : string) :
  match_at re m = Some (group, rest) -> group1 re m = group.
Proof. intros H. unfold group1. destruct m; cbn [exec]; now rewrite H. Qed.

Lemma match_at_paren (g rest : string) :
  g <> EmptyString -> occurs ")"%char g = false ->
  match_at reParen (matched_text reParen g ++ rest) = Some (g, rest).
Proof.
  intros Hne Hg. unfold match_at, matched_text. cbn [re_open re_close re_stop reParen].
  rewrite !append_assoc, strip_prefix_append.
  change (")" ++ rest)%string with (String ")"%char rest).
  rewrite (span_not_plain _ _ _ Hg).
  destruct g; [contradiction |]. cbn. reflexivity.
Qed.

Lemma match_at_backtick (g rest : string) :
  g <> EmptyString -> occurs "`"%char g = false ->
  match_at reBacktick (matched_text reBacktick g ++ rest) = Some (g, rest).
Proof.
  intros Hne Hg. unfold match_at, matched_text. cbn [re_open re_close re_stop reBacktick].
  rewrite !append_assoc, strip_prefix_append.
  change ("`)" ++ rest)%string with (String "`"%char (String ")"%char rest)).
  rewrite (span_not_plain _ _ _ Hg).
  destruct g; [contradiction |]. cbn. reflexivity.
Qed.

Lemma reParen_open : re_open reParen <> EmptyString.
Proof. discriminate. Qed.

Lemma reBacktick_open : re_open reBacktick <> EmptyString.
Proof. discriminate. Qed.

(** What the second pattern contributes for a text that starts with a
    clause [Host(g)]. *)
Lemma paren_clause (g rest : string) :
  g <> EmptyString -> occurs ")"%char g = false ->
  map (fun m => JS.strip_quotes (group1 reParen m))
    (match_all reParen (matched_text reParen g ++ rest))
  = JS.strip_quotes g
    :: map (fun m => JS.strip_quotes (group1 reParen m)) (match_all reParen rest).
Proof.
  intros Hne Hg.
  rewrite (match_all_cons reParen g rest rest reParen_open (match_at_paren g rest Hne Hg)).
  cbn [map]. f_equal. f_equal.
  apply group1_at with (rest := EmptyString).
  rewrite <- (append_nil_r (matched_text reParen g)). now apply match_at_paren.
Qed.

Lemma backtick_clause (g rest : string) :
  g <> EmptyString -> occurs "`"%char g = false ->
  map (group1 reBacktick) (match_all reBacktick (matched_text reBacktick g ++ rest))
  = g :: map (group1 reBacktick) (match_all reBacktick rest).
Proof.
  intros Hne Hg.
  rewrite (match_all_cons reBacktick g rest rest reBacktick_open
             (match_at_backtick g rest Hne Hg)).
  cbn [map]. f_equal.
  apply group1_at with (rest := EmptyString).
  rewrite <- (append_nil_r (matched_text reBacktick g)). now apply match_at_backtick.
Qed.

Lemma no_backtick_no_match (s : string) :
  occurs "`"%char s = false -> match_all reBacktick s = [].
Proof. intros H. apply (match_all_from_absent reBacktick "`"%char 0 s); auto. Qed.

Lemma strip_quotes_append (a b : string) :
  JS.strip_quotes (a ++ b) = (JS.strip_quotes a ++ JS.strip_quotes b)%string.
Proof.
  induction a as [|c a IH]; cbn; [reflexivity |].
  destruct (Ascii.eqb c "'"%char || Ascii.eqb c "034"%char); cbn; now rewrite IH.
Qed.

Lemma strip_quotes_plain (h : string) :
  occurs "'"%char h = false -> occurs "034"%char h = false -> JS.strip_quotes h = h.
Proof.
  induction h as [|c h IH]; cbn; [reflexivity |]. intros H1 H2.
  apply orb_false_elim in H1 as [H1 H1']. apply orb_false_elim in H2 as [H2 H2'].
  rewrite H1, H2. cbn. now rewrite IH.
Qed.

Lemma plain_host_spec (h : string) :
  plain_host h = true ->
  h <> EmptyString
  /\ occurs ")"%char h = false /\ occurs "`"%char h = false
  /\ occurs "'"%char h = false /\ occurs "034"%char h = false.
Proof.
  unfold plain_host. intros H.
  repeat (apply andb_prop in H as [H ?]).
  repeat match goal with X : negb _ = true |- _ => apply negb_true_iff in X end.
  repeat split; auto. intros ->. discriminate.
Qed.

Lemma hosts_of_paren_form (g : string) :
  g <> EmptyString -> occurs ")"%char g = false -> occurs "`"%char g = false ->
  hosts_of_rule ("Host(" ++ g ++ ")") = [JS.strip_quotes g].
Proof.
  intros Hne Hp Hb. unfold hosts_of_rule.
  rewrite no_backtick_no_match
    by (rewrite !occurs_append, Hb; reflexivity).
  change ("Host(" ++ g ++ ")")%string with (matched_text reParen g).
  rewrite <- (append_nil_r (matched_text reParen g)).
  rewrite (paren_clause g EmptyString Hne Hp). reflexivity.
Qed.

Lemma Set_of_one (h : string) : JS.Set_of [h] = [h].
Proof. reflexivity. Qed.

Lemma Set_of_two (a b : string) :
  JS.Set_of [a; b] = if String.eqb a b then [a] else [a; b].
Proof.
  unfold JS.Set_of. cbn [fold_left]. unfold JS.Set_add at 2. cbn [JS.Set_has existsb app].
  unfold JS.Set_add, JS.Set_has. cbn [existsb]. rewrite orb_false_r, (String.eqb_sym b a).
  destruct (String.eqb a b); reflexivity.
Qed.

Lemma wrapped_differs (c : ascii) (h tail : string) :
  String.eqb h (String c (h ++ tail)) = false.
Proof.
  apply String.eqb_neq. intros E. apply (f_equal String.length) in E.
  cbn in E. rewrite length_append in E. lia.
Qed.

(** X2.  For every plain hostname [h] and a label map with one router rule:
    the bare form [Host(h)], the double-quoted and the single-quoted form
    each give exactly [h]; the backtick form gives [h] and, after it, [h]
    still wrapped in its backticks. *)
Theorem extractTraefikHosts_plain_host (key h : string) :
  is_router_rule key = true ->
  plain_host h = true ->
  extractTraefikHosts (enabled_with key ("Host(" ++ h ++ ")")) = [h]
  /\ extractTraefikHosts (enabled_with key ("Host(" ++ dq ++ h ++ dq ++ ")")) = [h]
  /\ extractTraefikHosts (enabled_with key ("Host(" ++ sq ++ h ++ sq ++ ")")) = [h]
  /\ extractTraefikHosts (enabled_with key ("Host(`" ++ h ++ "`)"))
     = [h; ("`" ++ h ++ "`")%string].
Proof.
  intros Hkey Hplain.
  destruct (plain_host_spec h Hplain) as [Hne [Hp [Hb [Hs Hd]]]].
  rewrite !extractTraefikHosts_one_rule by exact Hkey.
  split; [| split; [| split]].
  - rewrite hosts_of_paren_form by assumption.
    now rewrite (strip_quotes_plain h Hs Hd).
  - replace ("Host(" ++ dq ++ h ++ dq ++ ")")%string
      with ("Host(" ++ (dq ++ h ++ dq) ++ ")")%string
      by (cbn; now rewrite append_assoc).
    rewrite hosts_of_paren_form.
    + rewrite !strip_quotes_append, (strip_quotes_plain h Hs Hd).
      cbn. now rewrite append_nil_r.
    + discriminate.
    + rewrite !occurs_append, Hp. reflexivity.
    + rewrite !occurs_append, Hb. reflexivity.
  - replace ("Host(" ++ sq ++ h ++ sq ++ ")")%string
      with ("Host(" ++ (sq ++ h ++ sq) ++ ")")%string
      by (cbn; now rewrite append_assoc).
    rewrite hosts_of_paren_form.
    + rewrite !strip_quotes_append, (strip_quotes_plain h Hs Hd).
      cbn. now rewrite append_nil_r.
    + discriminate.
    + rewrite !occurs_append, Hp. reflexivity.
    + rewrite !occurs_append, Hb. reflexivity.
  - unfold hosts_of_rule.
    change ("Host(`" ++ h ++ "`)")%string with (matched_text reBacktick h).
    rewrite <- (append_nil_r (matched_text reBacktick h)) at 1.
    rewrite (backtick_clause h EmptyString Hne Hb).
    replace (matched_text reBacktick h) with (matched_text reParen ("`" ++ h ++ "`") ++ EmptyString)%string
      by (unfold matched_text; cbn; now rewrite !append_assoc, ?append_nil_r).
    rewrite paren_clause.
    + cbn [match_all match_all_from map app].
      rewrite !strip_quotes_append, (strip_quotes_plain h Hs Hd).
      change (JS.strip_quotes "`") with "`".
      change ("`" ++ h ++ "`")%string with (String "`"%char (h ++ "`")).
      rewrite Set_of_two, wrapped_differs. reflexivity.
    + discriminate.
    + rewrite !occurs_append, Hp. reflexivity.
Qed.

Lemma extractTraefikHosts_plain_host_witness :
  extractTraefikHosts (enabled_with router_key ("Host(" ++ "shop.example.org" ++ ")")) = ["shop.example.org"]
  /\ extractTraefikHosts (enabled_with router_key ("Host(" ++ dq ++ "shop.example.org" ++ dq ++ ")"))
     = ["shop.example.org"]
  /\ extractTraefikHosts (enabled_with router_key ("Host(" ++ sq ++ "shop.example.org" ++ sq ++ ")"))
     = ["shop.example.org"]
  /\ extractTraefikHosts (enabled_with router_key ("Host(`" ++ "shop.example.org" ++ "`)"))
     = ["shop.example.org"; ("`" ++ "shop.example.org" ++ "`")%string].
Proof.
  apply (extractTraefikHosts_plain_host router_key "shop.example.org").
  - vm_compute. reflexivity.
  - vm_compute. reflexivity.
Defined.

Lemma match_all_reParen_skip (c : ascii) (s : string) :
  Ascii.eqb "H"%char c = false ->
  match_all reParen (String c s) = match_all reParen s.
Proof.
  intros Hc. unfold match_all. cbn [match_all_from].
  unfold match_at. cbn [re_open reParen strip_prefix]. now rewrite Hc.
Qed.

(** X3.  A rule with two clauses joined by [||] yields both hostnames, in
    the order written, and only one when the two are the same. *)
Theorem extractTraefikHosts_two_clauses (key h1 h2 : string) :
  is_router_rule key = true ->
  plain_host h1 = true ->
  plain_host h2 = true ->
  extractTraefikHosts (enabled_with key ("Host(" ++ h1 ++ ") || Host(" ++ h2 ++ ")"))
  = if String.eqb h1 h2 then [h1] else [h1; h2].
Proof.
  intros Hkey Hplain1 Hplain2.
  destruct (plain_host_spec h1 Hplain1) as [Hne1 [Hp1 [Hb1 [Hs1 Hd1]]]].
  destruct (plain_host_spec h2 Hplain2) as [Hne2 [Hp2 [Hb2 [Hs2 Hd2]]]].
  rewrite extractTraefikHosts_one_rule by exact Hkey.
  unfold hosts_of_rule.
  rewrite no_backtick_no_match
    by (rewrite !occurs_append, Hb1, Hb2; reflexivity).
  replace ("Host(" ++ h1 ++ ") || Host(" ++ h2 ++ ")")%string
    with (matched_text reParen h1 ++ " || " ++ matched_text reParen h2 ++ EmptyString)%string
    by (unfold matched_text; cbn; now rewrite !append_assoc, append_nil_r).
  rewrite (paren_clause h1 _ Hne1 Hp1).
  change (" || " ++ matched_text reParen h2 ++ EmptyString)%string
    with (String " "%char (String "|"%char (String "|"%char (String " "%char
            (matched_text reParen h2 ++ EmptyString))))).
  rewrite !match_all_reParen_skip by reflexivity.
  rewrite (paren_clause h2 _ Hne2 Hp2).
  cbn [match_all match_all_from map app].
  rewrite (strip_quotes_plain h1 Hs1 Hd1), (strip_quotes_plain h2 Hs2 Hd2).
  apply Set_of_two.
Qed.

Lemma extractTraefikHosts_two_clauses_witness :
  extractTraefikHosts
    (enabled_with router_key ("Host(" ++ "a.example.org" ++ ") || Host(" ++ "b.example.org" ++ ")"))
  = if String.eqb "a.example.org" "b.example.org"
    then ["a.example.org"] else ["a.example.org"; "b.example.org"].
Proof.
  apply (extractTraefikHosts_two_clauses router_key "a.example.org" "b.example.org");
    vm_compute; reflexivity.
Defined.

(** X4.  A rule without a closing parenthesis yields no host: when no
    router rule of a label map has one, the parser returns nothing. *)
Theorem extractTraefikHosts_unbalanced (labels : Labels) :
  (forall key value,
      In (key, value) labels -> is_router_rule key = true ->
      occurs ")"%char value = false) ->
  extractTraefikHosts labels = [].
Proof.
  intros Hopen. apply extractTraefikHosts_nil. intros k v Hin Hk.
  specialize (Hopen k v Hin Hk). unfold hosts_of_rule, match_all.
  rewrite (match_all_from_absent reBacktick ")"%char 0 v) by auto.
  rewrite (match_all_from_absent reParen ")"%char 0 v) by auto.
  reflexivity.
Qed.

Lemma extractTraefikHosts_unbalanced_witness :
  extractTraefikHosts (enabled_with router_key "Host(`app.example.com`") = [].
Proof.
  apply (extractTraefikHosts_unbalanced (enabled_with router_key "Host(`app.example.com`")).
  intros key value [H|[H|[]]] Hk; injection H as <- <-; [discriminate | reflexivity].
Defined.

(** ** Errors never escape *)

Lemma NoThrow_try_catch {A} (p : Prog A) (handler : string -> Prog A) :
  (forall e, NoThrow (handler e)) -> NoThrow (try_catch p handler).
Proof.
  intros Hh. induction p; cbn; try (constructor; auto); auto.
Qed.

Lemma NoThrow_run {A} (out : Outside) (p : Prog A) (w : World) :
  NoThrow p -> exists a, fst (run out p w) = Resolved a.
Proof.
  intros Hp. revert w. induction Hp; intros w; cbn [run]; auto.
  now exists a.
Qed.

Lemma NoThrow_advance (p q : Prog unit) (w : World) :
  NoThrow p -> snd (advance p w) = Some q -> NoThrow q.
Proof.
  intros Hp. revert w. induction Hp; intros w; cbn [advance snd]; eauto;
    try discriminate; intros [= <-]; now constructor.
Qed.

Lemma NoThrow_resume (p q : Prog unit) (r : Reply) (new : list Event) :
  NoThrow p -> resume p r = Some (q, new) -> NoThrow q.
Proof.
  intros Hp. destruct Hp; destruct r; cbn; intros E; try discriminate;
    injection E as <- _; auto.
Qed.

Lemma NoThrow_replace_task (i : nat) (q : option (Prog unit)) (tasks : list (Prog unit)) :
  Forall NoThrow tasks ->
  (forall x, q = Some x -> NoThrow x) ->
  Forall NoThrow (replace_task i q tasks).
Proof.
  intros Ht Hq. revert i. induction Ht as [|x tasks Hx Ht IH]; intros i; cbn.
  - destruct i; constructor.
  - destruct i as [|j].
    + destruct q as [y|]; [constructor; auto | exact Ht].
    + constructor; auto.
Qed.

Lemma NoThrow_spawn (p : Prog unit) (s : Process) :
  NoThrow p -> Forall NoThrow (p_tasks s) -> Forall NoThrow (p_tasks (spawn p s)).
Proof.
  intros Hp Ht. unfold spawn.
  pose proof (NoThrow_advance p) as Hq.
  specialize (fun q => Hq q {| heap := p_heap s; trace := p_trace s |} Hp).
  destruct (advance p _) as [w q]. cbn in *.
  apply Forall_app. split; [exact Ht |].
  destruct q as [x|]; [| constructor]. constructor; [| constructor]. now apply Hq.
Qed.

Lemma NoThrow_turn (config : Config) (s s' : Process) (a : Action) :
  turn config s a = Some s' -> Forall NoThrow (p_tasks s) -> Forall NoThrow (p_tasks s').
Proof.
  intros Hturn Htasks.
  destruct a as [|now|now|t|i r]; unfold turn in Hturn.
  - injection Hturn as <-. apply NoThrow_spawn; [| exact Htasks].
    apply NoThrow_try_catch. intros e. repeat constructor.
  - injection Hturn as <-. apply NoThrow_spawn; [| exact Htasks].
    apply NoThrow_try_catch. intros e. repeat constructor.
  - injection Hturn as <-. apply NoThrow_spawn; [| exact Htasks].
    repeat constructor.
  - destruct (find _ _) as [x|]; [| discriminate]. injection Hturn as <-.
    apply NoThrow_spawn; [| exact Htasks].
    apply NoThrow_try_catch. intros e. repeat constructor.
  - destruct (nth_error (p_tasks s) i) as [p|] eqn:Hnth; [| discriminate].
    destruct (resume p r) as [[q new]|] eqn:Hres; [| discriminate].
    assert (Hp : NoThrow p).
    { rewrite Forall_forall in Htasks. apply Htasks. eapply nth_error_In; eauto. }
    pose proof (NoThrow_resume p q r new Hp Hres) as Hq.
    pose proof (NoThrow_advance q) as Hq'.
    specialize (fun x => Hq' x {| heap := p_heap s; trace := p_trace s ++ new |} Hq).
    destruct (advance q _) as [w q']. injection Hturn as <-. cbn in *.
    now apply NoThrow_replace_task.
Qed.

Lemma NoThrow_turns (config : Config) (acts : list Action) (s s' : Process) :
  turns config s acts = Some s' -> Forall NoThrow (p_tasks s) -> Forall NoThrow (p_tasks s').
Proof.
  revert s. induction acts as [|a acts IH]; intros s; cbn.
  - now intros [= <-].
  - destruct (turn config s a) as [s1|] eqn:Hturn; [| discriminate].
    intros Hrest Hs. apply (IH s1 Hrest). eapply NoThrow_turn; eauto.
Qed.

(** X5.  No rejection is left unhandled: in every state the process can
    reach, whatever the interleaving, each suspended task resolves however
    the runtime and the registrar answer from there on. *)
Theorem no_unhandled_rejection (config : Config) (s : Process) :
  reachable config s ->
  forall p, In p (p_tasks s) ->
  forall (out : Outside) (w : World), fst (run out p w) = Resolved tt.
Proof.
  intros [acts Hacts] p Hin out w.
  assert (Htasks : Forall NoThrow (p_tasks s)).
  { apply (NoThrow_turns config acts boot s Hacts). constructor. }
  rewrite Forall_forall in Htasks.
  destruct (NoThrow_run out p w (Htasks p Hin)) as [[] E]. exact E.
Qed.

Lemma no_unhandled_rejection_witness :
  fst (run failing_registrar
         (nth 0 (p_tasks (state_after example_config [Tick])) (Ret tt))
         {| heap := initial; trace := [] |})
  = Resolved tt.
Proof.
  apply (no_unhandled_rejection example_config (state_after example_config [Tick])).
  - exists [Tick]. reflexivity.
  - vm_compute. left. reflexivity.
Defined.

(** ** One request for each host *)

Lemma recordKey_injective (cid host host' : string) :
  recordKey cid host = recordKey cid host' -> host = host'.
Proof.
  unfold recordKey. intros E. apply append_cancel in E. now injection E.
Qed.

Lemma store_other (cid host : string) (pairs : list (string * Result string))
    (m : JSMap ManagedRecord) :
  ~ In host (map fst pairs) ->
  Map_get (recordKey cid host) (fold_left (store_result cid) pairs m)
  = Map_get (recordKey cid host) m.
Proof.
  revert m. induction pairs as [|[h r] pairs IH]; intros m Hnot; cbn [fold_left].
  - reflexivity.
  - cbn in Hnot. rewrite IH by tauto. unfold store_result. cbn [fst snd].
    destruct r as [rid|e]; [| reflexivity].
    apply Map_get_set_other. intros E. apply recordKey_injective in E. subst h. tauto.
Qed.

Lemma store_get (cid host : string) (r : Result string) (pairs : list (string * Result string))
    (m : JSMap ManagedRecord) :
  NoDup (map fst pairs) -> In (host, r) pairs ->
  Map_get (recordKey cid host) (fold_left (store_result cid) pairs m)
  = match r with
    | Resolved rid => Some (stored_record cid host rid)
    | Rejected _ => Map_get (recordKey cid host) m
    end.
Proof.
  revert m. induction pairs as [|[h r'] pairs IH]; intros m Hnd Hin; [destruct Hin |].
  cbn [map fst] in Hnd. inversion Hnd as [|? ? Hnot Hnd']; subst.
  destruct Hin as [E|Hin].
  - injection E as -> ->. cbn [fold_left]. rewrite store_other by exact Hnot.
    unfold store_result. cbn [fst snd]. destruct r; [apply Map_get_set | reflexivity].
  - cbn [fold_left]. rewrite (IH _ Hnd' Hin). destruct r as [rid|e]; [reflexivity |].
    unfold store_result. cbn [fst snd]. destruct r' as [rid'|e']; [| reflexivity].
    apply Map_get_set_other. intros E. apply recordKey_injective in E. subst h.
    apply Hnot. apply in_map_iff. exists (host, Rejected e). auto.
Qed.

(** X6.  For a container that enables the proxy, one request goes out for
    each valid host of its labels, in the order of the parser, whatever the
    registrar answered to the requests before it.  A host whose request
    succeeded is stored under its key with the id returned; for a host whose
    request failed the table keeps what it had. *)
Theorem createDNSRecordsForContainer_per_host (config : Config) (out : Outside)
    (id : string) (info : InspectInfo) (w : World) :
  docker_inspect out id = Resolved info ->
  label (labels_or_empty (Config_Labels info)) "traefik.enable" = Some "true" ->
  let cid := String.substring 0 12 (Id info) in
  let hosts := filter valid_host (extractTraefikHosts (labels_or_empty (Config_Labels info))) in
  let w' := after out (createDNSRecordsForContainer config id) w in
  exists results : list (Result string),
    List.length results = List.length hosts
    /\ creates (trace w') = creates (trace w) ++ map (create_of config) (combine hosts results)
    /\ (forall host rid,
          In (host, Resolved rid) (combine hosts results) ->
          Map_get (recordKey cid host) (managedRecords (heap w'))
          = Some (stored_record cid host rid))
    /\ (forall host e,
          In (host, Rejected e) (combine hosts results) ->
          Map_get (recordKey cid host) (managedRecords (heap w'))
          = Map_get (recordKey cid host) (managedRecords (heap w))).
Proof.
  intros Hi Hflag. cbv zeta. unfold after.
  rewrite run_createDNSRecordsForContainer. cbn [snd]. rewrite Hi. cbv zeta.
  assert (Hstrict : JS.strict_eq
                      (label (labels_or_empty (Config_Labels info)) "traefik.enable")
                      "true" = true) by now rewrite Hflag.
  rewrite Hstrict. cbn [negb].
  set (all := extractTraefikHosts (labels_or_empty (Config_Labels info))).
  destruct (Nat.eqb (List.length all) 0) eqn:Hz.
  - apply Nat.eqb_eq, length_zero_iff_nil in Hz. rewrite Hz. cbn [filter].
    exists []. cbn. unfold creates. rewrite filter_app. cbn. rewrite !app_nil_r.
    repeat split; intros ? ? [].
  - destruct (host_loop_account config out (String.substring 0 12 (Id info)) all w)
      as [results [Hlen [Hcr [Hrec _]]]].
    exists results. split; [exact Hlen |]. split; [exact Hcr |].
    assert (Hnd : NoDup (map fst (combine (filter valid_host all) results))).
    { rewrite combine_fst by exact Hlen. apply NoDup_filter.
      unfold all, extractTraefikHosts. apply Set_of_NoDup. }
    split; intros host x Hin; rewrite Hrec;
      now rewrite (store_get _ _ _ _ _ Hnd Hin).
Qed.

Lemma createDNSRecordsForContainer_per_host_witness :
  exists results : list (Result string),
    List.length results
    = List.length (filter valid_host (extractTraefikHosts (labels_or_empty (Some bare_labels))))
    /\ creates (trace (after accepting_registrar
                         (createDNSRecordsForContainer example_config example_id)
                         {| heap := initial; trace := [] |}))
       = creates [] ++ map (create_of example_config)
                         (combine (filter valid_host
                                     (extractTraefikHosts (labels_or_empty (Some bare_labels))))
                            results)
    /\ (forall host rid,
          In (host, Resolved rid)
            (combine (filter valid_host
                        (extractTraefikHosts (labels_or_empty (Some bare_labels)))) results) ->
          Map_get (recordKey (String.substring 0 12 example_id) host)
            (managedRecords (heap (after accepting_registrar
                                     (createDNSRecordsForContainer example_config example_id)
                                     {| heap := initial; trace := [] |})))
          = Some (stored_record (String.substring 0 12 example_id) host rid))
    /\ (forall host e,
          In (host, Rejected e)
            (combine (filter valid_host
                        (extractTraefikHosts (labels_or_empty (Some bare_labels)))) results) ->
          Map_get (recordKey (String.substring 0 12 example_id) host)
            (managedRecords (heap (after accepting_registrar
                                     (createDNSRecordsForContainer example_config example_id)
                                     {| heap := initial; trace := [] |})))
          = Map_get (recordKey (String.substring 0 12 example_id) host) (managedRecords initial)).
Proof.
  apply (createDNSRecordsForContainer_per_host example_config accepting_registrar example_id
           {| Id := example_id; Config_Labels := Some bare_labels |}
           {| heap := initial; trace := [] |}); reflexivity.
Defined.

(** ** Timers across a tick *)

(** Once the handle [t] was handed out and is not armed, no update of the
    heap arms it again. *)
Lemma HeapOp_cleared (t : nat) (f : Heap -> Heap) (h : Heap) :
  HeapOp f ->
  t < nextTimer h /\ armed t h = None ->
  t < nextTimer (f h) /\ armed t (f h) = None.
Proof.
  intros Hop [Hlt Hno]. destruct Hop; cbn; auto.
  - split; [lia |]. unfold armed. cbn [timers arm].
    rewrite find_app_none by exact Hno. cbn.
    destruct (Nat.eqb_spec (nextTimer h) t); [lia | reflexivity].
  - split; [exact Hlt | now apply armed_disarm].
Qed.

Lemma Within_task_createDNSRecordsForContainer (config : Config) (id : string) :
  Within HeapOp (fun _ => True) (createDNSRecordsForContainer config id).
Proof. apply Within_createDNSRecordsForContainer; auto; constructor. Qed.

Lemma Within_task_scheduleRecordDeletion (config : Config) (cid : string) :
  Within HeapOp (fun _ => True) (scheduleRecordDeletion config cid).
Proof. apply Within_scheduleRecordDeletion; auto; constructor. Qed.

Lemma Within_task_monitorContainer (config : Config) (running : list string)
    (info : ContainerInfo) :
  Within HeapOp (fun _ => True) (monitorContainer config running info).
Proof.
  pose proof (Within_task_createDNSRecordsForContainer config) as Hc.
  unfold monitorContainer. within; constructor.
Qed.

Lemma Within_task_scheduleIfStopped (config : Config) (running : list string)
    (kr : string * ManagedRecord) :
  Within HeapOp (fun _ => True) (scheduleIfStopped config running kr).
Proof.
  pose proof (Within_task_scheduleRecordDeletion config) as Hs.
  unfold scheduleIfStopped. within.
Qed.

(** What every program of the engine keeps: a heap that is well formed, the
    handles handed out, and a handle that is spent. *)
Lemma engine_run_keeps {A} (out : Outside) (p : Prog A) (w : World) :
  Within HeapOp (fun _ => True) p ->
  let h' := heap (after out p w) in
  (well_formed (heap w) -> well_formed h')
  /\ nextTimer (heap w) <= nextTimer h'
  /\ (forall t, t < nextTimer (heap w) -> armed t (heap w) = None ->
                armed t h' = None).
Proof.
  intros Hp. cbv zeta.
  pose proof (Within_run HeapOp (fun _ : Event => True)
                (fun h h' : Heap =>
                   (well_formed h -> well_formed h')
                   /\ nextTimer h <= nextTimer h'
                   /\ (forall t, t < nextTimer h -> armed t h = None -> armed t h' = None))
                out p Hp) as Hrun.
  apply Hrun.
  - intros h. split; [auto | split; [lia | auto]].
  - intros h1 h2 h3 [A1 [A2 A3]] [B1 [B2 B3]]. split; [auto | split; [lia |]].
    intros t Ht Hno. apply B3; [lia | auto].
  - intros f h Hop. split; [| split].
    + now apply HeapOp_well_formed.
    + destruct Hop; cbn; lia.
    + intros t Ht Hno. now apply (HeapOp_cleared t f h Hop).
Qed.

Lemma fold_run_keeps {X B} (out : Outside) (body : X -> Prog B) (xs : list X) (w : World) :
  (forall x, Within HeapOp (fun _ => True) (body x)) ->
  let h' := heap (fold_left (fun w' x => after out (body x) w') xs w) in
  (well_formed (heap w) -> well_formed h')
  /\ nextTimer (heap w) <= nextTimer h'
  /\ (forall t, t < nextTimer (heap w) -> armed t (heap w) = None ->
                armed t h' = None).
Proof.
  intros Hb. cbv zeta. revert w. induction xs as [|x xs IH]; intros w; cbn [fold_left].
  - split; [auto | split; [lia | auto]].
  - destruct (engine_run_keeps out (body x) w (Hb x)) as [A1 [A2 A3]].
    destruct (IH (after out (body x) w)) as [B1 [B2 B3]].
    split; [auto | split; [lia |]].
    intros t Ht Hno. apply B3; [lia | auto].
Qed.

Section RestartAndStop.

Variable config : Config.
Variable out : Outside.
Variable cid : string.

Local Abbreviation step1 w info := (after out (monitorContainer config [] info) w).
Local Abbreviation phase1 containers w :=
  (fold_left (fun w' info => after out (monitorContainer config [] info) w') containers w).

(** One container of the first loop, seen from the timer [t] registered for
    [cid]: the timer is cleared when the container is [cid] and runs, and
    stays registered otherwise. *)
Lemma step1_spends (t : nat) (info : ContainerInfo) (w : World) :
  Map_get cid (deletePendingRecords (heap w)) = Some t ->
  (is_running info = true -> short_id info = cid -> armed t (heap (step1 w info)) = None)
  /\ (Map_get cid (deletePendingRecords (heap (step1 w info))) = Some t
      \/ armed t (heap (step1 w info)) = None).
Proof.
  intros Hget. destruct (is_running info) eqn:Hrun.
  - destruct (step1_cases config out info w Hrun)
      as [w0 [_ [[Hp [Ht Hn]] [_ [[-> Hhas]|[-> Hhas]]]]]].
    + rewrite Hp. split; [| now left].
      intros _ Hsid. rewrite Hsid in Hhas.
      apply Map_get_has in Hget. congruence.
    + destruct (String.eqb_spec (short_id info) cid) as [Hsid|Hne].
      * assert (Hno : armed t (heap (cancel_pending (short_id info) w0)) = None).
        { unfold cancel_pending. cbn [heap]. rewrite Hsid, Hp, Hget.
          apply armed_disarm_same. }
        split; [auto | now right].
      * split; [intros _ Hsid; contradiction | left].
        rewrite cancel_pending_pending, Hp.
        rewrite Map_get_delete_other by congruence. exact Hget.
  - rewrite (step1_idle config out info w Hrun). split; [discriminate | now left].
Qed.

Lemma phase1_spends (t : nat) (containers : list ContainerInfo) (w : World) :
  t < nextTimer (heap w) ->
  Map_get cid (deletePendingRecords (heap w)) = Some t ->
  (exists info, In info containers /\ is_running info = true /\ short_id info = cid) ->
  armed t (heap (phase1 containers w)) = None
  /\ t < nextTimer (heap (phase1 containers w)).
Proof.
  revert w. induction containers as [|x containers IH]; intros w Hlt Hget [info [Hin [Hrun Hsid]]];
    [destruct Hin |].
  cbn [fold_left].
  destruct (step1_spends t x w Hget) as [Hthis Hkeep].
  destruct (engine_run_keeps out (monitorContainer config [] x) w
              (Within_task_monitorContainer config [] x)) as [_ [Hmono _]].
  destruct (fold_run_keeps out (monitorContainer config []) containers (step1 w x)
              (Within_task_monitorContainer config [])) as [_ [Hmono' Hspent]].
  assert (Hdone : armed t (heap (step1 w x)) = None ->
                  armed t (heap (phase1 containers (step1 w x))) = None
                  /\ t < nextTimer (heap (phase1 containers (step1 w x)))).
  { intros Hno. split; [apply Hspent; [lia | exact Hno] | lia]. }
  destruct Hin as [->|Hin]; [now apply Hdone, Hthis |].
  destruct Hkeep as [Hget'|Hno]; [| now apply Hdone].
  apply IH; [lia | exact Hget' | eauto].
Qed.

Variable running : list string.
Variable since : nat.

Local Abbreviation step2 w kr := (after out (scheduleIfStopped config running kr) w).
Local Abbreviation phase2 records w :=
  (fold_left (fun w' kr => after out (scheduleIfStopped config running kr) w') records w).

(** One record of the second loop, seen from the container [cid], which
    does not run: its deletion stays scheduled, and gets scheduled at its
    first record. *)
Lemma step2_schedules (kr : string * ManagedRecord) (w : World) :
  well_formed (heap w) ->
  since <= nextTimer (heap w) ->
  JS.Set_has cid running = false ->
  (deletion_scheduled config cid since (heap w) ->
   deletion_scheduled config cid since (heap (step2 w kr)))
  /\ (Map_has cid (deletePendingRecords (heap w)) = false ->
      (containerId (snd kr) = cid -> deletion_scheduled config cid since (heap (step2 w kr)))
      /\ (containerId (snd kr) <> cid ->
          Map_has cid (deletePendingRecords (heap (step2 w kr))) = false)).
Proof.
  intros Hwf Hsince Hstopped. rewrite step2_eq.
  destruct (JS.Set_has (containerId (snd kr)) running) eqn:Hrun; cbn [negb andb].
  { split; [auto |]. intros Hno. split; [| auto]. intros E. congruence. }
  destruct (Map_has (containerId (snd kr)) (deletePendingRecords (heap w))) eqn:Hpend;
    cbn [negb].
  { split; [auto |]. intros Hno. split; [| auto]. intros E. congruence. }
  unfold after. rewrite run_scheduleRecordDeletion. cbn [snd]. rewrite Hpend. cbv zeta.
  unfold deletion_scheduled, armed, with_deletePendingRecords, arm.
  cbn [heap deletePendingRecords timers nextTimer].
  split.
  - intros [t [Hget [Harmed Hle]]]. exists t.
    assert (Hne : cid <> containerId (snd kr)).
    { intros E. apply Map_get_has in Hget. congruence. }
    split; [now rewrite Map_get_set_other |].
    split; [now apply find_app_some | exact Hle].
  - intros Hno. split.
    + intros E. rewrite E. exists (nextTimer (heap w)).
      split; [apply Map_get_set |]. split; [| exact Hsince].
      rewrite find_app_none.
      * cbn. now rewrite Nat.eqb_refl.
      * apply (armed_fresh (nextTimer (heap w)) (heap w)). apply Hwf.
    + intros Hne. rewrite Map_has_set, Hno.
      destruct (String.eqb_spec cid (containerId (snd kr))); [congruence | reflexivity].
Qed.

Lemma phase2_schedules (records : list (string * ManagedRecord)) (w : World) :
  well_formed (heap w) ->
  since <= nextTimer (heap w) ->
  JS.Set_has cid running = false ->
  deletion_scheduled config cid since (heap w)
  \/ Map_has cid (deletePendingRecords (heap w)) = false
     /\ (exists kr, In kr records /\ containerId (snd kr) = cid) ->
  deletion_scheduled config cid since (heap (phase2 records w)).
Proof.
  intros Hwf Hsince Hstopped. revert w Hwf Hsince.
  induction records as [|x records IH]; intros w Hwf Hsince Hcase; cbn [fold_left].
  - destruct Hcase as [H|[_ [kr [[] _]]]]. exact H.
  - destruct (step2_schedules x w Hwf Hsince Hstopped) as [Hkeep Hnew].
    destruct (engine_run_keeps out (scheduleIfStopped config running x) w
                (Within_task_scheduleIfStopped config running x)) as [Hwf' [Hmono _]].
    apply IH; [auto | lia |].
    destruct Hcase as [H|[Hno [kr [Hin E]]]]; [left; auto |].
    destruct (Hnew Hno) as [Hthis Hother].
    destruct (String.eqb_spec (containerId (snd x)) cid) as [Hx|Hx]; [left; auto |].
    right. split; [auto |]. exists kr. split; [| exact E].
    destruct Hin as [->|Hin]; [contradiction | exact Hin].
Qed.

End RestartAndStop.

(** X7.  A container seen running by a tick loses its pending deletion: its
    entry leaves the table, and the timer registered for it is cleared, so
    that its callback can no longer run. *)
Theorem restart_cancels_deletion (config : Config) (out : Outside)
    (containers : list ContainerInfo) (info : ContainerInfo) (t : nat) (w : World) :
  docker_listContainers out = Resolved containers ->
  In info containers -> is_running info = true ->
  Map_get (short_id info) (deletePendingRecords (heap w)) = Some t ->
  t < nextTimer (heap w) ->
  let w' := after out (monitorContainers config) w in
  Map_has (short_id info) (deletePendingRecords (heap w')) = false
  /\ armed t (heap w') = None
  /\ forall s, p_heap s = heap w' -> turn config s (Fire t) = None.
Proof.
  intros Hlist Hin Hrun Hget Hlt. cbv zeta.
  assert (Harmed : armed t (heap (after out (monitorContainers config) w)) = None).
  { rewrite tick_eq, Hlist. cbv zeta.
    destruct (phase1_spends config out (short_id info) t containers w Hlt Hget)
      as [Hno Hlt']; [eauto |].
    set (w1 := fold_left _ containers w) in *.
    destruct (fold_run_keeps out (scheduleIfStopped config (running_ids [] containers))
                (managedRecords (heap w1)) w1
                (Within_task_scheduleIfStopped config (running_ids [] containers)))
      as [_ [_ Hspent]].
    now apply Hspent. }
  split; [| split].
  - destruct (tick_post config out containers w Hlist) as [Hcancel _]. now apply Hcancel.
  - exact Harmed.
  - intros s Hs. unfold turn. unfold armed in Harmed. rewrite Hs, Harmed. reflexivity.
Qed.

Lemma restart_cancels_deletion_witness :
  Map_has (short_id example_container)
    (deletePendingRecords
       (heap (after accepting_registrar (monitorContainers example_config)
                {| heap := pending_heap; trace := [] |}))) = false
  /\ armed 0 (heap (after accepting_registrar (monitorContainers example_config)
                      {| heap := pending_heap; trace := [] |})) = None
  /\ forall s,
       p_heap s = heap (after accepting_registrar (monitorContainers example_config)
                          {| heap := pending_heap; trace := [] |}) ->
       turn example_config s (Fire 0) = None.
Proof.
  apply (restart_cancels_deletion example_config accepting_registrar [example_container]
           example_container 0 {| heap := pending_heap; trace := [] |}).
  - reflexivity.
  - now left.
  - reflexivity.
  - reflexivity.
  - cbn. lia.
Defined.

(** X8.  After a tick, the deletion of every record whose container was not
    seen running is scheduled: when the container had no pending deletion
    before, one timer with the configured delay was armed for it and its
    handle registered. *)
Theorem stop_schedules_deletion (config : Config) (out : Outside)
    (containers : list ContainerInfo) (kr : string * ManagedRecord) (w : World) :
  docker_listContainers out = Resolved containers ->
  well_formed (heap w) ->
  let w' := after out (monitorContainers config) w in
  In kr (managedRecords (heap w')) ->
  JS.Set_has (containerId (snd kr)) (running_ids [] containers) = false ->
  Map_has (containerId (snd kr)) (deletePendingRecords (heap w)) = false ->
  deletion_scheduled config (containerId (snd kr)) (nextTimer (heap w)) (heap w').
Proof.
  intros Hlist Hwf. cbv zeta. rewrite tick_eq, Hlist. cbv zeta.
  set (w1 := fold_left _ containers w).
  intros Hin Hstopped Hno.
  destruct (phase2_heap config out (running_ids [] containers) (managedRecords (heap w1)) w1)
    as [Hrec _].
  rewrite Hrec in Hin.
  destruct (fold_run_keeps out (monitorContainer config []) containers w
              (Within_task_monitorContainer config [])) as [Hwf1 [Hmono _]].
  apply phase2_schedules; [now apply Hwf1 | exact Hmono | exact Hstopped |].
  right. split; [| eauto].
  destruct (Map_has (containerId (snd kr)) (deletePendingRecords (heap w1))) eqn:E;
    [| reflexivity].
  apply phase1_pending in E. congruence.
Qed.

Lemma stop_schedules_deletion_witness :
  deletion_scheduled example_config (containerId example_record) 1
    (heap (after (example_outside (Resolved [stopped_container]) bare_labels
                    (Resolved "4711") (Resolved tt))
             (monitorContainers example_config)
             {| heap := with_deletePendingRecords (fun _ => [])
                          (disarm 0 pending_heap);
                trace := [] |})).
Proof.
  apply (stop_schedules_deletion example_config
           (example_outside (Resolved [stopped_container]) bare_labels
              (Resolved "4711") (Resolved tt))
           [stopped_container]
           ("0123456789ab-app.example.com", example_record)
           {| heap := with_deletePendingRecords (fun _ => []) (disarm 0 pending_heap);
              trace := [] |}).
  - reflexivity.
  - constructor; cbn; try (intros x []); repeat constructor; auto.
  - vm_compute. now left.
  - reflexivity.
  - reflexivity.
Defined.

(** X9.  A deletion that failed is tried again: when the callback of a
    container has run, whatever the registrar answered, the next tick that
    does not see the container running schedules the deletion of each of its
    records still in the table, with a new timer. *)
Theorem failed_deletion_rescheduled (config : Config) (out1 out2 : Outside)
    (containers : list ContainerInfo) (cid : string) (h : Heap)
    (kr : string * ManagedRecord) :
  well_formed h ->
  docker_listContainers out2 = Resolved containers ->
  JS.Set_has cid (running_ids [] containers) = false ->
  let w1 := exec_from out1 (deletionCallback cid) h in
  let w2 := after out2 (monitorContainers config) w1 in
  In kr (managedRecords (heap w2)) ->
  containerId (snd kr) = cid ->
  Map_has cid (deletePendingRecords (heap w1)) = false
  /\ deletion_scheduled config cid (nextTimer h) (heap w2).
Proof.
  intros Hwf Hlist Hstopped. cbv zeta. intros Hin Hcid.
  set (w1 := exec_from out1 (deletionCallback cid) h) in *.
  assert (Hno : Map_has cid (deletePendingRecords (heap w1)) = false).
  { unfold w1, exec_from. rewrite run_deletionCallback. cbn [snd].
    unfold on_heap. cbn [heap deletePendingRecords with_deletePendingRecords].
    apply Map_has_delete_same. }
  destruct (engine_run_keeps out1 (deletionCallback cid) {| heap := h; trace := [] |}
              (Within_task_deletionCallback cid)) as [Hwf1 [Hmono1 _]].
  cbn [heap] in Hwf1, Hmono1. rewrite <- exec_from_after in Hwf1, Hmono1.
  fold w1 in Hwf1, Hmono1.
  split; [exact Hno |].
  revert Hin. rewrite tick_eq, Hlist. cbv zeta.
  set (w1' := fold_left _ containers w1). intros Hin.
  destruct (phase2_heap config out2 (running_ids [] containers) (managedRecords (heap w1')) w1')
    as [Hrec _].
  rewrite Hrec in Hin.
  destruct (fold_run_keeps out2 (monitorContainer config []) containers w1
              (Within_task_monitorContainer config [])) as [Hwf1' [Hmono1' _]].
  fold w1' in Hwf1', Hmono1'.
  assert (Hno' : Map_has cid (deletePendingRecords (heap w1')) = false).
  { destruct (Map_has cid (deletePendingRecords (heap w1'))) eqn:E; [| reflexivity].
    apply phase1_pending in E. congruence. }
  apply phase2_schedules; [now apply Hwf1', Hwf1 | lia | exact Hstopped |].
  right. split; [exact Hno' | eauto].
Qed.

Lemma failed_deletion_rescheduled_witness :
  Map_has "0123456789ab"
    (deletePendingRecords
       (heap (exec_from failing_registrar (deletionCallback "0123456789ab")
                (disarm 0 pending_heap)))) = false
  /\ deletion_scheduled example_config "0123456789ab" (nextTimer (disarm 0 pending_heap))
       (heap (after (example_outside (Resolved [stopped_container]) bare_labels
                       (Resolved "4711") (Resolved tt))
                (monitorContainers example_config)
                (exec_from failing_registrar (deletionCallback "0123456789ab")
                   (disarm 0 pending_heap)))).
Proof.
  apply (failed_deletion_rescheduled example_config failing_registrar
           (example_outside (Resolved [stopped_container]) bare_labels
              (Resolved "4711") (Resolved tt))
           [stopped_container] "0123456789ab" (disarm 0 pending_heap)
           ("0123456789ab-app.example.com", example_record)).
  - constructor; cbn; try (intros x []); repeat constructor; auto.
  - reflexivity.
  - reflexivity.
  - vm_compute. now left.
  - reflexivity.
Defined.

(** ** Invariants of the event loop *)

Section Invariants.

Variable config : Config.
Variable ops : (Heap -> Heap) -> Prop.
Variable evs : Event -> Prop.
Variable I : Heap -> Prop.

Hypothesis ops_keep : forall f h, ops f -> I h -> I (f h).
Hypothesis ops_disarm : forall t, ops (disarm t).
Hypothesis tick_within : Within ops evs (monitorContainers config).
Hypothesis sync_within : forall now, Within ops evs (api_sync config now).
Hypothesis health_within : forall now, Within ops evs (api_health config now).
Hypothesis callback_within : forall cid, Within ops evs (deletionCallback cid).

Lemma advance_events (p : Prog unit) (w : World) :
  Within ops evs p -> Forall evs (trace w) -> Forall evs (trace (fst (advance p w))).
Proof.
  intros Hp. revert w. induction Hp; intros w Hw; cbn [advance fst]; auto.
  apply IHHp. cbn. apply Forall_app. split; [exact Hw | now repeat constructor].
Qed.

Lemma resume_events (p q : Prog unit) (r : Reply) (new : list Event) :
  Within ops evs p -> resume p r = Some (q, new) -> Forall evs new.
Proof.
  intros Hp. destruct Hp; destruct r; cbn; intros E; try discriminate;
    injection E as _ <-; repeat constructor; auto.
Qed.

(** The heap, the trace and the suspended tasks between two turns. *)
Local Abbreviation stable s :=
  (I (p_heap s) /\ Forall evs (p_trace s) /\ Forall (Within ops evs) (p_tasks s)).

Lemma spawn_stable (p : Prog unit) (s : Process) :
  Within ops evs p -> stable s -> stable (spawn p s).
Proof.
  intros Hp [Hh [Ht Hk]].
  destruct (spawn_keeps ops evs I ops_keep p s Hp Hh Hk) as [Hh' Hk'].
  split; [exact Hh' |]. split; [| exact Hk'].
  pose proof (advance_events p {| heap := p_heap s; trace := p_trace s |} Hp Ht) as Hev.
  unfold spawn. destruct (advance p _) as [w q]. exact Hev.
Qed.

Lemma turn_stable (s s' : Process) (a : Action) :
  turn config s a = Some s' -> stable s -> stable s'.
Proof.
  intros Hturn Hs.
  destruct a as [|now|now|t|i r]; unfold turn in Hturn.
  - injection Hturn as <-. now apply spawn_stable.
  - injection Hturn as <-. now apply spawn_stable.
  - injection Hturn as <-. now apply spawn_stable.
  - destruct (find _ _) as [x|]; [| discriminate]. injection Hturn as <-.
    apply spawn_stable; [apply callback_within |].
    destruct Hs as [Hh [Ht Hk]]. split; [| split]; cbn; auto.
  - destruct Hs as [Hh [Ht Hk]].
    destruct (nth_error (p_tasks s) i) as [p|] eqn:Hnth; [| discriminate].
    destruct (resume p r) as [[q new]|] eqn:Hres; [| discriminate].
    assert (Hp : Within ops evs p).
    { rewrite Forall_forall in Hk. apply Hk. eapply nth_error_In; eauto. }
    pose proof (resume_keeps _ _ p q r new Hp Hres) as Hq.
    pose proof (resume_events p q r new Hp Hres) as Hnew.
    destruct (advance_keeps ops evs I ops_keep q
                {| heap := p_heap s; trace := p_trace s ++ new |} Hq Hh) as [Hh' Hq'].
    pose proof (advance_events q {| heap := p_heap s; trace := p_trace s ++ new |} Hq) as Hev.
    destruct (advance q _) as [w q']. injection Hturn as <-. cbn in *.
    split; [exact Hh' |]. split.
    + apply Hev. apply Forall_app. auto.
    + now apply replace_task_keeps.
Qed.

Lemma turns_stable (acts : list Action) (s s' : Process) :
  turns config s acts = Some s' -> stable s -> stable s'.
Proof.
  revert s. induction acts as [|a acts IH]; intros s; cbn.
  - now intros [= <-].
  - destruct (turn config s a) as [s1|] eqn:Hturn; [| discriminate].
    intros Hrest Hs. apply (IH s1 Hrest). eapply turn_stable; eauto.
Qed.

Lemma reachable_stable (s : Process) :
  I initial -> reachable config s -> stable s.
Proof.
  intros Hinit [acts Hacts]. apply (turns_stable acts boot s Hacts).
  split; [exact Hinit |]. split; constructor.
Qed.

End Invariants.

(** The engine stays within its updates and events. *)
Section EngineFootprint.

Variable config : Config.

Lemma engine_logs (l : Level) (m : string) : engine_event config (EvLog l m).
Proof. exact Logic.I. Qed.

Lemma engine_deletes (d i : string) (r : Result unit) : engine_event config (EvDelete d i r).
Proof. exact Logic.I. Qed.

Lemma engine_responses (st : Z) (b : Body) : engine_event config (EvResponse st b).
Proof. exact Logic.I. Qed.

Lemma Within_engine_createDNSRecordForHost (cid host : string) :
  Within (EngineOp config) (engine_event config) (createDNSRecordForHost config cid host).
Proof.
  unfold createDNSRecordForHost.
  destruct (Nat.ltb (List.length (JS.split "."%char host)) 2) eqn:Hlen.
  { repeat constructor. }
  fold (subdomain_of host). fold (domain_of host).
  destruct (JS.truthy (subdomain_of host)) eqn:Hsub; cbn [negb].
  2:{ repeat constructor. }
  assert (Hv : valid_host host = true).
  { unfold valid_host. now rewrite Hlen, Hsub. }
  apply Within_try_catch; [| intros e; repeat constructor].
  apply Within_bind.
  - apply Within_createCNAMERecord; [apply engine_logs |].
    intros r. exists host. split; [exact Hv | reflexivity].
  - intros rid. repeat constructor. cbn. exact Hv.
Qed.

Lemma Within_engine_createDNSRecordsForContainer (id : string) :
  Within (EngineOp config) (engine_event config) (createDNSRecordsForContainer config id).
Proof.
  pose proof Within_engine_createDNSRecordForHost as Hhost.
  unfold createDNSRecordsForContainer. within; exact Logic.I.
Qed.

Lemma Within_engine_scheduleRecordDeletion (cid : string) :
  Within (EngineOp config) (engine_event config) (scheduleRecordDeletion config cid).
Proof.
  unfold scheduleRecordDeletion, setTimeout. within; try exact Logic.I; constructor.
Qed.

Lemma Within_engine_monitorContainers :
  Within (EngineOp config) (engine_event config) (monitorContainers config).
Proof.
  pose proof Within_engine_createDNSRecordsForContainer as Hc.
  pose proof Within_engine_scheduleRecordDeletion as Hs.
  unfold monitorContainers, monitorContainer, scheduleIfStopped.
  within; try exact Logic.I; constructor.
Qed.

Lemma Within_engine_api_sync (now : string) :
  Within (EngineOp config) (engine_event config) (api_sync config now).
Proof.
  unfold api_sync. apply Within_try_catch; [| intros; repeat constructor].
  apply Within_bind; [repeat constructor | intros _].
  apply Within_bind; [apply Within_engine_monitorContainers | intros; repeat constructor].
Qed.

Lemma Within_engine_api_health (now : string) :
  Within (EngineOp config) (engine_event config) (api_health config now).
Proof. unfold api_health. repeat constructor. Qed.

Lemma Within_engine_deletionCallback (cid : string) :
  Within (EngineOp config) (engine_event config) (deletionCallback cid).
Proof.
  apply Within_deletionCallback; intros; try exact Logic.I; constructor.
Qed.

Lemma EngineOp_heap_shape (f : Heap -> Heap) (h : Heap) :
  EngineOp config f -> heap_shape config h -> heap_shape config (f h).
Proof.
  intros Hop [Hrec Htim]. destruct Hop; split; cbn; auto.
  - rewrite Forall_forall in *. intros kv Hin.
    apply Map_set_In in Hin as [->|Hin]; auto.
  - rewrite Forall_forall in *. intros kv Hin. apply filter_In in Hin as [Hin _]. auto.
  - apply Forall_app. split; [exact Htim | now repeat constructor].
  - rewrite Forall_forall in *. intros x Hin. apply filter_In in Hin as [Hin _]. auto.
Qed.

Lemma reachable_engine (s : Process) :
  reachable config s ->
  heap_shape config (p_heap s) /\ Forall (engine_event config) (p_trace s).
Proof.
  intros Hs.
  destruct (reachable_stable config (EngineOp config) (engine_event config)
              (heap_shape config) EngineOp_heap_shape (eop_disarm config)
              Within_engine_monitorContainers Within_engine_api_sync
              Within_engine_api_health Within_engine_deletionCallback s)
    as [Hh [Ht _]]; auto.
  split; constructor.
Qed.

End EngineFootprint.

Lemma find_unique (l : list Timer) (x : Timer) :
  NoDup (map handle l) -> In x l ->
  find (fun y => Nat.eqb (handle y) (handle x)) l = Some x.
Proof.
  induction l as [|y l IH]; cbn; intros Hnd Hin; [destruct Hin |].
  inversion Hnd as [|? ? Hnot Hnd']; subst.
  destruct Hin as [->|Hin]; [now rewrite Nat.eqb_refl |].
  destruct (Nat.eqb_spec (handle y) (handle x)) as [E|_]; [| now apply IH].
  exfalso. apply Hnot. rewrite E. now apply in_map.
Qed.

(** X10.  In every state the process can reach, whatever the interleaving,
    each entry of the table of records sits under the key of its container
    and hostname, holds the two halves of that hostname, which has a
    subdomain, and is the only entry of its container and hostname. *)
Theorem records_well_keyed (config : Config) (s : Process) :
  reachable config s ->
  (forall k r,
      In (k, r) (managedRecords (p_heap s)) ->
      k = recordKey (containerId r) (hostname r)
      /\ r = stored_record (containerId r) (hostname r) (recordId r)
      /\ valid_host (hostname r) = true)
  /\ (forall k r k' r',
        In (k, r) (managedRecords (p_heap s)) ->
        In (k', r') (managedRecords (p_heap s)) ->
        containerId r = containerId r' -> hostname r = hostname r' ->
        k = k' /\ r = r').
Proof.
  intros Hs.
  destruct (reachable_engine config s Hs) as [[Hrec _] _].
  rewrite Forall_forall in Hrec.
  assert (Hkeyed : forall k r, In (k, r) (managedRecords (p_heap s)) ->
                               k = recordKey (containerId r) (hostname r)
                               /\ r = stored_record (containerId r) (hostname r) (recordId r)
                               /\ valid_host (hostname r) = true).
  { intros k r Hin. exact (Hrec (k, r) Hin). }
  split; [exact Hkeyed |].
  intros k r k' r' Hin Hin' Hc Hh.
  destruct (Hkeyed k r Hin) as [Hk _]. destruct (Hkeyed k' r' Hin') as [Hk' _].
  assert (E : k = k') by congruence. clear Hk Hk'. subst k'. split; [reflexivity |].
  eapply NoDup_keys_unique; [| exact Hin | exact Hin'].
  apply (reachable_well_formed config s Hs).
Qed.

Lemma records_well_keyed_witness :
  (forall k r,
      In (k, r) (managedRecords (p_heap (state_after example_config overlapping_ticks))) ->
      k = recordKey (containerId r) (hostname r)
      /\ r = stored_record (containerId r) (hostname r) (recordId r)
      /\ valid_host (hostname r) = true)
  /\ (forall k r k' r',
        In (k, r) (managedRecords (p_heap (state_after example_config overlapping_ticks))) ->
        In (k', r') (managedRecords (p_heap (state_after example_config overlapping_ticks))) ->
        containerId r = containerId r' -> hostname r = hostname r' ->
        k = k' /\ r = r').
Proof.
  apply (records_well_keyed example_config (state_after example_config overlapping_ticks)).
  exists overlapping_ticks. vm_compute. reflexivity.
Defined.

(** ** The delay of a deletion timer *)

Lemma to_double_small (z : Z) : (Z.abs z < 2 ^ 53)%Z -> JS.to_double z = z.
Proof.
  intros H. unfold JS.to_double. cbv zeta.
  destruct (Z.ltb_spec (Z.abs z) (2 ^ 53)); [reflexivity | lia].
Qed.

(** Above [2^53] in absolute value the double keeps the sign and stays at
    least [2^52] away from zero. *)
Lemma to_double_large (z : Z) :
  (2 ^ 53 <= Z.abs z)%Z -> (2 ^ 52 <= Z.sgn z * JS.to_double z)%Z.
Proof.
  intros H. unfold JS.to_double. cbv zeta.
  destruct (Z.ltb_spec (Z.abs z) (2 ^ 53)) as [Hlt|_]; [lia |].
  set (a := Z.abs z) in *.
  assert (Ha : (0 < a)%Z) by (change (2 ^ 53)%Z with 9007199254740992%Z in H; lia).
  assert (Hlog : (53 <= Z.log2 a)%Z).
  { change 53%Z with (Z.log2 (2 ^ 53)). now apply Z.log2_le_mono. }
  set (e := (Z.log2 a - 52)%Z).
  assert (He : (0 < 2 ^ e)%Z) by (apply Z.pow_pos_nonneg; unfold e; lia).
  assert (Hq : (2 ^ 52 <= a / 2 ^ e)%Z).
  { apply Z.div_le_lower_bound; [exact He |].
    rewrite <- Z.pow_add_r by (unfold e; lia).
    replace (e + 52)%Z with (Z.log2 a) by (unfold e; lia).
    apply Z.log2_spec. exact Ha. }
  set (q := (a / 2 ^ e)%Z) in *.
  set (q' := if (a mod 2 ^ e <? 2 ^ (e - 1))%Z then q
             else if (2 ^ (e - 1) <? a mod 2 ^ e)%Z then (q + 1)%Z
             else if Z.even q then q else (q + 1)%Z).
  assert (Hq' : (q <= q')%Z).
  { unfold q'. destruct (_ <? _)%Z; [lia |]. destruct (_ <? _)%Z; [lia |].
    destruct (Z.even q); lia. }
  assert (Hs : (Z.sgn z * Z.sgn z = 1)%Z).
  { unfold a in Ha. destruct z; cbn in *; lia. }
  replace (Z.sgn z * (Z.sgn z * (q' * 2 ^ e)))%Z with (q' * 2 ^ e)%Z
    by (rewrite Z.mul_assoc, Hs; lia).
  change (2 ^ 52)%Z with 4503599627370496%Z in *. nia.
Qed.

(** The delay of the timer that [setTimeout] arms for the product of a
    number of seconds by 1000: the product when it lies between 1 and
    [TIMEOUT_MAX], and 1 millisecond otherwise.  The rounding of the product
    never moves it across either bound. *)
Lemma timeout_after_times (seconds : Z) :
  ((1 <= seconds * 1000 <= TIMEOUT_MAX)%Z ->
   timeout_after (JS.times seconds 1000) = (seconds * 1000)%Z)
  /\ (~ (1 <= seconds * 1000 <= TIMEOUT_MAX)%Z ->
      timeout_after (JS.times seconds 1000) = 1%Z).
Proof.
  unfold JS.times, timeout_after, TIMEOUT_MAX.
  set (p := (seconds * 1000)%Z).
  destruct (Z.lt_ge_cases (Z.abs p) (2 ^ 53)) as [Hsmall|Hlarge].
  - rewrite (to_double_small p Hsmall). split; intros H.
    + destruct (Z.leb_spec 1 p); [| lia]. destruct (Z.leb_spec p 2147483647); [| lia].
      reflexivity.
    + destruct (Z.leb_spec 1 p); [| reflexivity].
      destruct (Z.leb_spec p 2147483647); [lia | reflexivity].
  - pose proof (to_double_large p Hlarge) as Hd.
    change (2 ^ 53)%Z with 9007199254740992%Z in Hlarge.
    change (2 ^ 52)%Z with 4503599627370496%Z in Hd.
    split; intros H; [lia |].
    destruct (Z.leb_spec 1 (JS.to_double p)); [| reflexivity].
    destruct (Z.leb_spec (JS.to_double p) 2147483647); [| reflexivity].
    exfalso.
    assert (Hsg : (Z.sgn p = -1 \/ Z.sgn p = 0 \/ Z.sgn p = 1)%Z)
      by (destruct p; cbn; auto).
    destruct Hsg as [E|[E|E]]; rewrite E in Hd; lia.
Qed.

(** X11.  In every state the process can reach, each armed timer has the
    delay that the runtime gives to [deleteDelay * 1000] milliseconds: that
    product when it lies between 1 and 2147483647, and 1 millisecond
    otherwise, so that a delay above 2147483 seconds deletes at once.  Its
    handle is its own and was handed out before: when it fires, it is the
    timer that runs. *)
Theorem timers_as_armed (config : Config) (s : Process) :
  reachable config s ->
  forall x, In x (timers (p_heap s)) ->
    delay x = timeout_after (JS.times (deleteDelay config) 1000)
    /\ ((1 <= deleteDelay config * 1000 <= 2147483647)%Z ->
        delay x = (deleteDelay config * 1000)%Z)
    /\ (~ (1 <= deleteDelay config * 1000 <= 2147483647)%Z -> delay x = 1%Z)
    /\ handle x < nextTimer (p_heap s)
    /\ armed (handle x) (p_heap s) = Some x.
Proof.
  intros Hs x Hin.
  destruct (reachable_engine config s Hs) as [[_ Htim] _].
  rewrite Forall_forall in Htim.
  destruct (reachable_well_formed config s Hs) as [_ _ Hnd Hfresh].
  destruct (timeout_after_times (deleteDelay config)) as [Hin_range Hout].
  rewrite (Htim x Hin).
  split; [reflexivity |]. split; [exact Hin_range |]. split; [exact Hout |].
  split; [now apply Hfresh | now apply find_unique].
Qed.

Lemma timers_as_armed_witness :
  (delay {| handle := 2; delay := 300000; owner := "0123456789ab" |}
   = timeout_after (JS.times (deleteDelay example_config) 1000)
   /\ ((1 <= deleteDelay example_config * 1000 <= 2147483647)%Z ->
       delay {| handle := 2; delay := 300000; owner := "0123456789ab" |}
       = (deleteDelay example_config * 1000)%Z)
   /\ (~ (1 <= deleteDelay example_config * 1000 <= 2147483647)%Z ->
       delay {| handle := 2; delay := 300000; owner := "0123456789ab" |} = 1%Z)
   /\ handle {| handle := 2; delay := 300000; owner := "0123456789ab" |}
      < nextTimer (p_heap (state_after example_config stale_callback))
   /\ armed (handle {| handle := 2; delay := 300000; owner := "0123456789ab" |})
        (p_heap (state_after example_config stale_callback))
      = Some {| handle := 2; delay := 300000; owner := "0123456789ab" |})
  /\ delay {| handle := 0; delay := 1; owner := "0123456789ab" |} = 1%Z.
Proof.
  split.
  - apply (timers_as_armed example_config (state_after example_config stale_callback))
      with (x := {| handle := 2; delay := 300000; owner := "0123456789ab" |}).
    + exists stale_callback. vm_compute. reflexivity.
    + vm_compute. auto.
  - apply (timers_as_armed thirty_days_config (state_after thirty_days_config armed_deletion))
      with (x := {| handle := 0; delay := 1; owner := "0123456789ab" |}).
    + exists armed_deletion. vm_compute. reflexivity.
    + vm_compute. auto.
    + vm_compute. intros [_ H]. apply H. reflexivity.
Defined.

(** X12.  In every state the process can reach, each request for a record
    that was ever sent has the TTL 3600, names a host with a subdomain by its
    two halves, and points at the configured target, or at the host itself
    when none is configured. *)
Theorem create_requests_shape (config : Config) (s : Process) :
  reachable config s ->
  forall d n t ttl r,
    In (EvCreate d n t ttl r) (p_trace s) ->
    ttl = 3600%Z
    /\ valid_host (n ++ "." ++ d) = true
    /\ n = subdomain_of (n ++ "." ++ d)
    /\ d = domain_of (n ++ "." ++ d)
    /\ t = JS.or_ (targetDomain config) (n ++ "." ++ d).
Proof.
  intros Hs d n t ttl r Hin.
  destruct (reachable_engine config s Hs) as [_ Hev].
  rewrite Forall_forall in Hev.
  destruct (Hev _ Hin) as [host [Hv E]].
  unfold create_for in E. injection E as -> -> -> ->.
  rewrite (valid_host_rejoined host Hv). auto.
Qed.

Lemma create_requests_shape_witness :
  3600%Z = 3600%Z
  /\ valid_host ("app" ++ "." ++ "example.com") = true
  /\ "app" = subdomain_of ("app" ++ "." ++ "example.com")
  /\ "example.com" = domain_of ("app" ++ "." ++ "example.com")
  /\ "your-server.com" = JS.or_ (targetDomain example_config) ("app" ++ "." ++ "example.com").
Proof.
  apply (create_requests_shape example_config (state_after example_config overlapping_ticks))
    with (d := "example.com") (n := "app") (t := "your-server.com") (ttl := 3600%Z)
         (r := Resolved "4712").
  - exists overlapping_ticks. vm_compute. reflexivity.
  - vm_compute. repeat (first [left; reflexivity | right]).
Defined.

(** ** The listing of containers *)

Section Listing.

Variable out : Outside.

Lemma run_summarize (acc : list ContainerSummary) (info : ContainerInfo) (w : World) :
  run out (summarize acc info) w =
  (match docker_inspect out (info_Id info) with
   | Resolved details =>
       Resolved (if enabled details
                 then acc ++ [container_summary info (labels_or_empty (Config_Labels details))]
                 else acc)
   | Rejected e => Rejected e
   end, w).
Proof.
  unfold summarize, enabled. cbn [bind run].
  destruct (docker_inspect out (info_Id info)) as [details|e]; cbn [settle bind run];
    [| reflexivity].
  now destruct (JS.strict_eq _ _).
Qed.

(** The loop when every inspection succeeds. *)
Lemma run_summaries (details : string -> InspectInfo) (containers : list ContainerInfo)
    (acc : list ContainerSummary) (w : World) :
  (forall info, In info containers ->
                docker_inspect out (info_Id info) = Resolved (details (info_Id info))) ->
  run out (for_each_with containers acc summarize) w =
  (Resolved
     (acc ++ map (fun info => container_summary info
                                (labels_or_empty (Config_Labels (details (info_Id info)))))
               (filter (fun info => enabled (details (info_Id info))) containers)),
   w).
Proof.
  revert acc. induction containers as [|x containers IH]; intros acc Hall;
    cbn [for_each_with filter map].
  - now rewrite app_nil_r.
  - rewrite run_bind, run_summarize, (Hall x (or_introl eq_refl)).
    rewrite IH by (intros info Hin; apply Hall; now right).
    destruct (enabled (details (info_Id x))); cbn [map]; [| reflexivity].
    now rewrite <- app_assoc.
Qed.

(** The loop up to the first inspection that fails. *)
Lemma run_summaries_fail (pre post : list ContainerInfo) (info : ContainerInfo) (e : string)
    (acc : list ContainerSummary) (w : World) :
  (forall x, In x pre -> exists d, docker_inspect out (info_Id x) = Resolved d) ->
  docker_inspect out (info_Id info) = Rejected e ->
  run out (for_each_with (pre ++ info :: post) acc summarize) w = (Rejected e, w).
Proof.
  revert acc. induction pre as [|x pre IH]; intros acc Hpre Hfail; cbn [app for_each_with].
  - now rewrite run_bind, run_summarize, Hfail.
  - rewrite run_bind, run_summarize.
    destruct (Hpre x (or_introl eq_refl)) as [d ->].
    apply IH; [| exact Hfail]. intros y Hy. apply Hpre. now right.
Qed.

End Listing.

Lemma Within_api_containers :
  Within (fun _ => False) (fun e => is_log e = true) api_containers.
Proof.
  unfold api_containers, summarize. within.
Qed.

(** X13.  The listing of containers reads and never writes: the heap is
    left as it was and nothing but a log line enters the trace.  It answers
    500 with the message of the failure when the runtime cannot list, or
    cannot inspect one of the containers listed, whichever comes first; and
    otherwise 200 with one entry for each container listed whose labels
    enable the proxy, running or not, in the order of the listing. *)
Theorem api_containers_answer (out : Outside) (w : World) :
  (heap (after out api_containers w) = heap w
   /\ exists new, trace (after out api_containers w) = trace w ++ new
                  /\ Forall (fun e => is_log e = true) new)
  /\ (forall e,
        docker_listContainers out = Rejected e ->
        fst (run out api_containers w) = Resolved (500%Z, ContainersError e))
  /\ (forall pre info post e,
        docker_listContainers out = Resolved (pre ++ info :: post) ->
        (forall x, In x pre -> exists d, docker_inspect out (info_Id x) = Resolved d) ->
        docker_inspect out (info_Id info) = Rejected e ->
        fst (run out api_containers w) = Resolved (500%Z, ContainersError e))
  /\ (forall containers details,
        docker_listContainers out = Resolved containers ->
        (forall info, In info containers ->
                      docker_inspect out (info_Id info) = Resolved (details (info_Id info))) ->
        run out api_containers w
        = (Resolved
             (200%Z,
              ContainersBody
                (map (fun info =>
                        container_summary info
                          (labels_or_empty (Config_Labels (details (info_Id info)))))
                   (filter (fun info => enabled (details (info_Id info))) containers))),
           w)).
Proof.
  split; [| split; [| split]].
  - destruct (Within_run (fun _ => False) (fun e => is_log e = true) eq out api_containers
                Within_api_containers) with (w := w) as [Hh Htr]; auto.
    + intros; congruence.
    + intros f h [].
  - intros e Hlist. unfold api_containers.
    rewrite run_try_catch, run_bind. cbn [run]. rewrite Hlist. reflexivity.
  - intros pre info post e Hlist Hpre Hfail. unfold api_containers.
    rewrite run_try_catch, run_bind. cbn [run]. rewrite Hlist. cbn [settle run].
    rewrite run_bind, (run_summaries_fail out pre post info e [] w Hpre Hfail).
    reflexivity.
  - intros containers details Hlist Hall. unfold api_containers.
    rewrite run_try_catch, run_bind. cbn [run]. rewrite Hlist. cbn [settle run].
    rewrite run_bind, (run_summaries out details containers [] w Hall).
    reflexivity.
Qed.

Lemma api_containers_answer_witness :
  fst (run (example_outside (Rejected "connect ENOENT /var/run/docker.sock") []
              (Resolved "1") (Resolved tt))
         api_containers {| heap := initial; trace := [] |})
  = Resolved (500%Z, ContainersError "connect ENOENT /var/run/docker.sock")
  /\ run (example_outside (Resolved [stopped_container]) scenario_labels
            (Resolved "1") (Resolved tt))
       api_containers {| heap := initial; trace := [] |}
     = (Resolved
          (200%Z,
           ContainersBody
             (map (fun info =>
                     container_summary info
                       (labels_or_empty
                          (Config_Labels {| Id := info_Id info;
                                            Config_Labels := Some scenario_labels |})))
                (filter (fun info => enabled {| Id := info_Id info;
                                                Config_Labels := Some scenario_labels |})
                   [stopped_container]))),
        {| heap := initial; trace := [] |}).
Proof.
  split.
  - apply (api_containers_answer
             (example_outside (Rejected "connect ENOENT /var/run/docker.sock") []
                (Resolved "1") (Resolved tt))
             {| heap := initial; trace := [] |}).
    reflexivity.
  - apply (api_containers_answer
             (example_outside (Resolved [stopped_container]) scenario_labels
                (Resolved "1") (Resolved tt))
             {| heap := initial; trace := [] |})
      with (details := fun id => {| Id := id; Config_Labels := Some scenario_labels |}).
    + reflexivity.
    + intros info _. reflexivity.
Defined.

(** X14.  A tick never deletes: whatever the runtime and the registrar
    answer, it sends no request for deletion, and every key of the table of
    records is still there when it ends. *)
Theorem tick_never_deletes (config : Config) (out : Outside) (w : World) :
  let w' := after out (monitorContainers config) w in
  deletes (trace w') = deletes (trace w)
  /\ incl (Map_keys (managedRecords (heap w))) (Map_keys (managedRecords (heap w'))).
Proof.
  cbv zeta. split.
  - destruct (monitorContainers_events config out w) as [new [Htr Hnew]].
    unfold after. rewrite Htr. unfold deletes. rewrite filter_app.
    rewrite (filter_none is_delete new); [apply app_nil_r |].
    eapply Forall_impl; [| exact Hnew]. now intros e [_ H].
  - rewrite tick_eq. destruct (docker_listContainers out) as [containers|e].
    + cbv zeta.
      destruct (phase2_heap config out (running_ids [] containers)
                  (managedRecords
                     (heap (fold_left
                              (fun w' info => after out (monitorContainer config [] info) w')
                              containers w)))
                  (fold_left (fun w' info => after out (monitorContainer config [] info) w')
                     containers w)) as [Hrec _].
      rewrite Hrec. apply phase1_keys.
    + apply incl_refl.
Qed.
